(** * godbsql: the query and relation core of the SQL driver

    A shallow embedding of [sql.go] (package [godbsql]): the filter
    compiler [prepareFilters], the soft-delete rewriter
    [prepareSoftDelete], the foreign-key munger [prepareForeignKey], the
    CRUD surface of [Connection] with its construction, the three relation
    loaders, and the Postgres adapter (package [connection]); followed by
    the properties of the specification that concern them, and by more
    properties of the same code. *)

From Stdlib Require Import ZArith List String Ascii Bool Lia.
From Stdlib Require Import Numbers.DecimalString.
From stdpp Require Import base option list strings gmap.

Local Open Scope Z_scope.

(** ** Go runtime: machine integers and the [strings] package *)

(** Go's [int] on the 64-bit targets the driver is built for: arithmetic
    wraps around in two's complement. *)
Definition int_min : Z := - 2 ^ 63.
Definition int_max : Z := 2 ^ 63 - 1.

Definition int_wrap (z : Z) : Z := (z + 2 ^ 63) mod 2 ^ 64 - 2 ^ 63.

Definition int_add (a b : Z) : Z := int_wrap (a + b).

(** [fmt.Sprintf("%d", n)]. *)
Definition fmt_d (n : Z) : string := NilZero.string_of_int (Z.to_int n).

(** [strings.Join(elems, sep)]. *)
Fixpoint strings_Join (elems : list string) (sep : string) : string :=
  match elems with
  | [] => ""
  | [e] => e
  | e :: rest => e +:+ sep +:+ strings_Join rest sep
  end.

(** [strings.Split(s, sep)] for a one-byte separator: the segments between
    the separators, in order; there is always at least one segment. *)
Fixpoint strings_Split (s : string) (sep : ascii) : list string :=
  match s with
  | EmptyString => [""%string]
  | String c rest =>
      if Ascii.eqb c sep then ""%string :: strings_Split rest sep
      else match strings_Split rest sep with
           | [] => [String c ""]
           | seg :: segs => String c seg :: segs
           end
  end.

(** [strings.Contains(s, sep)] for a one-byte separator. *)
Fixpoint strings_Contains (s : string) (sep : ascii) : bool :=
  match s with
  | EmptyString => false
  | String c rest => Ascii.eqb c sep || strings_Contains rest sep
  end.

Definition is_ascii_byte (c : ascii) : bool := (N_of_ascii c <? 128)%N.

Definition is_lower_byte (c : ascii) : bool :=
  ((97 <=? N_of_ascii c) && (N_of_ascii c <=? 122))%N.

Definition upper_byte (c : ascii) : ascii :=
  if is_lower_byte c then ascii_of_N (N_of_ascii c - 32) else c.

Fixpoint all_ascii (s : string) : bool :=
  match s with
  | EmptyString => true
  | String c rest => is_ascii_byte c && all_ascii rest
  end.

Fixpoint map_bytes (f : ascii -> ascii) (s : string) : string :=
  match s with
  | EmptyString => EmptyString
  | String c rest => String (f c) (map_bytes f rest)
  end.

(** ** Values, errors and outcomes *)

(** A Go value of static type [any]: the driver stores such values,
    passes them to the SQL handle, prints them with [%v], compares them
    with [!=] and uses them as map keys, and the last two look at the
    dynamic type.  [VNil] is the nil interface; [VBool], [VInt], [VString]
    and [VTime] are values of the types [bool], [int], [string] and
    [time.Time]; [VOther] is a value of any other dynamic type (another
    integer type, a pointer, a slice, ...): the name of the type, whether
    Go can compare values of the type, what tells two values of the type
    apart under [==] (the number, the address), and what [%v] prints.

    Modelled from the spec: [VRawSQL] is a value of the wrapper type
    [RawSQL] ([type RawSQL string] in the README); [sql.go] never declares
    or mentions the type, so to the code it is one more value. *)
Inductive value :=
| VNil
| VBool (b : bool)
| VInt (n : Z)
| VString (s : string)
| VTime (t : Z)
| VRawSQL (s : string)
| VOther (type_name : string) (comparable : bool) (identity : string)
    (printed : string).

#[global] Instance value_eq_dec : EqDecision value.
Proof. solve_decision. Defined.

(** Go errors: the two sentinels the driver tests for ([sql.ErrNoRows]
    and [godb.ErrNoDocumentsFound]), [fmt.Errorf] with and without a
    wrapped cause ([%w]), and errors of the SQL driver. *)
Inductive error :=
| ErrNoRows
| ErrNoDocumentsFound
| Errorf (msg : string)
| Errorw (msg : string) (cause : error)
| ErrDriver (msg : string).

(** [errors.Is(err, sql.ErrNoRows)]: walks the chain of wrapped causes. *)
Fixpoint errors_Is_ErrNoRows (e : error) : bool :=
  match e with
  | ErrNoRows => true
  | Errorw _ cause => errors_Is_ErrNoRows cause
  | _ => false
  end.

(** What a call does: return normally, return a non-nil [error], or
    panic. *)
Inductive outcome (A : Type) :=
| Ok (a : A)
| Err (e : error)
| Panic (msg : string).
Arguments Ok {A} a.
Arguments Err {A} e.
Arguments Panic {A} msg.

(** [a == b] on two values of static type [any]: they are equal when
    their dynamic types are the same and the values under them are equal;
    comparing two values of one type that cannot be compared panics. *)
Definition go_equal (a b : value) : outcome bool :=
  match a, b with
  | VOther type_a comparable_a id_a _, VOther type_b comparable_b id_b _ =>
      if String.eqb type_a type_b then
        if comparable_a && comparable_b then Ok (String.eqb id_a id_b)
        else Panic ("runtime error: comparing uncomparable type " +:+ type_a)
      else Ok false
  | VOther _ _ _ _, _ => Ok false
  | _, VOther _ _ _ _ => Ok false
  | _, _ => Ok (bool_decide (a = b))
  end.

(** [a != b]. *)
Definition go_neq (a b : value) : outcome bool :=
  match go_equal a b with
  | Ok same => Ok (negb same)
  | Err e => Err e
  | Panic msg => Panic msg
  end.

(** Using [k] as the key of a map with keys of type [any]: a key of a
    type that cannot be compared cannot be hashed, and the map access
    panics. *)
Definition go_hash (k : value) : outcome unit :=
  match k with
  | VOther type_name false _ _ =>
      Panic ("runtime error: hash of unhashable type " +:+ type_name)
  | _ => Ok tt
  end.

(** Whether two keys that can be hashed are the same key. *)
Definition same_key (a b : value) : bool :=
  match go_equal a b with
  | Ok same => same
  | _ => false
  end.

(** ** [strings.Builder] with its placeholders kept apart

    Every write of the driver is a run of literal text or the verb [$%d]
    applied to the running counter.  A builder keeps the pieces in the
    order written; [Builder_String] is the text Go sees. *)
Inductive piece :=
| Lit (s : string)
| Placeholder (index : Z).

Definition Builder := list piece.

Definition piece_String (p : piece) : string :=
  match p with
  | Lit s => s
  | Placeholder i => "$" +:+ fmt_d i
  end.

Fixpoint Builder_String (b : Builder) : string :=
  match b with
  | [] => ""
  | p :: rest => piece_String p +:+ Builder_String rest
  end.

Definition Builder_Len (b : Builder) : nat := String.length (Builder_String b).

(** The placeholder indices of a builder, left to right. *)
Fixpoint placeholders (b : Builder) : list Z :=
  match b with
  | [] => []
  | Lit _ :: rest => placeholders rest
  | Placeholder i :: rest => i :: placeholders rest
  end.

(** ** Filter trees ([models.Filter], [models.FilterMultipleValue],
    [models.GroupFilter]) *)

Definition ComparatorEqual : string := "=".
Definition ComparatorNotEqual : string := "!=".
Definition ComparatorGreaterThan : string := ">".
Definition ComparatorLessThan : string := "<".
Definition ComparatorGreaterThanOrEqual : string := ">=".
Definition ComparatorLessThanOrEqual : string := "<=".
Definition ComparatorLike : string := "LIKE".
Definition ComparatorIn : string := "IN".
Definition ComparatorNotIn : string := "NOT IN".
Definition ComparatorIsNull : string := "IS NULL".
Definition ComparatorIsNotNull : string := "IS NOT NULL".
Definition OperatorAnd : string := "AND".
Definition OperatorOr : string := "OR".

(** Modelled from the spec: the constant [models.FilterSqlComparatorIsNull]
    of the [godb] models package, which is not part of this repository; the
    spec writes the tombstone test as [d IS NULL]. *)
Definition FilterSqlComparatorIsNull : string := "IS NULL".

(** Modelled from the spec: [models.Filter] of the [godb] models package,
    which is not part of this repository; the fields are those [sql.go]
    reads and writes. *)
Record Filter := {
  Filter_Key : string;
  Filter_Value : value;
  Filter_Comparator : option string;
  Filter_Operator : option string
}.

(** Modelled from the spec: [models.FilterMultipleValue], likewise. *)
Record FilterMultipleValue := {
  Multi_Key : string;
  Multi_Values : list value;
  Multi_Comparator : option string
}.

(** Modelled from the spec: [models.GroupFilter], likewise, with its
    fields [Filters []any] and [Operator string].  An element of [Filters]
    is one of the three filter types, or a value of any other dynamic
    type. *)
Inductive FilterAny :=
| AnyFilter (f : Filter)
| AnyMultiple (f : FilterMultipleValue)
| AnyGroup (g : GroupFilter)
| AnyOther (v : value)
with GroupFilter :=
| Build_GroupFilter (Filters : list FilterAny) (Operator : string).

Definition Filters (g : GroupFilter) : list FilterAny :=
  match g with Build_GroupFilter fs _ => fs end.

Definition Operator (g : GroupFilter) : string :=
  match g with Build_GroupFilter _ op => op end.

(** ** The filter compiler *)

(** The line [prepareFilters] logs for a single-value filter with a set
    comparator. *)
Definition in_not_supported : string :=
  "models.Filter not support 'IN' or 'NOT IN' comparator, use models.FilterMultipleValue".

(** The local variables of the loop of [prepareFilters], and the lines
    logged so far. *)
Record compiler := {
  queryBuilder : Builder;
  vals : list value;
  counter : Z;
  logged : list string
}.

(** The body of the inner loop over [multiFilter.Values]. *)
Fixpoint multi_values (values : list value) (subitems : Z)
    (currentParts : Builder) (currentVals : list value) (counter : Z)
  : Builder * list value * Z :=
  match values with
  | [] => (currentParts, currentVals, counter)
  | v :: rest =>
      let currentParts :=
        if 1 <? subitems then currentParts ++ [Lit ", "] else currentParts in
      let currentParts := currentParts ++ [Placeholder counter] in
      multi_values rest (int_add subitems 1) currentParts
        (currentVals ++ [v]) (int_add counter 1)
  end.

(** The tail of the loop body: join what the element produced to the
    output. *)
Definition emit (operator : string) (st : compiler)
    (currentParts : Builder) (currentVals : list value) (counter : Z)
    (lines : list string) : compiler :=
  if (0 <? Builder_Len currentParts)%nat then
    let joined :=
      if (0 <? Builder_Len (queryBuilder st))%nat then
        let groupOperator :=
          if String.eqb operator "" then OperatorAnd else operator in
        queryBuilder st ++ [Lit (" " +:+ groupOperator +:+ " ")]
      else queryBuilder st in
    {| queryBuilder := joined ++ currentParts;
       vals := vals st ++ currentVals;
       counter := counter;
       logged := logged st ++ lines |}
  else
    {| queryBuilder := queryBuilder st;
       vals := vals st;
       counter := counter;
       logged := logged st ++ lines |}.

Section PrepareFiltersBody.
(** The recursive call on a nested group. *)
Variable recur : GroupFilter -> Z -> compiler.

(** One iteration of [for _, tmpFilter := range filters.Filters]. *)
Definition prepareFilters_step (operator : string) (st : compiler)
    (tmpFilter : FilterAny) : compiler :=
  match tmpFilter with
  | AnyFilter filter =>
      let comparator := default "="%string (Filter_Comparator filter) in
      if negb (String.eqb comparator ComparatorIsNull)
         && negb (String.eqb comparator ComparatorIsNotNull)
         && negb (String.eqb comparator ComparatorIn)
         && negb (String.eqb comparator ComparatorNotIn)
      then
        emit operator st
          [Lit (Filter_Key filter +:+ " " +:+ comparator +:+ " ");
           Placeholder (counter st)]
          [Filter_Value filter] (int_add (counter st) 1) []
      else if String.eqb comparator ComparatorIn
              || String.eqb comparator ComparatorNotIn
      then
        (* log.Println(...); continue *)
        {| queryBuilder := queryBuilder st;
           vals := vals st;
           counter := counter st;
           logged := logged st ++ [in_not_supported] |}
      else
        emit operator st
          [Lit (Filter_Key filter +:+ " " +:+ comparator)] [] (counter st) []
  | AnyMultiple multiFilter =>
      let comparator := default "IN"%string (Multi_Comparator multiFilter) in
      if String.eqb comparator ComparatorIn
         || String.eqb comparator ComparatorNotIn
      then
        let '(parts, currentVals, counter') :=
          multi_values (Multi_Values multiFilter) 1
            [Lit (Multi_Key multiFilter +:+ " " +:+ comparator +:+ " (")]
            [] (counter st) in
        emit operator st (parts ++ [Lit ")"]) currentVals counter' []
      else emit operator st [] [] (counter st) []
  | AnyGroup groupFilter =>
      let sub := recur groupFilter (counter st) in
      if negb (String.eqb (Builder_String (queryBuilder sub)) "") then
        emit operator st
          ([Lit "("] ++ queryBuilder sub ++ [Lit ")"]) (vals sub)
          (counter sub) (logged sub)
      else emit operator st [] [] (counter sub) (logged sub)
  | AnyOther _ => emit operator st [] [] (counter st) []
  end.
End PrepareFiltersBody.

(** [prepareFilters] with the state of its builder and its log lines. *)
Fixpoint prepareFilters_run (filters : GroupFilter) (counter : Z)
    {struct filters} : compiler :=
  match filters with
  | Build_GroupFilter fs operator =>
      let counter := if counter <=? 0 then 1 else counter in
      fold_left (prepareFilters_step prepareFilters_run operator) fs
        {| queryBuilder := []; vals := []; counter := counter; logged := [] |}
  end.

(** [return queryBuilder.String(), vals, counter]. *)
Definition returned (st : compiler) : string * list value * Z :=
  (Builder_String (queryBuilder st), vals st, counter st).

(** [prepareFilters(filters, counter)]: the fragment, the arguments and the
    next placeholder index. *)
Definition prepareFilters (filters : GroupFilter) (counter : Z)
  : string * list value * Z :=
  returned (prepareFilters_run filters counter).

(** [models.Filter{Key: key, Comparator: cmp, Value: v}] as a member of a
    group. *)
Definition single (key : string) (cmp : option string) (v : value) : FilterAny :=
  AnyFilter {| Filter_Key := key; Filter_Value := v;
               Filter_Comparator := cmp; Filter_Operator := None |}.

(** ** The soft-delete rewriter *)

(** [prepareSoftDelete(softDelete, filters)]. *)
Definition prepareSoftDelete (softDelete : option string) (filters : GroupFilter)
  : GroupFilter :=
  match softDelete with
  | None => filters
  | Some column =>
      if String.eqb column "" then filters
      else
        let newGroup :=
          Build_GroupFilter
            [AnyFilter {| Filter_Key := column;
                          Filter_Value := VNil;
                          Filter_Comparator := Some FilterSqlComparatorIsNull;
                          Filter_Operator := Some "OR"%string |}]
            "OR" in
        if (0 <? length (Filters filters))%nat then
          Build_GroupFilter (Filters filters ++ [AnyGroup newGroup])
            (Operator filters)
        else newGroup
  end.

(** ** The foreign-key munger *)

Section ForeignKey.
(** [strings.Map(unicode.ToUpper, s)], the path [strings.ToUpper] takes
    for a string that is not pure ASCII. *)
Variable unicode_ToUpper : string -> string.

(** [strings.ToUpper(s)]. *)
Definition strings_ToUpper (s : string) : string :=
  if all_ascii s then map_bytes upper_byte s else unicode_ToUpper s.

Definition slice_bounds : string :=
  "runtime error: slice bounds out of range [:1] with length 0".

(** The loop [for i := range parts] of [prepareForeignKey]. *)
Fixpoint prepareForeignKey_parts (parts : list string) (buffer : string)
  : outcome string :=
  match parts with
  | [] => Ok buffer
  | part :: rest =>
      match part with
      | EmptyString => Panic slice_bounds            (* parts[i][:1] *)
      | String first tail =>
          prepareForeignKey_parts rest
            (buffer +:+ (strings_ToUpper (String first "") +:+ tail))
      end
  end.

(** [prepareForeignKey(str)]. *)
Definition prepareForeignKey (str : string) : outcome string :=
  prepareForeignKey_parts (strings_Split str "_") "".
End ForeignKey.

(** ** The world the driver runs in *)

(** A [*sql.DB] handle. *)
Definition DB := nat.

(** A statement handed to a handle, with its arguments. *)
Record statement := {
  on_handle : DB;
  sql_text : string;
  sql_args : list value
}.

(** A line written by [log.Println]. *)
Inductive logline :=
| Println (text : string)
| PrintlnValues (label : string) (values : list value).

(** What the driver changes outside its own variables: the statements it
    has issued, the lines it has logged, and how often it has read the
    clock or asked for a UUID. *)
Record world := {
  issued : list statement;
  log_output : list logline;
  clock_reads : nat
}.

(** The result of a multi-row query: the rows, and what [rows.Err()]
    answers once they are consumed. *)
Record rowset := {
  rows : list (list value);
  rows_Err : option error
}.

(** Everything outside the repository: the database behind the handles
    (any function of what happened so far), the clock, the UUID source,
    the environment variable [SQL_DEBUG], the Unicode tables, [%v] on a
    time, and the order in which [range] visits a map (some permutation of
    its entries). *)
Record environment := {
  QueryContext : world -> statement -> error + rowset;
  QueryRowContext : world -> statement -> error + list value;
  ExecContext : world -> statement -> error + (error + Z);
  time_Now : world -> Z;
  uuid_NewV7 : world -> error + string;
  SQL_DEBUG : bool;
  unicode_upper : string -> string;
  time_String : Z -> string;
  map_range : gmap string value -> list (string * value);
  map_range_perm : forall m, map_range m ≡ₚ map_to_list m
}.

(** A computation of the driver: it may change the world and returns
    normally, with an error, or panics. *)
Definition M (A : Type) : Type := world -> outcome A * world.

Definition ret {A} (a : A) : M A := fun w => (Ok a, w).

Definition bind {A B} (m : M A) (k : A -> M B) : M B :=
  fun w =>
    match m w with
    | (Ok a, w') => k a w'
    | (Err e, w') => (Err e, w')
    | (Panic msg, w') => (Panic msg, w')
    end.

Definition throw {A} (e : error) : M A := fun w => (Err e, w).

(** [if err != nil { return h(err) }] around a call. *)
Definition on_error {A} (h : error -> error) (m : M A) : M A :=
  fun w =>
    match m w with
    | (Err e, w') => (Err (h e), w')
    | r => r
    end.

(** A pure step that may fail or panic. *)
Definition lift {A} (r : outcome A) : M A := fun w => (r, w).

Notation "'do' x <- m ;; k" := (bind m (fun x => k))
  (at level 10, x name, m at level 99, k at level 200).
Notation "'do' ' pat <- m ;; k" :=
  (bind m (fun x => match x with pat => k end))
  (at level 10, pat pattern, m at level 99, k at level 200).
Notation "'run' m ;; k" := (bind m (fun _ => k))
  (at level 10, m at level 99, k at level 200).

(** [for _, x := range xs] with a body that may return early. *)
Fixpoint for_each {A B} (body : A -> M B) (xs : list A) : M (list B) :=
  match xs with
  | [] => ret []
  | x :: rest =>
      do y <- body x ;;
      do ys <- for_each body rest ;;
      ret (y :: ys)
  end.

Fixpoint fold_each {A S} (body : S -> A -> M S) (xs : list A) (s : S) : M S :=
  match xs with
  | [] => ret s
  | x :: rest => do s' <- body s x ;; fold_each body rest s'
  end.

Definition log_Println (l : logline) : M unit :=
  fun w =>
    (Ok tt, {| issued := issued w;
               log_output := log_output w ++ [l];
               clock_reads := clock_reads w |}).

Definition issue (s : statement) (w : world) : world :=
  {| issued := issued w ++ [s];
     log_output := log_output w;
     clock_reads := clock_reads w |}.

Definition tick (w : world) : world :=
  {| issued := issued w;
     log_output := log_output w;
     clock_reads := S (clock_reads w) |}.

Section Driver.
Variable env : environment.

(** [time.Now().UTC()]. *)
Definition now : M Z := fun w => (Ok (time_Now env w), tick w).

(** [uuid.NewV7()] followed by [.String()]. *)
Definition new_uuid : M string :=
  fun w =>
    match uuid_NewV7 env w with
    | inl e => (Err e, tick w)
    | inr u => (Ok u, tick w)
    end.

(** [db.QueryContext(ctx, query, args...)]. *)
Definition db_QueryContext (db : DB) (query : string) (args : list value)
  : M rowset :=
  fun w =>
    let s := {| on_handle := db; sql_text := query; sql_args := args |} in
    match QueryContext env w s with
    | inl e => (Err e, issue s w)
    | inr r => (Ok r, issue s w)
    end.

(** [db.QueryRowContext(ctx, query, args...)]; the error, if any, is the
    one its [Scan] reports. *)
Definition db_QueryRowContext (db : DB) (query : string) (args : list value)
  : M (error + list value) :=
  fun w =>
    let s := {| on_handle := db; sql_text := query; sql_args := args |} in
    (Ok (QueryRowContext env w s), issue s w).

(** [db.ExecContext(ctx, query, args...)]; the result answers
    [RowsAffected()]. *)
Definition db_ExecContext (db : DB) (query : string) (args : list value)
  : M (error + Z) :=
  fun w =>
    let s := {| on_handle := db; sql_text := query; sql_args := args |} in
    match ExecContext env w s with
    | inl e => (Err e, issue s w)
    | inr r => (Ok r, issue s w)
    end.

(** [if goenvars.GetEnvBool("SQL_DEBUG", false) { log.Println(...);
    log.Println(...) }]. *)
Definition sql_debug (query : string) (label : string) (args : list value)
  : M unit :=
  if SQL_DEBUG env then
    run log_Println (Println ("SQL Query: " +:+ query)) ;;
    log_Println (PrintlnValues label args)
  else ret tt.

(** [prepareFilters] as a step of the driver: its lines reach the log. *)
Definition prepareFilters_logged (filters : GroupFilter) (counter : Z)
  : M (string * list value * Z) :=
  fun w =>
    let st := prepareFilters_run filters counter in
    (Ok (returned st),
     {| issued := issued w;
        log_output := log_output w ++ map Println (logged st);
        clock_reads := clock_reads w |}).
End Driver.

(** ** Options, entities and the repository interface *)

(** Modelled from the spec: [models.Options] of the [godb] models
    package, with the fields [sql.go] reads and writes.  A nil slice and an
    empty one are both [[]]: the driver only asks for their length. *)
Record Options := {
  Columns : option (list string);
  Limit : Z;
  Offset : Z;
  OrderColumn : string;
  OrderDir : string;
  Relations : list string;
  PrimaryKey : option string;
  InsertPrimaryKey : option bool;
  TimestampsFields : option bool
}.

(** [models.Options{}]. *)
Definition Options_zero : Options :=
  {| Columns := None; Limit := 0; Offset := 0; OrderColumn := "";
     OrderDir := ""; Relations := []; PrimaryKey := None;
     InsertPrimaryKey := None; TimestampsFields := None |}.

Definition set_Limit (n : Z) (o : Options) : Options :=
  {| Columns := Columns o; Limit := n; Offset := Offset o;
     OrderColumn := OrderColumn o; OrderDir := OrderDir o;
     Relations := Relations o; PrimaryKey := PrimaryKey o;
     InsertPrimaryKey := InsertPrimaryKey o;
     TimestampsFields := TimestampsFields o |}.

Definition set_Relations (r : list string) (o : Options) : Options :=
  {| Columns := Columns o; Limit := Limit o; Offset := Offset o;
     OrderColumn := OrderColumn o; OrderDir := OrderDir o;
     Relations := r; PrimaryKey := PrimaryKey o;
     InsertPrimaryKey := InsertPrimaryKey o;
     TimestampsFields := TimestampsFields o |}.

(** An entity type [T Model]: what scanning a row through the
    destinations of [ScanFields()] yields (a fresh entity, or the error of
    [Scan]), and what reflection reads from a field by its name
    ([None]: the field does not exist). *)
Class Model (T : Type) := {
  ScanFields_Scan : list value -> error + T;
  FieldByName : T -> string -> option value
}.

(** Reflection on a container field of a parent [P] that holds entities
    [C]: append one child (the 1:N loader), assign the child (the 1:1
    loader), store the children (the N:M loader).  Each returns the parent
    as it is afterwards, or the error or panic of the reflective code. *)
Class Container (P C : Type) := {
  container_Append : string -> P -> C -> outcome P;
  container_Set : string -> P -> C -> outcome P;
  container_SetSlice : string -> P -> list C -> outcome P
}.

(** Modelled from the spec: the interface [repository.Repository[C]] of
    the [godb] repository package, reduced to the two methods the loaders
    call. *)
Record Repository (C : Type) := {
  Repository_Get : GroupFilter -> option Options -> M (list C);
  Repository_GetOne : GroupFilter -> option Options -> M C
}.
Arguments Repository_Get {C} _ _ _.
Arguments Repository_GetOne {C} _ _ _.

(** Modelled from the spec: the interface [repository.RelationLoader],
    with its method [Load(ctx, parentModels, childs)].  The parents are
    pointers, written through in place: the loader yields them as they are
    afterwards.  [childs] is a pointer to a slice, [None] when nil. *)
Definition RelationLoader (P : Type) : Type :=
  list P -> option (list string) -> M (list P).

Record OnetoManyLoader (C : Type) := {
  OnetoMany_Repository : Repository C;
  OnetoMany_ParentField : string;
  OnetoMany_ChildFkField : string;
  OnetoMany_ContainerField : string
}.
Arguments OnetoMany_Repository {C} _.
Arguments OnetoMany_ParentField {C} _.
Arguments OnetoMany_ChildFkField {C} _.
Arguments OnetoMany_ContainerField {C} _.

Record ManyToManyLoader (C : Type) := {
  ManyToMany_Repository : Repository C;
  ManyToMany_Connection : option DB;    (* [any]; [Some] when a [*sql.DB] *)
  ManyToMany_ParentKey : string;
  ManyToMany_ChildKey : string;
  ManyToMany_PivoteParentKey : string;
  ManyToMany_PivoteChildKey : string;
  ManyToMany_PivoteTable : string;
  ManyToMany_ContainerField : string
}.
Arguments ManyToMany_Repository {C} _.
Arguments ManyToMany_Connection {C} _.
Arguments ManyToMany_ParentKey {C} _.
Arguments ManyToMany_ChildKey {C} _.
Arguments ManyToMany_PivoteParentKey {C} _.
Arguments ManyToMany_PivoteChildKey {C} _.
Arguments ManyToMany_PivoteTable {C} _.
Arguments ManyToMany_ContainerField {C} _.

Record OnetoOneLoader (C : Type) := {
  OnetoOne_Repository : Repository C;
  OnetoOne_ParentField : string;
  OnetoOne_ChildFkField : string;
  OnetoOne_ContainerField : string
}.
Arguments OnetoOne_Repository {C} _.
Arguments OnetoOne_ParentField {C} _.
Arguments OnetoOne_ChildFkField {C} _.
Arguments OnetoOne_ContainerField {C} _.

(** [Connection[T]]. *)
Record Connection (T : Type) := {
  Conn : DB;
  Table : string;
  OrderColumns : gmap string string;
  SoftDelete : option string;
  RelationLoaders : option (gmap string (RelationLoader T))
}.
Arguments Conn {T} _.
Arguments Table {T} _.
Arguments OrderColumns {T} _.
Arguments SoftDelete {T} _.
Arguments RelationLoaders {T} _.

(** [opts := models.Options{}; if childs != nil && len( *childs) > 0
    { opts.Relations = *childs }], as every loader does. *)
Definition child_options (childs : option (list string)) : Options :=
  match childs with
  | Some names =>
      if (0 <? length names)%nat then set_Relations names Options_zero
      else Options_zero
  | None => Options_zero
  end.

(** ** The relation loaders *)

Section Loaders.
Variable env : environment.
Context {P C : Type} `{!Model P} `{!Model C} `{!Container P C}.

(** [val.FieldByName(name)] followed by the [IsValid] test. *)
Definition field_or {A} `{!Model A} (model : A) (name : string) (e : error)
  : M value :=
  match FieldByName model name with
  | Some v => ret v
  | None => throw e
  end.

(** [OnetoManyLoader.Load]. *)
Definition OnetoManyLoader_Load (l : OnetoManyLoader C) : RelationLoader P :=
  fun parentModels childs =>
    if (length parentModels =? 0)%nat then ret parentModels
    else
      do parentIds <-
        for_each
          (fun model =>
             field_or model (OnetoMany_ParentField l)
               (Errorf ("invalid parent field: " +:+ OnetoMany_ParentField l)))
          parentModels ;;
      let filters :=
        Build_GroupFilter
          [AnyMultiple {| Multi_Key := OnetoMany_ChildFkField l;
                          Multi_Values := parentIds;
                          Multi_Comparator := Some ComparatorIn |}]
          "" in
      let opts := child_options childs in
      do allChildrens <-
        on_error (Errorw "failed to get child models: ")
          (Repository_Get (OnetoMany_Repository l) filters (Some opts)) ;;
      fold_each
        (fun parents child =>
           do foreignKeyTmp <-
             lift (prepareForeignKey (unicode_upper env)
                     (OnetoMany_ChildFkField l)) ;;
           do foreignKey <-
             field_or child foreignKeyTmp
               (Errorf ("invalid child foreign key field: " +:+ foreignKeyTmp
                        +:+ ", " +:+ OnetoMany_ChildFkField l)) ;;
           for_each
             (fun parent =>
                do parentId <-
                  field_or parent (OnetoMany_ParentField l)
                    (Errorf ("invalid parent field: "
                             +:+ OnetoMany_ParentField l)) ;;
                do differ <- lift (go_neq foreignKey parentId) ;;
                if differ then ret parent
                else lift (container_Append (OnetoMany_ContainerField l)
                             parent child))
             parents)
        allChildrens parentModels.

(** [fmt.Sprintf("%v", v)]. *)
Definition fmt_v (v : value) : string :=
  match v with
  | VNil => "<nil>"
  | VBool true => "true"
  | VBool false => "false"
  | VInt n => fmt_d n
  | VString s => s
  | VTime t => time_String env t
  | VRawSQL s => s
  | VOther _ _ _ printed => printed
  end.

(** [listChildForParent[childId] = append(listChildForParent[childId],
    parentId)] on a map keyed by values, for a key that can be hashed. *)
Fixpoint pivot_add (childId parentId : value)
    (m : list (value * list value)) : list (value * list value) :=
  match m with
  | [] => [(childId, [parentId])]
  | (k, ps) :: rest =>
      if same_key k childId then (k, ps ++ [parentId]) :: rest
      else (k, ps) :: pivot_add childId parentId rest
  end.

Fixpoint pivot_lookup (childId : value) (m : list (value * list value))
  : option (list value) :=
  match m with
  | [] => None
  | (k, ps) :: rest =>
      if same_key k childId then Some ps else pivot_lookup childId rest
  end.

(** The text of the pivot query for [n] parents. *)
Definition pivot_query (m : ManyToManyLoader C) (n : nat) : string :=
  "SELECT " +:+ ManyToMany_PivoteParentKey m +:+ ", "
  +:+ ManyToMany_PivoteChildKey m +:+ " FROM " +:+ ManyToMany_PivoteTable m
  +:+ " WHERE " +:+ ManyToMany_PivoteParentKey m +:+ " IN ("
  +:+ strings_Join
        (map (fun i => "$" +:+ fmt_d (Z.of_nat i + 1)) (seq 0 n)) ", "
  +:+ ")".

(** [ManyToManyLoader.Load]. *)
Definition ManyToManyLoader_Load (m : ManyToManyLoader C) : RelationLoader P :=
  fun parentModels childs =>
    if (length parentModels =? 0)%nat then ret parentModels
    else
      do parentModelsIds <-
        for_each
          (fun model =>
             field_or model (ManyToMany_ParentKey m)
               (Errorf ("invalid parent key field: "
                        +:+ ManyToMany_ParentKey m)))
          parentModels ;;
      let query := pivot_query m (length parentModelsIds) in
      run sql_debug env query "SQL Values:" parentModelsIds ;;
      match ManyToMany_Connection m with
      | None => throw (Errorf "failed to assert connection to *sql.DB")
      | Some sqlConn =>
          do result <-
            on_error (Errorw "failed to query pivot table: ")
              (db_QueryContext env sqlConn query parentModelsIds) ;;
          do '(listChildForParent, listAllChildIds) <-
            fold_each
              (fun acc row =>
                 match row with
                 | [parentId; childId] =>
                     run lift (go_hash childId) ;;
                     ret (pivot_add childId parentId (fst acc),
                          snd acc ++ [childId])
                 | _ =>
                     throw (Errorw "failed to scan pivot row: "
                              (ErrDriver "sql: wrong number of destination arguments in Scan"))
                 end)
              (rows result) ([], []) ;;
          let filtersForChildren :=
            Build_GroupFilter
              [AnyMultiple {| Multi_Key := ManyToMany_ChildKey m;
                              Multi_Values := listAllChildIds;
                              Multi_Comparator := Some ComparatorIn |}]
              "" in
          let opts := child_options childs in
          do allChildren <-
            on_error (Errorw "failed to get child models: ")
              (Repository_Get (ManyToMany_Repository m) filtersForChildren
                 (Some opts)) ;;
          do finalContainerChilds <-
            fold_each
              (fun (final : gmap string (list C)) child =>
                 do childKeyValue <-
                   field_or child (ManyToMany_ChildKey m)
                     (Errorf ("invalid child key field: "
                              +:+ ManyToMany_ChildKey m)) ;;
                 run lift (go_hash childKeyValue) ;;
                 match pivot_lookup childKeyValue listChildForParent with
                 | None =>
                     run log_Println
                           (PrintlnValues
                              "No parent IDs found for child key value:"
                              [childKeyValue]) ;;
                     ret final
                 | Some parentIdsForChild =>
                     ret (fold_left
                            (fun final parentId =>
                               <[fmt_v parentId :=
                                   default [] (final !! fmt_v parentId)
                                   ++ [child]]> final)
                            parentIdsForChild final)
                 end)
              allChildren ∅ ;;
          for_each
            (fun parent =>
               do parentKey <-
                 field_or parent (ManyToMany_ParentKey m)
                   (Errorf ("invalid parent key field: "
                            +:+ ManyToMany_ParentKey m)) ;;
               match finalContainerChilds !! fmt_v parentKey with
               | None => ret parent
               | Some children =>
                   lift (container_SetSlice (ManyToMany_ContainerField m)
                           parent children)
               end)
            parentModels
      end.

(** [OnetoOneLoader.Load]. *)
Definition OnetoOneLoader_Load (c : OnetoOneLoader C) : RelationLoader P :=
  fun parentModel childs =>
    match parentModel with
    | [] => ret parentModel
    | first :: others =>
        do parentId <-
          field_or first (OnetoOne_ParentField c)
            (Errorf ("invalid parent field: " +:+ OnetoOne_ParentField c)) ;;
        let filterChild :=
          Build_GroupFilter
            [AnyFilter {| Filter_Key := OnetoOne_ChildFkField c;
                          Filter_Value := parentId;
                          Filter_Comparator := None;
                          Filter_Operator := None |}]
            "" in
        let opts := child_options childs in
        do childModel <-
          on_error (Errorw "failed to load child model: ")
            (Repository_GetOne (OnetoOne_Repository c) filterChild
               (Some opts)) ;;
        do first' <-
          lift (container_Set (OnetoOne_ContainerField c) first childModel) ;;
        ret (first' :: others)
    end.
End Loaders.

(** ** The CRUD surface of [Connection[T]] *)

(** A Go map: [None] is the nil map, which can be read but not written. *)
Definition gomap : Type := option (gmap string value).

Definition nil_map_write : string := "assignment to entry in nil map".

(** [delete(m, k)]. *)
Definition gomap_delete (k : string) (m : gomap) : gomap :=
  match m with
  | None => None
  | Some entries => Some (delete k entries)
  end.

Section Crud.
Variable env : environment.
Context {T : Type} `{!Model T}.

(** [c.SoftDelete != nil && *c.SoftDelete != ""]. *)
Definition soft_deletes (c : Connection T) : bool :=
  match SoftDelete c with
  | Some column => negb (String.eqb column "")
  | None => false
  end.

Definition rewritten (c : Connection T) (filters : GroupFilter) : GroupFilter :=
  if soft_deletes c then prepareSoftDelete (SoftDelete c) filters else filters.

(** [scanRow(row, &model)] on a fresh model. *)
Definition scanRow (row : error + list value) : M T :=
  match row with
  | inl e => throw (Errorw "failed to scan data: " e)
  | inr columns =>
      match ScanFields_Scan columns with
      | inl e => throw (Errorw "failed to scan data: " e)
      | inr model => ret model
      end
  end.

(** [Get] up to the point where the statement is complete. *)
Definition Get_statement (c : Connection T) (filters : GroupFilter)
    (opts : option Options) : M (string * list value) :=
  let filters := rewritten c filters in
  let cols :=
    match opts with
    | Some o =>
        match Columns o with
        | Some columns => strings_Join columns ", "
        | None => "*"%string
        end
    | None => "*"%string
    end in
  let query := "SELECT " +:+ cols +:+ " FROM " +:+ Table c in
  do '(allFilters, allVals, _) <- prepareFilters_logged filters 1 ;;
  let '(query, args) :=
    if negb (String.eqb allFilters "")
    then (query +:+ " WHERE " +:+ allFilters, allVals)
    else (query, []) in
  match opts with
  | None => ret (query, args)
  | Some o =>
      do query <-
        (if negb (String.eqb (OrderColumn o) "") then
           let orderDir :=
             if String.eqb
                  (strings_ToUpper (unicode_upper env) (OrderDir o)) "DESC"
             then "DESC"%string else "ASC"%string in
           match OrderColumns c !! OrderColumn o with
           | None =>
               throw (Errorf ("invalid order column: " +:+ OrderColumn o))
           | Some _ =>
               ret (query +:+ " ORDER BY " +:+ OrderColumn o +:+ " "
                    +:+ orderDir)
           end
         else ret query) ;;
      let query :=
        if 0 <? Limit o then query +:+ " LIMIT " +:+ fmt_d (Limit o)
        else query in
      let query :=
        if 0 <? Offset o then query +:+ " OFFSET " +:+ fmt_d (Offset o)
        else query in
      ret (query, args)
  end.

(** The head of a dotted relation and what [Get] hands to its loader. *)
Definition relation_path (relation : string) : string * list string :=
  if strings_Contains relation "." then
    match strings_Split relation "." with
    | head :: tail => (head, tail)
    | [] => (relation, [])
    end
  else (relation, []).

(** The loop [for _, relation := range opts.Relations] of [Get]. *)
Definition load_relations (loaders : gmap string (RelationLoader T))
    (relations : list string) (models : list T) : M (list T) :=
  fold_each
    (fun models relation =>
       let '(relation, childs) := relation_path relation in
       match loaders !! relation with
       | None =>
           throw (Errorf ("relation loader not found for relation: "
                          +:+ relation))
       | Some loader =>
           on_error
             (Errorw ("failed to load relation " +:+ relation +:+ ": "))
             (loader models (Some childs))
       end)
    relations models.

(** [Connection.Get]. *)
Definition Get (c : Connection T) (filters : GroupFilter)
    (opts : option Options) : M (list T) :=
  do '(query, args) <- Get_statement c filters opts ;;
  run sql_debug env query "SQL Args:" args ;;
  do result <-
    on_error
      (fun err =>
         if errors_Is_ErrNoRows err then ErrNoDocumentsFound else err)
      (db_QueryContext env (Conn c) query args) ;;
  do models <- for_each (fun row => scanRow (inr row)) (rows result) ;;
  do _ <-
    match rows_Err result with
    | Some err => throw (Errorw "rows error: " err)
    | None => ret tt
    end ;;
  match opts with
  | Some o =>
      if (0 <? length (Relations o))%nat then
        match RelationLoaders c with
        | Some loaders => load_relations loaders (Relations o) models
        | None => ret models
        end
      else ret models
  | None => ret models
  end.

(** [Connection.GetOne]: besides its result and the world, the options
    of the caller as the call leaves them ([opts] is a pointer). *)
Definition GetOne (c : Connection T) (filters : GroupFilter)
    (opts : option Options) : world -> outcome T * world * option Options :=
  fun w =>
    let limited :=
      match opts with
      | None => set_Limit 1 Options_zero
      | Some o => set_Limit 1 o
      end in
    let caller :=
      match opts with
      | None => None
      | Some _ => Some limited
      end in
    match Get c filters (Some limited) w with
    | (Ok [], w') => (Err ErrNoDocumentsFound, w', caller)
    | (Ok (first :: _), w') => (Ok first, w', caller)
    | (Err e, w') => (Err e, w', caller)
    | (Panic msg, w') => (Panic msg, w', caller)
    end.

(** [GetOne] for a caller that drops its options afterwards. *)
Definition GetOne_result (c : Connection T) (filters : GroupFilter)
    (opts : option Options) : M T :=
  fun w => let '(r, w', _) := GetOne c filters opts w in (r, w').

(** A connection as a [repository.Repository[T]]. *)
Definition as_Repository (c : Connection T) : Repository T :=
  {| Repository_Get := Get c; Repository_GetOne := GetOne_result c |}.
End Crud.

Section Writes.
Variable env : environment.
Context {T : Type} `{!Model T}.

(** The loop [for k, v := range data] of [Create]: columns, values and
    placeholders, numbered from [numItems]. *)
Fixpoint insert_parts (entries : list (string * value)) (numItems : Z)
  : list string * list value * list string :=
  match entries with
  | [] => ([], [], [])
  | (k, v) :: rest =>
      let '(columns, values, holders) :=
        insert_parts rest (int_add numItems 1) in
      (k :: columns, v :: values, ("$" +:+ fmt_d numItems) :: holders)
  end.

(** The loop [for k, v := range data] of [Update]: the parts of the SET
    clause, the values, and the next placeholder index. *)
Fixpoint set_parts (entries : list (string * value)) (items : Z)
  : list string * list value * Z :=
  match entries with
  | [] => ([], [], items)
  | (k, v) :: rest =>
      let '(setParts, vals, next) := set_parts rest (int_add items 1) in
      ((k +:+ " = $" +:+ fmt_d items) :: setParts, v :: vals, next)
  end.

(** [Create] once the payload is stamped. *)
Definition Create_insert (c : Connection T) (data : gomap) : M T :=
  let entries :=
    match data with
    | Some m => map_range env m
    | None => []
    end in
  let '(columns, values, holders) := insert_parts entries 1 in
  let query :=
    "INSERT INTO " +:+ Table c +:+ " (" +:+ strings_Join columns ", "
    +:+ ") VALUES (" +:+ strings_Join holders ", " +:+ ") RETURNING *" in
  run sql_debug env query "SQL Values:" values ;;
  do row <- db_QueryRowContext env (Conn c) query values ;;
  scanRow row.

(** [Connection.Create]: besides its result and the world, the payload
    map and the options of the caller as the call leaves them (a map is
    a reference, [opts] a pointer). *)
Definition Create (c : Connection T) (data : gomap) (opts : option Options)
  : world -> outcome T * world * gomap * option Options :=
  fun w =>
    match new_uuid env w with
    | (Err e, w) => (Err e, w, data, opts)
    | (Panic msg, w) => (Panic msg, w, data, opts)
    | (Ok newUuid, w) =>
        let o := default Options_zero opts in
        let primaryKey := default "id"%string (PrimaryKey o) in
        let insertPk := default true (InsertPrimaryKey o) in
        let timestamps := default true (TimestampsFields o) in
        let o :=
          {| Columns := Columns o; Limit := Limit o; Offset := Offset o;
             OrderColumn := OrderColumn o; OrderDir := OrderDir o;
             Relations := Relations o; PrimaryKey := Some primaryKey;
             InsertPrimaryKey := Some insertPk;
             TimestampsFields := Some timestamps |} in
        let caller := match opts with None => None | Some _ => Some o end in
        match data with
        | None =>
            if insertPk then (Panic nil_map_write, w, data, caller)
            else if timestamps then (Panic nil_map_write, tick w, data, caller)
            else
              let '(r, w) := Create_insert c data w in (r, w, data, caller)
        | Some m =>
            let m :=
              if insertPk then <[primaryKey := VString newUuid]> m else m in
            let '(m, w) :=
              if timestamps then
                let t := VTime (time_Now env w) in
                (<["updated_at"%string := t]>
                   (<["created_at"%string := t]> m), tick w)
              else (m, w) in
            let '(r, w) := Create_insert c (Some m) w in
            (r, w, Some m, caller)
        end
    end.

(** [Update] once the payload is stamped and the filter rewritten. *)
Definition Update_exec (c : Connection T) (filters : GroupFilter)
    (data : gmap string value) : M T :=
  let '(setParts, vals, items) := set_parts (map_range env data) 1 in
  let query :=
    "UPDATE " +:+ Table c +:+ " SET " +:+ strings_Join setParts ", " in
  do '(allFilters, allVals, _) <- prepareFilters_logged filters items ;;
  let '(query, vals) :=
    if negb (String.eqb allFilters "")
    then (query +:+ " WHERE " +:+ allFilters, vals ++ allVals)
    else (query, vals) in
  run sql_debug env query "SQL Values:" vals ;;
  do _ <-
    on_error
      (fun err =>
         if errors_Is_ErrNoRows err then ErrNoDocumentsFound else err)
      (db_ExecContext env (Conn c) query vals) ;;
  GetOne_result env c filters None.

(** [Connection.Update]: besides its result and the world, the payload
    map of the caller as the call leaves it. *)
Definition Update (c : Connection T) (filters : GroupFilter) (data : gomap)
  : world -> outcome T * world * gomap :=
  fun w =>
    let filters := rewritten c filters in
    let data := gomap_delete "created_at" (gomap_delete "id" data) in
    let t := VTime (time_Now env w) in
    let w := tick w in
    match data with
    | None => (Panic nil_map_write, w, data)
    | Some m =>
        let m := <["updated_at"%string := t]> m in
        let '(r, w) := Update_exec c filters m w in
        (r, w, Some m)
    end.

(** [Connection.Delete]. *)
Definition Delete (c : Connection T) (filters : GroupFilter) : M unit :=
  if soft_deletes c then
    fun w =>
      let t := VTime (time_Now env w) in
      let w := tick w in
      match Update c filters (Some {["deleted_at"%string := t]}) w with
      | (Panic msg, w, _) => (Panic msg, w)
      | (_, w, _) => (Ok tt, w)
      end
  else
    let query := "DELETE FROM " +:+ Table c in
    do '(allFilters, allVals, _) <- prepareFilters_logged filters 1 ;;
    let query :=
      if negb (String.eqb allFilters "")
      then query +:+ " WHERE " +:+ allFilters
      else query in
    run sql_debug env query "SQL Values:" allVals ;;
    do result <- db_ExecContext env (Conn c) query allVals ;;
    match result with
    | inl err => throw err
    | inr numRows =>
        if numRows =? 0 then throw ErrNoDocumentsFound else ret tt
    end.

(** [Connection.Count]. *)
Definition Count (c : Connection T) (filters : GroupFilter) : M Z :=
  let filters := rewritten c filters in
  let query := "SELECT COUNT(*) FROM " +:+ Table c in
  do '(allFilters, allVals, _) <- prepareFilters_logged filters 1 ;;
  let '(query, args) :=
    if negb (String.eqb allFilters "")
    then (query +:+ " WHERE " +:+ allFilters, allVals)
    else (query, []) in
  run sql_debug env query "SQL Args:" args ;;
  do row <- db_QueryRowContext env (Conn c) query args ;;
  match row with
  | inl err => throw err
  | inr [VInt count] => ret count
  | inr _ => throw (ErrDriver "sql: Scan error")
  end.
End Writes.

(** ** The rest of the repository: construction, accessors, [CreateMany] *)

(** [NewConnection].  [registry connName] is what
    [godb.GetConnection(connName)] and the adapter's [GetConnection()]
    answer together: the error of the registry, or the adapter's
    connection, [Some] when it is a [*sql.DB]. *)
Definition NewConnection {T} (registry : string -> error + option DB)
    (connName table : string) (orderColumns : list string)
    (softDelete : option string)
    (relationer : option (gmap string (RelationLoader T)))
  : outcome (Connection T) :=
  match registry connName with
  | inl err => Err err
  | inr None => Err (Errorf "failed to assert connection to *sql.DB")
  | inr (Some rawConn) =>
      let orderColsMap :=
        fold_left (fun (m : gmap string string) col => <[col := ""%string]> m)
          orderColumns ∅ in
      Ok {| Conn := rawConn; Table := table; OrderColumns := orderColsMap;
            SoftDelete := softDelete; RelationLoaders := relationer |}
  end.

(** [Connection.GetTableName], [GetOrderColumns], [GetConnection]. *)
Definition GetTableName {T} (c : Connection T) : string := Table c.

Definition GetOrderColumns {T} (c : Connection T) : gmap string string :=
  OrderColumns c.

Definition GetConnection {T} (c : Connection T) : DB := Conn c.

(** [Connection.AddRelation]: its result and the connection as the call
    leaves it (the receiver is a pointer). *)
Definition AddRelation {T} (c : Connection T) (relation : string)
    (loader : RelationLoader T) : outcome unit * Connection T :=
  let loaders :=
    match RelationLoaders c with
    | Some loaders => loaders
    | None => ∅                       (* make(map[string]RelationLoader) *)
    end in
  match loaders !! relation with
  | Some _ =>
      (Err (Errorf ("relation loader already exists for relation: "
                    +:+ relation)),
       {| Conn := Conn c; Table := Table c; OrderColumns := OrderColumns c;
          SoftDelete := SoftDelete c; RelationLoaders := Some loaders |})
  | None =>
      (Ok tt,
       {| Conn := Conn c; Table := Table c; OrderColumns := OrderColumns c;
          SoftDelete := SoftDelete c;
          RelationLoaders := Some (<[relation := loader]> loaders) |})
  end.

(** The order in which the loops of one call visit a map: Go fixes no
    order and draws a new one for every [range], so the [i]-th loop of a
    call has an order of its own, each a permutation of the entries. *)
Record range_orders := {
  range_nth : nat -> gmap string value -> list (string * value);
  range_nth_perm : forall i m, range_nth i m ≡ₚ map_to_list m
}.

(** [range m] in the [i]-th loop; a nil map has no entries. *)
Definition gomap_range (orders : range_orders) (i : nat) (m : gomap)
  : list (string * value) :=
  match m with
  | Some entries => range_nth orders i entries
  | None => []
  end.

(** The inner loop [for _, k := range tmpItem] of [CreateMany]. *)
Fixpoint row_values (entries : list (string * value)) (values : list value)
    (placeholders : list string) (totalItems : Z)
  : list value * list string * Z :=
  match entries with
  | [] => (values, placeholders, totalItems)
  | (_, k) :: rest =>
      row_values rest (values ++ [k])
        (placeholders ++ ["$" +:+ fmt_d totalItems]) (int_add totalItems 1)
  end.

(** The loop [for indexData, tmpItem := range dataList] of [CreateMany]:
    the text written so far, the values, and the counter. *)
Fixpoint rows_values (orders : range_orders) (dataList : list gomap)
    (indexData : nat) (query : string) (values : list value) (totalItems : Z)
  : string * list value * Z :=
  match dataList with
  | [] => (query, values, totalItems)
  | tmpItem :: rest =>
      let query := if (0 <? indexData)%nat then query +:+ ", " else query in
      let '(values, placeholders, totalItems) :=
        row_values (gomap_range orders (S indexData) tmpItem) values []
          totalItems in
      let query := query +:+ "(" +:+ strings_Join placeholders ", " +:+ ")" in
      rows_values orders rest (S indexData) query values totalItems
  end.

Section Many.
Variable env : environment.
Variable orders : range_orders.
Context {T : Type} `{!Model T}.

(** [Connection.CreateMany].  The first loop of the call is the one over
    [dataList[0]] that collects the columns; the loop over the [i]-th map
    for its values is loop [i + 1]. *)
Definition CreateMany (c : Connection T) (dataList : list gomap)
    (opts : option Options) : M (list T) :=
  match dataList with
  | [] => ret []
  | data :: _ =>
      let columns := map fst (gomap_range orders 0 data) in
      let query :=
        "INSERT INTO " +:+ Table c +:+ " (" +:+ strings_Join columns ", "
        +:+ ") VALUES " in
      let '(query, values, _) := rows_values orders dataList 0 query [] 1 in
      let queryStr := query +:+ " RETURNING *" in
      run sql_debug env queryStr "SQL Values:" values ;;
      do result <- db_QueryContext env (Conn c) queryStr values ;;
      for_each (fun row => scanRow (inr row)) (rows result)
  end.
End Many.

(** ** The Postgres adapter (package [connection]) *)

Module connection.

(** Modelled from its use: [config.Config] of the [godb] definitions,
    which is not part of this repository, with the fields [SetConf]
    reads. *)
Record Config := {
  Host : string;
  Port : Z;
  User : string;
  Password : string;
  Database : string
}.

(** A value of the field [Conn] (of static type [any]) that is not nil: a
    [*sql.DB], or a value of another type, which may be an [io.Closer]
    (what its [Close] answers is [closer]). *)
Inductive conn :=
| SqlDB (db : DB)
| Foreign (type_name : string) (closer : option (option error)).

(** [PostgresAdapter], with the fields [Dsn] and [Conn] of the embedded
    [*adapter.Config]; the mutex only serialises [Connect]. *)
Record PostgresAdapter := {
  Name : string;
  Dsn : string;
  Conn : option conn
}.

(** What the adapter does outside itself: the data sources it opened,
    the handles it pinged and closed, and its log. *)
Record driver := {
  opened : list string;
  pinged : list DB;
  closed : list DB;
  log : list string
}.

(** [database/sql] and the server behind it: any function of what
    happened so far. *)
Record sql_package := {
  sql_Open : driver -> string -> error + DB;
  DB_Ping : driver -> DB -> option error;
  DB_Close : driver -> DB -> option error
}.

(** [NewConnection()]; its error is always nil. *)
Definition NewConnection : PostgresAdapter :=
  {| Name := ""; Dsn := ""; Conn := None |}.

(** [p.SetConf(name, conf)]: the error, always nil, and the adapter as
    the call leaves it. *)
Definition SetConf (p : PostgresAdapter) (name : string) (conf : Config)
  : option error * PostgresAdapter :=
  let dsn :=
    "host=" +:+ Host conf +:+ " port=" +:+ fmt_d (Port conf)
    +:+ " user=" +:+ User conf +:+ " password=" +:+ Password conf
    +:+ " dbname=" +:+ Database conf +:+ " sslmode=disable" in
  (None, {| Name := name; Dsn := dsn; Conn := Conn p |}).

Section Adapter.
Variable sql : sql_package.

(** [p.Connect()]. *)
Definition Connect (p : PostgresAdapter) (w : driver)
  : outcome unit * PostgresAdapter * driver :=
  match Conn p with
  | Some _ => (Ok tt, p, w)
  | None =>
      if String.eqb (Dsn p) "" then (Err (Errorf "DSN is not set"), p, w)
      else
        let w1 :=
          {| opened := opened w ++ [Dsn p]; pinged := pinged w;
             closed := closed w; log := log w |} in
        match sql_Open sql w (Dsn p) with
        | inl connErr =>
            (Err (Errorw "error opening database connection: " connErr),
             p, w1)
        | inr conn =>
            let w2 :=
              {| opened := opened w1; pinged := pinged w1 ++ [conn];
                 closed := closed w1; log := log w1 |} in
            match DB_Ping sql w1 conn with
            | Some err =>
                (Err (Errorw "failed to ping database: " err), p, w2)
            | None =>
                (Ok tt,
                 {| Name := Name p; Dsn := Dsn p;
                    Conn := Some (SqlDB conn) |},
                 {| opened := opened w2; pinged := pinged w2;
                    closed := closed w2;
                    log :=
                      log w2
                      ++ ["Connecting to Postgres database for '"
                          +:+ Name p +:+ "'"] |})
            end
        end
  end.

(** [p.GetConnection()]. *)
Definition GetConnection (p : PostgresAdapter) : option conn := Conn p.

(** [p.Close()]; the adapter itself is not written. *)
Definition Close (p : PostgresAdapter) (w : driver) : outcome unit * driver :=
  let answer (r : option error) : outcome unit :=
    match r with
    | Some err => Err err
    | None => Ok tt
    end in
  match Conn p with
  | Some (SqlDB db) =>
      (answer (DB_Close sql w db),
       {| opened := opened w; pinged := pinged w;
          closed := closed w ++ [db]; log := log w |})
  | Some (Foreign _ (Some r)) => (answer r, w)
  | Some (Foreign _ None) => (Ok tt, w)
  | None => (Ok tt, w)
  end.

(** [p.Ping()]; the type assertion on a value that is not a [*sql.DB]
    panics. *)
Definition Ping (p : PostgresAdapter) (w : driver) : outcome unit * driver :=
  match Conn p with
  | None => (Err (Errorf "no active database connection"), w)
  | Some (SqlDB db) =>
      (match DB_Ping sql w db with
       | Some err => Err err
       | None => Ok tt
       end,
       {| opened := opened w; pinged := pinged w ++ [db];
          closed := closed w; log := log w |})
  | Some (Foreign type_name _) =>
      (Panic ("interface conversion: interface {} is " +:+ type_name
              +:+ ", not *sql.DB"), w)
  end.
End Adapter.

End connection.

(** * Definitions used to state the properties *)

(** ** The loop of the compiler *)

Abbreviation step := (prepareFilters_step prepareFilters_run).

Definition start (n : Z) : compiler :=
  {| queryBuilder := []; vals := []; counter := n; logged := [] |}.

(** An empty fragment carries no argument. *)
Definition args_need_text (st : compiler) : Prop :=
  Builder_Len (queryBuilder st) = 0%nat -> vals st = [].

(** The state [st] with the lines [lines] in its log. *)
Definition relog (lines : list string) (st : compiler) : compiler :=
  {| queryBuilder := queryBuilder st; vals := vals st;
     counter := counter st; logged := lines |}.

(** ** Dense placeholder sequences *)

(** [n, n+1, ..., n+k-1]. *)
Definition dense (n : Z) (k : nat) : list Z :=
  map (fun i => n + Z.of_nat i) (seq 0 k).

(** The placeholders written so far are [n, n+1, ...], one per argument,
    and the counter is the next index. *)
Definition dense_from (n : Z) (st : compiler) : Prop :=
  placeholders (queryBuilder st) = dense n (length (vals st))
  /\ counter st = n + Z.of_nat (length (vals st)).

(** A tree with a single-value filter, a multi-value filter and a nested
    group. *)
Definition nested_example : GroupFilter :=
  Build_GroupFilter
    [single "id" None (VInt 2);
     AnyMultiple {| Multi_Key := "kind"; Multi_Values := [VInt 1; VInt 2];
                    Multi_Comparator := None |};
     AnyGroup (Build_GroupFilter
       [single "expires_at" (Some ComparatorIsNull) VNil;
        single "expires_at" (Some ComparatorGreaterThan) (VTime 7)]
       OperatorOr)] "".

(** ** Placeholders in the text *)

(** The number of [$] characters in a text. *)
Fixpoint count_dollar (s : string) : nat :=
  match s with
  | EmptyString => 0%nat
  | String c rest =>
      ((if Ascii.eqb c "$" then 1 else 0) + count_dollar rest)%nat
  end.

(** What a filter contributes to the text besides placeholders has no
    [$]: its key and its comparator. *)
Definition plain_member (plain_group : GroupFilter -> Prop) (x : FilterAny)
  : Prop :=
  match x with
  | AnyFilter f =>
      count_dollar (Filter_Key f) = 0%nat
      /\ count_dollar (default "="%string (Filter_Comparator f)) = 0%nat
  | AnyMultiple mf =>
      count_dollar (Multi_Key mf) = 0%nat
      /\ count_dollar (default "IN"%string (Multi_Comparator mf)) = 0%nat
  | AnyGroup g => plain_group g
  | AnyOther _ => True
  end.

(** No key, comparator or operator of the tree contains a [$]. *)
Fixpoint plain_text (g : GroupFilter) : Prop :=
  match g with
  | Build_GroupFilter fs op =>
      count_dollar op = 0%nat
      /\ (fix members (l : list FilterAny) : Prop :=
            match l with
            | [] => True
            | x :: rest => plain_member plain_text x /\ members rest
            end) fs
  end.

(** The text of the builder has one [$] per argument. *)
Definition dollar_per_argument (st : compiler) : Prop :=
  count_dollar (Builder_String (queryBuilder st)) = length (vals st).

(** ** The soft-delete rewrite, compiled *)

(** The group [prepareSoftDelete] builds for the column [d]. *)
Definition tombstone (d : string) : GroupFilter :=
  Build_GroupFilter
    [AnyFilter {| Filter_Key := d; Filter_Value := VNil;
                  Filter_Comparator := Some FilterSqlComparatorIsNull;
                  Filter_Operator := Some "OR"%string |}]
    "OR".

Definition active_users : GroupFilter :=
  Build_GroupFilter [single "status" None (VString "active")] "".

(** C2 as the specification words it: the fragment of the incoming group
    and the tombstone test, joined by [OR] (with or without parentheses
    around the former). *)
Definition joined_by_OR (d : string) (filters : GroupFilter) (n : Z) : Prop :=
  let '(fragment, _, _) := prepareFilters filters n in
  let '(rewritten, _, _) :=
    prepareFilters (prepareSoftDelete (Some d) filters) n in
  rewritten = "(" +:+ fragment +:+ ") OR (" +:+ d +:+ " IS NULL)"
  \/ rewritten = fragment +:+ " OR (" +:+ d +:+ " IS NULL)".

(** ** Segments of a foreign key *)

(** What [prepareForeignKey] does to one segment. *)
Definition capitalize (up : string -> string) (segment : string) : string :=
  match segment with
  | EmptyString => ""
  | String first tail => strings_ToUpper up (String first "") +:+ tail
  end.

Fixpoint concat_strings (l : list string) : string :=
  match l with
  | [] => ""
  | s :: rest => s +:+ concat_strings rest
  end.

(** ** What a computation issues *)

(** [m] never panics, and every statement it issues satisfies [allowed]. *)
Definition issues_only {A} (allowed : statement -> Prop) (m : M A) : Prop :=
  forall w,
    (forall msg, fst (m w) <> Panic msg)
    /\ exists new, issued (snd (m w)) = issued w ++ new /\ Forall allowed new.

(** Statements by their leading keyword. *)
Definition is_select (s : statement) : Prop :=
  String.prefix "SELECT " (sql_text s) = true.

Definition is_update (s : statement) : Prop :=
  String.prefix "UPDATE " (sql_text s) = true.

Definition is_delete (s : statement) : Prop :=
  String.prefix "DELETE" (sql_text s) = true.

(** A loader that, given no parents, returns at once and leaves the world
    as it is. *)
Definition returns_on_no_parents {P} (loader : RelationLoader P) : Prop :=
  forall childs w, loader [] childs w = (Ok [], w).

(** The payload of [Create] as the call leaves it, given the UUID and
    the time it read. *)
Definition stamped (opts : option Options) (newUuid : string) (t : Z)
    (m : gmap string value) : gmap string value :=
  let o := default Options_zero opts in
  let m :=
    if default true (InsertPrimaryKey o)
    then <[default "id"%string (PrimaryKey o) := VString newUuid]> m
    else m in
  if default true (TimestampsFields o)
  then <["updated_at"%string := VTime t]>
         (<["created_at"%string := VTime t]> m)
  else m.

(** [Create] leaves the options of its caller as it found them. *)
Definition Create_leaves_the_options {T} `{!Model T} (env : environment)
    (c : Connection T) (data : gomap) (o : Options) (w : world) : Prop :=
  snd (Create env c data (Some o) w) = Some o.

(** ** A small database to run the driver on *)

(** An entity with named scalar fields and named containers of related
    entities. *)
#[local] Unset Elimination Schemes.
Inductive entity :=
| Entity (fields : list (string * value)) (related : list (string * list entity)).
#[local] Set Elimination Schemes.

Fixpoint assoc {A} (name : string) (l : list (string * A)) : option A :=
  match l with
  | [] => None
  | (k, v) :: rest => if String.eqb k name then Some v else assoc name rest
  end.

Fixpoint assoc_set {A} (name : string) (v : A) (l : list (string * A))
  : list (string * A) :=
  match l with
  | [] => [(name, v)]
  | (k, v0) :: rest =>
      if String.eqb k name then (k, v) :: rest
      else (k, v0) :: assoc_set name v rest
  end.

(** Rows of three columns scan into the fields [Id], [OwnerId], [Name]. *)
#[global] Instance entity_Model : Model entity := {|
  ScanFields_Scan row :=
    match row with
    | [_; _; _] => inr (Entity (combine ["Id"; "OwnerId"; "Name"]%string row) [])
    | _ => inl (ErrDriver "sql: expected 3 destination arguments in Scan")
    end;
  FieldByName e name := match e with Entity fields _ => assoc name fields end
|}.

#[global] Instance entity_Container : Container entity entity := {|
  container_Append name parent child :=
    match parent with
    | Entity fields related =>
        Ok (Entity fields
              (assoc_set name (default [] (assoc name related) ++ [child])
                 related))
    end;
  container_Set name parent child :=
    match parent with
    | Entity fields related => Ok (Entity fields (assoc_set name [child] related))
    end;
  container_SetSlice name parent children :=
    match parent with
    | Entity fields related => Ok (Entity fields (assoc_set name children related))
    end
|}.

(** A database that answers every query on a table with one row, every
    pivot query with one pair, every count with 1, and every exec with one
    row affected. *)
Definition one_row (s : statement) : list (list value) :=
  if String.prefix "SELECT user_id, role_id" (sql_text s)
  then [[VInt 7; VInt 7]]
  else [[VInt 7; VInt 7; VString "n"]].

Definition one_row_env : environment := {|
  QueryContext _ s := inr {| rows := one_row s; rows_Err := None |};
  QueryRowContext _ s :=
    if String.prefix "SELECT COUNT" (sql_text s) then inr [VInt 1]
    else inr [VInt 7; VInt 7; VString "n"];
  ExecContext _ _ := inr (inr 1);
  time_Now w := 1000 + Z.of_nat (clock_reads w);
  uuid_NewV7 _ := inr "0190163d-8694-739b-aea5-966c26f8ad91"%string;
  SQL_DEBUG := false;
  unicode_upper s := s;
  time_String := fmt_d;
  map_range := map_to_list;
  map_range_perm m := reflexivity (map_to_list m)
|}.

(** The same database with no rows in any table. *)
Definition no_rows_env : environment := {|
  QueryContext _ _ := inr {| rows := []; rows_Err := None |};
  QueryRowContext _ _ := inl ErrNoRows;
  ExecContext _ _ := inr (inr 0);
  time_Now := time_Now one_row_env;
  uuid_NewV7 := uuid_NewV7 one_row_env;
  SQL_DEBUG := false;
  unicode_upper := unicode_upper one_row_env;
  time_String := fmt_d;
  map_range := map_to_list;
  map_range_perm m := reflexivity (map_to_list m)
|}.

Definition empty_world : world :=
  {| issued := []; log_output := []; clock_reads := 0 |}.

Section Schema.
Variable env : environment.

(** The repositories of the README's example:
    sessions -1:1-> user -N:M-> roles -1:N-> permissions. *)
Definition permissions_repo : Connection entity :=
  {| Conn := 0%nat; Table := "permissions";
     OrderColumns := {["id"%string := ""%string]};
     SoftDelete := None; RelationLoaders := None |}.

Definition roles_repo : Connection entity :=
  {| Conn := 0%nat; Table := "roles";
     OrderColumns := {["id"%string := ""%string]};
     SoftDelete := None;
     RelationLoaders :=
       Some {["permissions"%string :=
                OnetoManyLoader_Load env
                  {| OnetoMany_Repository := as_Repository env permissions_repo;
                     OnetoMany_ParentField := "Id";
                     OnetoMany_ChildFkField := "owner_id";
                     OnetoMany_ContainerField := "Permissions" |}]} |}.

Definition users_repo : Connection entity :=
  {| Conn := 0%nat; Table := "users";
     OrderColumns := {["id"%string := ""%string]};
     SoftDelete := Some "deleted_at"%string;
     RelationLoaders :=
       Some {["roles"%string :=
                ManyToManyLoader_Load env
                  {| ManyToMany_Repository := as_Repository env roles_repo;
                     ManyToMany_Connection := Some 0%nat;
                     ManyToMany_ParentKey := "Id";
                     ManyToMany_ChildKey := "Id";
                     ManyToMany_PivoteParentKey := "user_id";
                     ManyToMany_PivoteChildKey := "role_id";
                     ManyToMany_PivoteTable := "roles_users";
                     ManyToMany_ContainerField := "Roles" |}]} |}.

Definition sessions_repo : Connection entity :=
  {| Conn := 0%nat; Table := "sessions";
     OrderColumns := {["id"%string := ""%string]};
     SoftDelete := None;
     RelationLoaders :=
       Some {["user"%string :=
                OnetoOneLoader_Load
                  {| OnetoOne_Repository := as_Repository env users_repo;
                     OnetoOne_ParentField := "OwnerId";
                     OnetoOne_ChildFkField := "id";
                     OnetoOne_ContainerField := "User" |}]} |}.
End Schema.

Definition with_relations (relations : list string) : Options :=
  set_Relations relations Options_zero.

Definition by_id : GroupFilter :=
  Build_GroupFilter [single "id" None (VInt 7)] "".

Definition order_by (column : string) : Options :=
  {| Columns := None; Limit := 0; Offset := 0; OrderColumn := column;
     OrderDir := "desc"; Relations := []; PrimaryKey := None;
     InsertPrimaryKey := None; TimestampsFields := None |}.

(** A database whose every exec fails. *)
Definition failing_env : environment := {|
  QueryContext := QueryContext one_row_env;
  QueryRowContext := QueryRowContext one_row_env;
  ExecContext _ _ := inl (ErrDriver "pq: connection refused");
  time_Now := time_Now one_row_env;
  uuid_NewV7 := uuid_NewV7 one_row_env;
  SQL_DEBUG := false;
  unicode_upper := unicode_upper one_row_env;
  time_String := fmt_d;
  map_range := map_to_list;
  map_range_perm m := reflexivity (map_to_list m)
|}.

(** ** Induction over filter trees *)

Section GroupFilterInduction.
Variable P : GroupFilter -> Prop.
Hypothesis step :
  forall fs op,
    (forall g, In (AnyGroup g) fs -> P g) -> P (Build_GroupFilter fs op).

Fixpoint GroupFilter_nested_ind (g : GroupFilter) : P g :=
  match g with
  | Build_GroupFilter fs op =>
      step fs op
        ((fix members (l : list FilterAny)
            : forall g', In (AnyGroup g') l -> P g' :=
            match l with
            | [] => fun g' (H : In (AnyGroup g') []) => match H with end
            | x :: rest =>
                fun g' (H : In (AnyGroup g') (x :: rest)) =>
                  match H with
                  | or_introl E =>
                      match x return x = AnyGroup g' -> P g' with
                      | AnyGroup g0 =>
                          fun E0 =>
                            eq_ind g0 P (GroupFilter_nested_ind g0) g'
                              (f_equal
                                 (fun y => match y with
                                           | AnyGroup h => h
                                           | _ => g0
                                           end) E0)
                      | _ => fun E0 => ltac:(discriminate E0)
                      end E
                  | or_intror H' => members rest g' H'
                  end
            end) fs)
  end.
End GroupFilterInduction.

(** ** The arguments of a tree, read off the tree *)

(** The values a member of a group binds: the value of a single-value
    filter whose comparator takes one, the values of a multi-value filter
    with a set comparator, those of a nested group. *)
Definition member_args (group_args : GroupFilter -> list value) (x : FilterAny)
  : list value :=
  match x with
  | AnyFilter f =>
      let comparator := default "="%string (Filter_Comparator f) in
      if negb (String.eqb comparator ComparatorIsNull)
         && negb (String.eqb comparator ComparatorIsNotNull)
         && negb (String.eqb comparator ComparatorIn)
         && negb (String.eqb comparator ComparatorNotIn)
      then [Filter_Value f] else []
  | AnyMultiple mf =>
      let comparator := default "IN"%string (Multi_Comparator mf) in
      if String.eqb comparator ComparatorIn
         || String.eqb comparator ComparatorNotIn
      then Multi_Values mf else []
  | AnyGroup g => group_args g
  | AnyOther _ => []
  end.

(** The values of a tree, left to right. *)
Fixpoint tree_args (g : GroupFilter) : list value :=
  match g with
  | Build_GroupFilter fs _ =>
      (fix members (l : list FilterAny) : list value :=
         match l with
         | [] => []
         | x :: rest => member_args tree_args x ++ members rest
         end) fs
  end.

(** The members [prepareFilters] passes over without a word: a value of
    a type it does not know, and a multi-value filter whose comparator is
    not a set comparator. *)
Definition passed_over (x : FilterAny) : bool :=
  match x with
  | AnyOther _ => true
  | AnyMultiple mf =>
      let comparator := default "IN"%string (Multi_Comparator mf) in
      negb (String.eqb comparator ComparatorIn
            || String.eqb comparator ComparatorNotIn)
  | _ => false
  end.

(** ** Fragments joined by the operator of their group *)

(** Two fragments of one group, joined as the loop joins them: by the
    operator ([AND] when the group has none) when both are there. *)
Definition glue (operator a b : string) : string :=
  if String.eqb b "" then a
  else if String.eqb a "" then b
  else a +:+ " " +:+ (if String.eqb operator "" then OperatorAnd else operator)
       +:+ " " +:+ b.

(** The loop state [st'] is [st] followed by what the loop did from a
    fresh builder, [r]. *)
Definition continues (operator : string) (st r st' : compiler) : Prop :=
  Builder_String (queryBuilder st')
  = glue operator (Builder_String (queryBuilder st))
      (Builder_String (queryBuilder r))
  /\ vals st' = vals st ++ vals r
  /\ counter st' = counter r
  /\ logged st' = logged st ++ logged r.

(** ** The rows a WHERE clause selects *)

(** The fragment [prepareFilters] returns is text for the database.  What
    follows reads it as SQL does, on the tree it was compiled from: a
    member that compiles to nothing is not in the clause; [key IS NULL]
    and [key IS NOT NULL] test the cell; the members of a group are
    joined from left to right by the operator of the group, [AND] when it
    has none, in SQL's three-valued logic; a nested group is in
    parentheses.  Keys are taken for column names.  What the database
    makes of any other comparator, and of an operator other than [AND]
    and [OR], is left open. *)

(** A row of the table: the value in each column, NULL as [VNil]. *)
Definition row := string -> value.

(** SQL's truth values. *)
Inductive truth := TRUE | FALSE | UNKNOWN.

Definition sql_and (a b : truth) : truth :=
  match a, b with
  | FALSE, _ | _, FALSE => FALSE
  | TRUE, TRUE => TRUE
  | _, _ => UNKNOWN
  end.

Definition sql_or (a b : truth) : truth :=
  match a, b with
  | TRUE, _ | _, TRUE => TRUE
  | FALSE, FALSE => FALSE
  | _, _ => UNKNOWN
  end.

Definition is_null (v : value) : truth :=
  match v with VNil => TRUE | _ => FALSE end.

Definition is_not_null (v : value) : truth :=
  match v with VNil => FALSE | _ => TRUE end.

(** What the database makes of [key comparator arguments] on a row, and
    of two conditions joined by an operator of its own. *)
Record dialect := {
  compares : string -> string -> list value -> row -> truth;
  connects : string -> truth -> truth -> truth
}.

Section Where.
Variable sql : dialect.
Variable r : row.

(** Two conditions of one group. *)
Definition joined (operator : string) (a b : truth) : truth :=
  if String.eqb operator "" || String.eqb operator OperatorAnd
  then sql_and a b
  else if String.eqb operator OperatorOr then sql_or a b
  else connects sql operator a b.

Section WhereMember.
(** The reading of a nested group. *)
Variable recur : GroupFilter -> option truth.

(** The condition a member of a group compiles to, if any. *)
Definition where_member (tmpFilter : FilterAny) : option truth :=
  match tmpFilter with
  | AnyFilter filter =>
      let comparator := default "="%string (Filter_Comparator filter) in
      if String.eqb comparator ComparatorIsNull
      then Some (is_null (r (Filter_Key filter)))
      else if String.eqb comparator ComparatorIsNotNull
      then Some (is_not_null (r (Filter_Key filter)))
      else if String.eqb comparator ComparatorIn
              || String.eqb comparator ComparatorNotIn
      then None
      else Some (compares sql (Filter_Key filter) comparator
                   [Filter_Value filter] r)
  | AnyMultiple multiFilter =>
      let comparator := default "IN"%string (Multi_Comparator multiFilter) in
      if String.eqb comparator ComparatorIn
         || String.eqb comparator ComparatorNotIn
      then Some (compares sql (Multi_Key multiFilter) comparator
                   (Multi_Values multiFilter) r)
      else None
  | AnyGroup groupFilter => recur groupFilter
  | AnyOther _ => None
  end.

(** The clause so far, followed by one more member. *)
Definition where_step (operator : string) (sofar : option truth)
    (tmpFilter : FilterAny) : option truth :=
  match where_member tmpFilter, sofar with
  | None, _ => sofar
  | Some condition, None => Some condition
  | Some condition, Some before => Some (joined operator before condition)
  end.
End WhereMember.

(** The condition a group compiles to; [None] when it compiles to the
    empty fragment. *)
Fixpoint where_reading (filters : GroupFilter) {struct filters}
  : option truth :=
  match filters with
  | Build_GroupFilter fs operator =>
      fold_left (where_step where_reading operator) fs None
  end.

(** The rows a statement with the compiled filter as its WHERE clause
    addresses: every row when there is no clause, else those on which the
    clause is true. *)
Definition selects (filters : GroupFilter) : bool :=
  match where_reading filters with
  | None => true
  | Some TRUE => true
  | Some _ => false
  end.
End Where.

(** A row that is soft-deleted already. *)
Definition tombstoned {T} (c : Connection T) (r : row) : Prop :=
  match SoftDelete c with
  | Some column => r column <> VNil
  | None => False
  end.

(** The UPDATE of a soft [Delete] addresses no row that is soft-deleted
    already: running [Delete] again changes nothing. *)
Definition Delete_again_changes_nothing {T} `{!Model T} (sql : dialect)
    (c : Connection T) (filters : GroupFilter) : Prop :=
  forall r, tombstoned c r -> selects sql r (rewritten c filters) = false.

(** A database that knows [=] on values that are not NULL. *)
Definition equality : dialect :=
  {| compares key comparator arguments r :=
       match arguments with
       | [v] =>
           if String.eqb comparator "=" then
             match r key, v with
             | VNil, _ | _, VNil => UNKNOWN
             | cell, _ => if same_key cell v then TRUE else FALSE
             end
           else UNKNOWN
       | _ => UNKNOWN
       end;
     connects _ _ _ := UNKNOWN |}.

(** The filter [id = 7] in a group whose operator is [OR]. *)
Definition either_id : GroupFilter :=
  Build_GroupFilter [single "id" None (VInt 7)] "OR".

(** The user 7, soft-deleted at 1000. *)
Definition deleted_user : row :=
  fun column =>
    if String.eqb column "id" then VInt 7
    else if String.eqb column "deleted_at" then VTime 1000
    else VNil.

(** ** The relation loaders, read off the data *)

(** The field [name] of every model, when they all have it. *)
Fixpoint fields_of {A} `{!Model A} (name : string) (models : list A)
  : option (list value) :=
  match models with
  | [] => Some []
  | model :: rest =>
      match FieldByName model name, fields_of name rest with
      | Some v, Some vs => Some (v :: vs)
      | _, _ => None
      end
  end.

(** The parent after [container_Append], or as it was when the
    reflective code fails. *)
Definition appended {P C} `{!Container P C} (container : string) (parent : P)
    (child : C) : P :=
  match container_Append container parent child with
  | Ok parent' => parent'
  | _ => parent
  end.

(** Whether Go can compare values of the type of [v]. *)
Definition is_comparable (v : value) : bool :=
  match v with
  | VOther _ comparable _ _ => comparable
  | _ => true
  end.

(** The 1:N join: the parent with every child appended whose foreign
    key [==] the parent's key, in the order of the children. *)
Definition joined_children {P C} `{!Model P} `{!Model C} `{!Container P C}
    (parentField childField container : string) (children : list C)
    (parent : P) : P :=
  fold_left
    (fun parent child =>
       match FieldByName child childField, FieldByName parent parentField with
       | Some foreignKey, Some parentId =>
           if same_key foreignKey parentId
           then appended container parent child
           else parent
       | _, _ => parent
       end)
    children parent.

(** A repository that answers every [Get] with the same children. *)
Definition fixed_repo {C} (children : list C) : Repository C :=
  {| Repository_Get _ _ := ret children;
     Repository_GetOne _ _ :=
       match children with
       | child :: _ => ret child
       | [] => throw ErrNoDocumentsFound
       end |}.

Definition role (id : Z) : entity :=
  Entity [("Id"%string, VInt id); ("Name"%string, VString "role")] [].

Definition permission (id owner : Z) : entity :=
  Entity [("Id"%string, VInt id); ("OwnerId"%string, VInt owner)] [].

Definition permissions_of (children : list entity) (fk : string)
  : OnetoManyLoader entity :=
  {| OnetoMany_Repository := fixed_repo children;
     OnetoMany_ParentField := "Id";
     OnetoMany_ChildFkField := fk;
     OnetoMany_ContainerField := "Permissions" |}.

Definition pivot_without_handle : ManyToManyLoader entity :=
  {| ManyToMany_Repository := fixed_repo [];
     ManyToMany_Connection := None;
     ManyToMany_ParentKey := "Id";
     ManyToMany_ChildKey := "Id";
     ManyToMany_PivoteParentKey := "user_id";
     ManyToMany_PivoteChildKey := "role_id";
     ManyToMany_PivoteTable := "roles_users";
     ManyToMany_ContainerField := "Roles" |}.

(** A database whose pivot table is empty, every other table holding one
    row. *)
Definition empty_pivot_env : environment := {|
  QueryContext _ s :=
    inr {| rows :=
             if String.prefix "SELECT user_id, role_id" (sql_text s) then []
             else one_row s;
           rows_Err := None |};
  QueryRowContext := QueryRowContext one_row_env;
  ExecContext := ExecContext one_row_env;
  time_Now := time_Now one_row_env;
  uuid_NewV7 := uuid_NewV7 one_row_env;
  SQL_DEBUG := false;
  unicode_upper := unicode_upper one_row_env;
  time_String := fmt_d;
  map_range := map_to_list;
  map_range_perm m := reflexivity (map_to_list m)
|}.

(** The loader of a user's roles through the pivot table [roles_users],
    the roles read from the table [roles]. *)
Definition roles_through_pivot (env : environment) : ManyToManyLoader entity :=
  {| ManyToMany_Repository :=
       as_Repository env
         {| Conn := 0%nat; Table := "roles"; OrderColumns := ∅;
            SoftDelete := None; RelationLoaders := None |};
     ManyToMany_Connection := Some 0%nat;
     ManyToMany_ParentKey := "Id";
     ManyToMany_ChildKey := "Id";
     ManyToMany_PivoteParentKey := "user_id";
     ManyToMany_PivoteChildKey := "role_id";
     ManyToMany_PivoteTable := "roles_users";
     ManyToMany_ContainerField := "Roles" |}.

(** ** Orders of iteration, tuples and a registry *)

(** Every loop visits a map in the order of [map_to_list]. *)
Definition same_order : range_orders :=
  {| range_nth _ m := map_to_list m;
     range_nth_perm _ m := reflexivity (map_to_list m) |}.

(** The loop that collects the columns visits a map in the order of
    [map_to_list], the loops that collect values in the opposite order. *)
Definition other_order : range_orders :=
  {| range_nth i m :=
       match i with
       | O => map_to_list m
       | S _ => reverse (map_to_list m)
       end;
     range_nth_perm i m :=
       match i with
       | O => reflexivity (map_to_list m)
       | S _ => reverse_Permutation (map_to_list m)
       end |}.

(** The tuples of the VALUES clause for rows of the given widths, the
    placeholders numbered from [n]. *)
Fixpoint tuples (widths : list nat) (n : Z) : list string :=
  match widths with
  | [] => []
  | k :: rest =>
      ("(" +:+ strings_Join (map (fun i => "$" +:+ fmt_d i) (dense n k)) ", "
       +:+ ")") :: tuples rest (n + Z.of_nat k)
  end.

Definition gomap_size (m : gomap) : nat :=
  match m with
  | Some entries => size entries
  | None => 0
  end.

(** The arguments [CreateMany] collects for the maps [dataList], the
    first of them visited by loop [i + 1]. *)
Fixpoint rows_args (orders : range_orders) (i : nat) (dataList : list gomap)
  : list value :=
  match dataList with
  | [] => []
  | tmpItem :: rest =>
      map snd (gomap_range orders (S i) tmpItem) ++ rows_args orders (S i) rest
  end.

(** A registry with one [*sql.DB] under the name [main] and an adapter
    of another kind under [cache]. *)
Definition small_registry (connName : string) : error + option DB :=
  if String.eqb connName "main" then inr (Some 0%nat)
  else if String.eqb connName "cache" then inr None
  else inl (Errorf "connection not found").

(** ** Servers for the adapter *)

(** A server that accepts every connection, and one that opens but
    does not answer a ping. *)
Definition reachable : connection.sql_package :=
  {| connection.sql_Open w _ := inr (length (connection.opened w));
     connection.DB_Ping _ _ := None;
     connection.DB_Close _ _ := None |}.

Definition unreachable : connection.sql_package :=
  {| connection.sql_Open w _ := inr (length (connection.opened w));
     connection.DB_Ping _ _ := Some (ErrDriver "dial tcp: connection refused");
     connection.DB_Close _ _ := None |}.

Definition idle : connection.driver :=
  {| connection.opened := []; connection.pinged := [];
     connection.closed := []; connection.log := [] |}.

Definition local_conf : connection.Config :=
  {| connection.Host := "localhost"; connection.Port := 5432;
     connection.User := "app"; connection.Password := "secret";
     connection.Database := "shop" |}.

(** * Properties *)

(** ** The scenarios of the specification *)

Example scenario_status :
  prepareFilters
    (Build_GroupFilter [single "status" None (VString "active")] "") 1
  = ("status = $1"%string, [VString "active"], 2).
Proof. reflexivity. Qed.

Example scenario_in :
  prepareFilters
    (Build_GroupFilter
       [AnyMultiple {| Multi_Key := "id"; Multi_Values := [VInt 1; VInt 2; VInt 3];
                       Multi_Comparator := Some ComparatorIn |}] "") 1
  = ("id IN ($1, $2, $3)"%string, [VInt 1; VInt 2; VInt 3], 4).
Proof. reflexivity. Qed.

Example scenario_nested :
  prepareFilters
    (Build_GroupFilter
       [single "id" None (VInt 2);
        AnyGroup (Build_GroupFilter
          [single "expires_at" (Some ComparatorIsNull) VNil;
           single "expires_at" (Some ComparatorGreaterThan) (VTime 7)]
          OperatorOr)] "") 1
  = ("id = $1 AND (expires_at IS NULL OR expires_at > $2)"%string,
     [VInt 2; VTime 7], 3).
Proof. reflexivity. Qed.

Example prepareForeignKey_user_id up :
  prepareForeignKey up "user_id" = Ok "UserId"%string.
Proof. reflexivity. Qed.

(** ** Strings and builders *)

Lemma append_cons (x : ascii) (a b : string) :
  String x a +:+ b = String x (a +:+ b).
Proof. reflexivity. Qed.

Lemma append_empty_l (a : string) : "" +:+ a = a.
Proof. reflexivity. Qed.

Lemma append_assoc (a b c : string) : (a +:+ b) +:+ c = a +:+ (b +:+ c).
Proof.
  induction a as [|x a IH]; [reflexivity |].
  now rewrite !append_cons, IH.
Qed.

Lemma append_empty_r (a : string) : a +:+ "" = a.
Proof.
  induction a as [|x a IH]; [reflexivity |].
  now rewrite append_cons, IH.
Qed.

Lemma length_append (a b : string) :
  String.length (a +:+ b) = (String.length a + String.length b)%nat.
Proof.
  induction a as [|x a IH]; [reflexivity |].
  rewrite append_cons. simpl. now rewrite IH.
Qed.

Lemma append_eq_empty (a b : string) :
  a +:+ b = ""%string -> a = ""%string /\ b = ""%string.
Proof. destruct a; [now split | discriminate]. Qed.

Lemma eqb_empty_length (s : string) :
  negb (String.eqb s "") = (0 <? String.length s)%nat.
Proof. destruct s; reflexivity. Qed.

Lemma Builder_String_app (a b : Builder) :
  Builder_String (a ++ b) = Builder_String a +:+ Builder_String b.
Proof.
  induction a as [|p a IH]; [reflexivity |].
  change (piece_String p +:+ Builder_String (a ++ b)
          = (piece_String p +:+ Builder_String a) +:+ Builder_String b).
  now rewrite IH, append_assoc.
Qed.

Lemma Builder_Len_app (a b : Builder) :
  Builder_Len (a ++ b) = (Builder_Len a + Builder_Len b)%nat.
Proof. unfold Builder_Len. now rewrite Builder_String_app, length_append. Qed.

Lemma placeholders_app (a b : Builder) :
  placeholders (a ++ b) = placeholders a ++ placeholders b.
Proof.
  induction a as [|[s|i] a IH]; simpl; [reflexivity | exact IH |].
  now rewrite IH.
Qed.

Lemma Builder_Len_placeholder (i : Z) (b : Builder) :
  (0 < Builder_Len (Placeholder i :: b))%nat.
Proof.
  unfold Builder_Len.
  change (Builder_String (Placeholder i :: b))
    with (String "$" (fmt_d i +:+ Builder_String b)).
  simpl. lia.
Qed.

(** ** The loop of the compiler *)

Lemma prepareFilters_run_eq (fs : list FilterAny) (op : string) (n : Z) :
  prepareFilters_run (Build_GroupFilter fs op) n
  = fold_left (step op) fs (start (if n <=? 0 then 1 else n)).
Proof. reflexivity. Qed.

Lemma vals_emit op st parts cv c lines :
  vals (emit op st parts cv c lines)
  = if (0 <? Builder_Len parts)%nat then vals st ++ cv else vals st.
Proof. unfold emit. now destruct (0 <? Builder_Len parts)%nat. Qed.

Lemma counter_emit op st parts cv c lines :
  counter (emit op st parts cv c lines) = c.
Proof. unfold emit. now destruct (0 <? Builder_Len parts)%nat. Qed.

Lemma logged_emit op st parts cv c lines :
  logged (emit op st parts cv c lines) = logged st ++ lines.
Proof. unfold emit. now destruct (0 <? Builder_Len parts)%nat. Qed.

Lemma placeholders_emit op st parts cv c lines :
  placeholders (queryBuilder (emit op st parts cv c lines))
  = if (0 <? Builder_Len parts)%nat
    then placeholders (queryBuilder st) ++ placeholders parts
    else placeholders (queryBuilder st).
Proof.
  unfold emit. destruct (0 <? Builder_Len parts)%nat; [|reflexivity].
  cbn [queryBuilder]. rewrite placeholders_app.
  destruct (0 <? Builder_Len (queryBuilder st))%nat; [|reflexivity].
  rewrite placeholders_app. cbn [placeholders]. now rewrite app_nil_r.
Qed.

Lemma Len_emit op st parts cv c lines :
  (Builder_Len (queryBuilder st) + Builder_Len parts
   <= Builder_Len (queryBuilder (emit op st parts cv c lines)))%nat.
Proof.
  unfold emit. destruct (0 <? Builder_Len parts)%nat eqn:E.
  - cbn [queryBuilder]. rewrite Builder_Len_app.
    destruct (0 <? Builder_Len (queryBuilder st))%nat;
      [rewrite Builder_Len_app|]; lia.
  - apply Nat.ltb_ge in E. cbn [queryBuilder]. lia.
Qed.

Lemma args_need_text_emit op st parts cv c lines :
  args_need_text st -> args_need_text (emit op st parts cv c lines).
Proof.
  intros H E. pose proof (Len_emit op st parts cv c lines) as L.
  rewrite vals_emit.
  destruct (0 <? Builder_Len parts)%nat eqn:T.
  - apply Nat.ltb_lt in T. lia.
  - apply H. lia.
Qed.

Lemma args_need_text_step recur op st x :
  args_need_text st -> args_need_text (prepareFilters_step recur op st x).
Proof.
  intros H. destruct x as [f|mf|g|v]; cbn [prepareFilters_step].
  - repeat match goal with
           | |- context [if ?b then _ else _] => destruct b
           end; try (now apply args_need_text_emit); exact H.
  - destruct (_ || _).
    + destruct (multi_values _ _ _ _ _) as [[parts cv] c'].
      now apply args_need_text_emit.
    + now apply args_need_text_emit.
  - destruct (negb _); now apply args_need_text_emit.
  - now apply args_need_text_emit.
Qed.

Lemma fold_left_invariant {A B} (I : A -> Prop) (f : A -> B -> A) (l : list B) :
  (forall a b, I a -> I (f a b)) -> forall a, I a -> I (fold_left f l a).
Proof.
  intros Hf. induction l as [|b l IH]; intros a Ha; [exact Ha |].
  simpl. apply IH, Hf, Ha.
Qed.

Lemma args_need_text_run (g : GroupFilter) (n : Z) :
  args_need_text (prepareFilters_run g n).
Proof.
  destruct g as [fs op]. rewrite prepareFilters_run_eq.
  apply fold_left_invariant.
  - intros a b. apply args_need_text_step.
  - intros _. reflexivity.
Qed.

(** ** Dense placeholder sequences *)

Lemma dense_length n k : length (dense n k) = k.
Proof. unfold dense. now rewrite length_map, length_seq. Qed.

Lemma dense_shift n a b s :
  map (fun i => n + Z.of_nat i) (seq (a + s) b)
  = map (fun i => n + Z.of_nat a + Z.of_nat i) (seq s b).
Proof.
  induction b as [|b IH] in s |- *; [reflexivity |].
  cbn [seq map]. f_equal; [lia |].
  rewrite <- IH. now rewrite Nat.add_succ_r.
Qed.

Lemma dense_app n a b :
  dense n (a + b) = dense n a ++ dense (n + Z.of_nat a) b.
Proof.
  unfold dense. rewrite seq_app, map_app. f_equal.
  rewrite <- dense_shift. now rewrite Nat.add_0_l, Nat.add_0_r.
Qed.

Lemma dense_one n : dense n 1 = [n].
Proof. unfold dense. cbn. f_equal. lia. Qed.

Lemma int_add_exact (a b : Z) :
  int_min <= a + b <= int_max -> int_add a b = a + b.
Proof.
  unfold int_add, int_wrap, int_min, int_max. intros H.
  rewrite Z.mod_small; lia.
Qed.

Lemma multi_values_spec (values : list value) :
  forall subitems parts0 vals0 c,
    exists tail c',
      multi_values values subitems parts0 vals0 c
      = (parts0 ++ tail, vals0 ++ values, c')
      /\ (int_min <= c -> c + Z.of_nat (length values) <= int_max ->
          placeholders tail = dense c (length values)
          /\ c' = c + Z.of_nat (length values)).
Proof.
  induction values as [|v rest IH]; intros subitems parts0 vals0 c.
  - exists [], c. cbn [multi_values]. rewrite !app_nil_r.
    split; [reflexivity |]. intros _ _. split; [reflexivity |].
    cbn [length]. lia.
  - cbn [multi_values].
    set (parts1 := if 1 <? subitems then parts0 ++ [Lit ", "] else parts0).
    destruct (IH (int_add subitems 1) (parts1 ++ [Placeholder c])
                (vals0 ++ [v]) (int_add c 1)) as (tail & c' & E & H).
    exists ((if 1 <? subitems then [Lit ", "] else []) ++ Placeholder c :: tail), c'.
    split.
    + rewrite E.
      replace ((parts1 ++ [Placeholder c]) ++ tail)
        with (parts0 ++ (if 1 <? subitems then [Lit ", "] else [])
                ++ Placeholder c :: tail)
        by (subst parts1; destruct (1 <? subitems);
            now rewrite <- ?app_assoc).
      now rewrite <- app_assoc.
    + intros Hmin Hmax. cbn [length] in Hmax.
      assert (int_add c 1 = c + 1) as Ec
        by (apply int_add_exact; unfold int_min, int_max in *; lia).
      rewrite Ec in H.
      destruct H as [Hp Hc];
        [unfold int_min in *; lia | lia |].
      split.
      * rewrite placeholders_app.
        clear E. subst parts1. destruct (1 <? subitems);
          cbn [app placeholders length]; rewrite Hp;
          change (S (length rest)) with (1 + length rest)%nat;
          rewrite dense_app, dense_one; reflexivity.
      * cbn [length]. lia.
Qed.

(** The arguments only grow along the loop. *)
Lemma vals_step_grows recur op st x :
  (length (vals st) <= length (vals (prepareFilters_step recur op st x)))%nat.
Proof.
  assert (forall parts cv c lines,
             (length (vals st)
              <= length (vals (emit op st parts cv c lines)))%nat) as Hemit.
  { intros. rewrite vals_emit.
    destruct (0 <? Builder_Len parts)%nat; rewrite ?length_app; lia. }
  destruct x as [f|mf|g|v]; cbn [prepareFilters_step].
  - repeat match goal with
           | |- context [if ?b then _ else _] => destruct b
           end; try apply Hemit. cbn [vals]. lia.
  - destruct (_ || _); [|apply Hemit].
    destruct (multi_values _ _ _ _ _) as [[parts cv] c']. apply Hemit.
  - destruct (negb _); apply Hemit.
  - apply Hemit.
Qed.

Lemma vals_fold_grows recur op (l : list FilterAny) :
  forall st,
    (length (vals st)
     <= length (vals (fold_left (prepareFilters_step recur op) l st)))%nat.
Proof.
  induction l as [|x l IH]; intros st; [reflexivity |].
  cbn [fold_left]. etransitivity; [apply vals_step_grows | apply IH].
Qed.

Lemma Builder_Len_lit (s : string) (b : Builder) :
  s <> ""%string -> (0 < Builder_Len (Lit s :: b))%nat.
Proof.
  intros Hs. unfold Builder_Len.
  change (Builder_String (Lit s :: b)) with (s +:+ Builder_String b).
  rewrite length_append. destruct s; [congruence | simpl; lia].
Qed.

Lemma append_not_empty_r (a b : string) : b <> ""%string -> a +:+ b <> ""%string.
Proof. intros Hb E. apply append_eq_empty in E. tauto. Qed.

Lemma dense_from_emit n op st parts cv c lines :
  dense_from n st ->
  ((0 < Builder_Len parts)%nat ->
   placeholders parts = dense (counter st) (length cv)
   /\ c = counter st + Z.of_nat (length cv)) ->
  (Builder_Len parts = 0%nat -> c = counter st) ->
  dense_from n (emit op st parts cv c lines).
Proof.
  intros [Hp Hc] Hfull Hempty. unfold dense_from.
  rewrite placeholders_emit, vals_emit, counter_emit.
  destruct (0 <? Builder_Len parts)%nat eqn:E.
  - apply Nat.ltb_lt in E. destruct (Hfull E) as [Hparts ->].
    rewrite length_app, dense_app, Hp, Hparts, Hc, Nat2Z.inj_add.
    split; [reflexivity | lia].
  - apply Nat.ltb_ge in E. rewrite Hempty by lia. now split.
Qed.

Lemma dense_from_step n op st x :
  1 <= n ->
  dense_from n st ->
  n + Z.of_nat (length (vals (step op st x))) <= int_max ->
  (forall g, x = AnyGroup g ->
     forall m, 1 <= m ->
       m + Z.of_nat (length (vals (prepareFilters_run g m))) <= int_max ->
       dense_from m (prepareFilters_run g m)) ->
  dense_from n (step op st x).
Proof.
  intros Hn Hst Hmax Hsub. pose proof Hst as [Hp Hc].
  destruct x as [f|mf|g|v]; cbn [prepareFilters_step] in *.
  - destruct (negb _ && _ && _ && _).
    + assert (0 < Builder_Len
                [Lit (Filter_Key f +:+ " " +:+
                      default "="%string (Filter_Comparator f) +:+ " ");
                 Placeholder (counter st)])%nat as Hlen.
      { apply Builder_Len_lit. repeat apply append_not_empty_r. discriminate. }
      rewrite vals_emit in Hmax.
      apply Nat.ltb_lt in Hlen as Hlen'. rewrite Hlen' in Hmax.
      rewrite length_app in Hmax. cbn [length] in Hmax.
      apply dense_from_emit; [exact Hst | | lia].
      intros _. cbn [placeholders length]. rewrite dense_one.
      split; [reflexivity |].
      apply int_add_exact. unfold int_min, int_max in *. lia.
    + destruct (_ || _).
      * exact Hst.
      * apply dense_from_emit; [exact Hst | | reflexivity].
        intros _. cbn [placeholders length]. split; [reflexivity | lia].
  - destruct (_ || _).
    + destruct (multi_values_spec (Multi_Values mf) 1
                  [Lit (Multi_Key mf +:+ " " +:+
                        default "IN"%string (Multi_Comparator mf) +:+ " (")]
                  [] (counter st)) as (tail & c' & E & H).
      rewrite E in *. cbv beta iota in *.
      assert (0 < Builder_Len
                (([Lit (Multi_Key mf +:+ " " +:+
                        default "IN"%string (Multi_Comparator mf) +:+ " (")]
                  ++ tail) ++ [Lit ")"]))%nat as Hlen.
      { cbn [app]. apply Builder_Len_lit.
        repeat apply append_not_empty_r. discriminate. }
      rewrite vals_emit in Hmax.
      apply Nat.ltb_lt in Hlen as Hlen'. rewrite Hlen' in Hmax.
      rewrite length_app in Hmax. cbn [app] in Hmax.
      destruct H as [Htail ->]; [unfold int_min; lia | lia |].
      apply dense_from_emit; [exact Hst | | lia].
      intros _. split; [|reflexivity].
      rewrite !placeholders_app, Htail.
      cbn [placeholders app]. now rewrite app_nil_r.
    + apply dense_from_emit; [exact Hst | | reflexivity].
      unfold Builder_Len. cbn. lia.
  - pose proof (args_need_text_run g (counter st)) as Htext.
    specialize (Hsub g eq_refl (counter st)).
    set (sub := prepareFilters_run g (counter st)) in *.
    rewrite eqb_empty_length in *.
    change (String.length (Builder_String (queryBuilder sub)))
      with (Builder_Len (queryBuilder sub)) in *.
    destruct (0 <? Builder_Len (queryBuilder sub))%nat eqn:E.
    + assert (0 < Builder_Len ([Lit "("] ++ queryBuilder sub ++ [Lit ")"]))%nat
        as Hlen by (apply Builder_Len_lit; discriminate).
      rewrite vals_emit in Hmax.
      apply Nat.ltb_lt in Hlen as Hlen'. rewrite Hlen' in Hmax.
      rewrite length_app in Hmax.
      destruct Hsub as [Hps Hcs]; [lia | lia |].
      apply dense_from_emit; [exact Hst | | lia].
      intros _. split; [|exact Hcs].
      cbn [app placeholders]. rewrite placeholders_app, Hps.
      cbn [placeholders]. now rewrite app_nil_r.
    + apply Nat.ltb_ge in E.
      rewrite vals_emit in Hmax. cbn in Hmax.
      assert (vals sub = []) as Hnil by (apply Htext; lia).
      destruct Hsub as [_ Hcs]; [lia | rewrite Hnil; cbn [length]; lia |].
      apply dense_from_emit; [exact Hst | cbn; lia |].
      intros _. rewrite Hcs, Hnil. cbn [length]. lia.
  - apply dense_from_emit; [exact Hst | cbn; lia | reflexivity].
Qed.

Lemma dense_from_fold n op (l : list FilterAny) :
  1 <= n ->
  (forall g, In (AnyGroup g) l ->
     forall m, 1 <= m ->
       m + Z.of_nat (length (vals (prepareFilters_run g m))) <= int_max ->
       dense_from m (prepareFilters_run g m)) ->
  forall st,
    dense_from n st ->
    n + Z.of_nat (length (vals (fold_left (step op) l st))) <= int_max ->
    dense_from n (fold_left (step op) l st).
Proof.
  intros Hn. induction l as [|x l IH]; intros Hsub st Hst Hmax; [exact Hst |].
  cbn [fold_left] in *. apply IH.
  - intros g Hg. apply Hsub. now right.
  - apply dense_from_step; [exact Hn | exact Hst | |].
    + pose proof (vals_fold_grows prepareFilters_run op l (step op st x)). lia.
    + intros g ->. apply Hsub. now left.
  - exact Hmax.
Qed.

Lemma dense_from_run (filters : GroupFilter) :
  forall n, 1 <= n ->
    n + Z.of_nat (length (vals (prepareFilters_run filters n))) <= int_max ->
    dense_from n (prepareFilters_run filters n).
Proof.
  induction filters as [fs op IH] using GroupFilter_nested_ind.
  intros n Hn. rewrite prepareFilters_run_eq.
  replace (n <=? 0) with false by (symmetry; apply Z.leb_gt; lia).
  intros Hmax. apply dense_from_fold; [exact Hn | exact IH | | exact Hmax].
  split; [reflexivity | cbn; lia].
Qed.



Example nested_example_compiled :
  prepareFilters nested_example 5
  = ("id = $5 AND kind IN ($6, $7) AND (expires_at IS NULL OR expires_at > $8)"%string,
     [VInt 2; VInt 1; VInt 2; VTime 7], 9).
Proof. reflexivity. Qed.

(** ** Placeholders in the text *)

Lemma count_dollar_append (a b : string) :
  count_dollar (a +:+ b) = (count_dollar a + count_dollar b)%nat.
Proof.
  induction a as [|c a IH]; [reflexivity |].
  rewrite append_cons. cbn [count_dollar]. rewrite IH. lia.
Qed.

Lemma count_dollar_uint (d : Decimal.uint) :
  count_dollar (NilEmpty.string_of_uint d) = 0%nat.
Proof. induction d; cbn; auto. Qed.

Lemma count_dollar_fmt_d (n : Z) : count_dollar (fmt_d n) = 0%nat.
Proof.
  unfold fmt_d, NilZero.string_of_int, NilZero.string_of_uint.
  destruct (Z.to_int n) as [d | d]; destruct d;
    try reflexivity; cbn [count_dollar]; cbn;
    apply count_dollar_uint.
Qed.

Lemma count_dollar_Builder_app (a b : Builder) :
  count_dollar (Builder_String (a ++ b))
  = (count_dollar (Builder_String a) + count_dollar (Builder_String b))%nat.
Proof. now rewrite Builder_String_app, count_dollar_append. Qed.

Lemma count_dollar_lit (s : string) (b : Builder) :
  count_dollar (Builder_String (Lit s :: b))
  = (count_dollar s + count_dollar (Builder_String b))%nat.
Proof. apply count_dollar_append. Qed.

Lemma count_dollar_placeholder (i : Z) (b : Builder) :
  count_dollar (Builder_String (Placeholder i :: b))
  = S (count_dollar (Builder_String b)).
Proof.
  change (Builder_String (Placeholder i :: b))
    with (("$" +:+ fmt_d i) +:+ Builder_String b).
  rewrite !count_dollar_append, count_dollar_fmt_d. reflexivity.
Qed.

Lemma multi_values_text (values : list value) :
  forall subitems parts0 vals0 c,
    exists tail c',
      multi_values values subitems parts0 vals0 c
      = (parts0 ++ tail, vals0 ++ values, c')
      /\ count_dollar (Builder_String tail) = length values.
Proof.
  induction values as [|v rest IH]; intros subitems parts0 vals0 c.
  - exists [], c. cbn [multi_values]. now rewrite !app_nil_r.
  - cbn [multi_values].
    set (parts1 := if 1 <? subitems then parts0 ++ [Lit ", "] else parts0).
    destruct (IH (int_add subitems 1) (parts1 ++ [Placeholder c])
                (vals0 ++ [v]) (int_add c 1)) as (tail & c' & E & H).
    exists ((if 1 <? subitems then [Lit ", "] else [])
            ++ Placeholder c :: tail), c'.
    split.
    + rewrite E.
      replace ((parts1 ++ [Placeholder c]) ++ tail)
        with (parts0 ++ (if 1 <? subitems then [Lit ", "] else [])
                ++ Placeholder c :: tail)
        by (subst parts1; destruct (1 <? subitems);
            now rewrite <- ?app_assoc).
      now rewrite <- app_assoc.
    + clear E. rewrite count_dollar_Builder_app, count_dollar_placeholder, H.
      destruct (1 <? subitems); reflexivity.
Qed.

Lemma plain_text_eq (fs : list FilterAny) (op : string) :
  plain_text (Build_GroupFilter fs op)
  <-> count_dollar op = 0%nat /\ Forall (plain_member plain_text) fs.
Proof.
  cbn [plain_text]. apply and_iff_compat_l.
  induction fs as [|x fs IH].
  - split; [constructor | trivial].
  - split.
    + intros [Hx Hr]. constructor; [exact Hx | now apply IH].
    + intros H. inversion H; subst. split; [assumption | now apply IH].
Qed.

Lemma dollar_per_argument_emit op st parts cv c lines :
  count_dollar op = 0%nat ->
  dollar_per_argument st ->
  count_dollar (Builder_String parts) = length cv ->
  dollar_per_argument (emit op st parts cv c lines).
Proof.
  intros Hop Hst Hparts. unfold dollar_per_argument, emit in *.
  destruct (0 <? Builder_Len parts)%nat; cbn [queryBuilder vals];
    [|exact Hst].
  rewrite count_dollar_Builder_app, length_app, Hparts.
  destruct (0 <? Builder_Len (queryBuilder st))%nat; [|now rewrite Hst].
  rewrite count_dollar_Builder_app, count_dollar_lit, Hst.
  rewrite !count_dollar_append.
  replace (count_dollar (if String.eqb op "" then OperatorAnd else op))
    with 0%nat by (destruct (String.eqb op ""); [reflexivity | now rewrite Hop]).
  cbn. lia.
Qed.

Lemma dollar_per_argument_step op st x :
  count_dollar op = 0%nat ->
  plain_member plain_text x ->
  (forall g, x = AnyGroup g ->
     plain_text g -> forall m, dollar_per_argument (prepareFilters_run g m)) ->
  dollar_per_argument st ->
  dollar_per_argument (step op st x).
Proof.
  intros Hop Hx Hsub Hst.
  destruct x as [f|mf|g|v]; cbn [prepareFilters_step plain_member] in *.
  - destruct Hx as [Hkey Hcmp].
    destruct (negb _ && _ && _ && _).
    + apply dollar_per_argument_emit; [exact Hop | exact Hst |].
      rewrite count_dollar_lit, count_dollar_placeholder.
      rewrite !count_dollar_append, Hkey, Hcmp. reflexivity.
    + destruct (_ || _); [exact Hst |].
      apply dollar_per_argument_emit; [exact Hop | exact Hst |].
      rewrite count_dollar_lit, !count_dollar_append, Hkey, Hcmp.
      reflexivity.
  - destruct Hx as [Hkey Hcmp].
    destruct (_ || _);
      [|apply dollar_per_argument_emit; [exact Hop | exact Hst | reflexivity]].
    destruct (multi_values_text (Multi_Values mf) 1
                [Lit (Multi_Key mf +:+ " " +:+
                      default "IN"%string (Multi_Comparator mf) +:+ " (")]
                [] (counter st)) as (tail & c' & E & H).
    rewrite E. cbv beta iota.
    apply dollar_per_argument_emit; [exact Hop | exact Hst |].
    rewrite !count_dollar_Builder_app, count_dollar_lit, H.
    rewrite !count_dollar_append, Hkey, Hcmp.
    cbn. rewrite count_dollar_append. cbn. lia.
  - specialize (Hsub g eq_refl Hx (counter st)).
    pose proof (args_need_text_run g (counter st)) as Htext.
    set (sub := prepareFilters_run g (counter st)) in *.
    destruct (negb _);
      apply dollar_per_argument_emit; try exact Hop; try exact Hst;
      [|reflexivity].
    cbn [app]. rewrite count_dollar_lit, count_dollar_Builder_app.
    unfold dollar_per_argument in Hsub. rewrite Hsub.
    cbn. rewrite count_dollar_append. cbn. lia.
  - apply dollar_per_argument_emit; [exact Hop | exact Hst | reflexivity].
Qed.

Lemma dollar_per_argument_run (filters : GroupFilter) :
  plain_text filters ->
  forall n, dollar_per_argument (prepareFilters_run filters n).
Proof.
  induction filters as [fs op IH] using GroupFilter_nested_ind.
  intros Hplain n. apply plain_text_eq in Hplain as [Hop Hfs].
  rewrite prepareFilters_run_eq.
  assert (dollar_per_argument (start (if n <=? 0 then 1 else n))) as H0
    by reflexivity.
  revert H0. generalize (start (if n <=? 0 then 1 else n)).
  induction Hfs as [|x l Hx Hl IHl]; intros st Hst; [exact Hst |].
  cbn [fold_left]. apply IHl.
  - intros g Hg. apply IH. now right.
  - apply dollar_per_argument_step; [exact Hop | exact Hx | | exact Hst].
    intros g -> Hg m. apply IH; [now left | exact Hg].
Qed.

(** The fragment as text: when no key, comparator or operator of the tree
    contains a [$], the number of [$] in the fragment is the number of
    arguments, whatever the starting index. *)
Lemma fragment_dollars_match_arguments (filters : GroupFilter) (n : Z) :
  plain_text filters ->
  let '(fragment, args, _) := prepareFilters filters n in
  count_dollar fragment = length args.
Proof.
  intros Hplain. unfold prepareFilters, returned.
  apply (dollar_per_argument_run filters Hplain n).
Qed.

(** ** What the log does not influence *)

Lemma relog_logged st : relog (logged st) st = st.
Proof. now destruct st. Qed.

Lemma relog_relog l1 l2 st : relog l1 (relog l2 st) = relog l1 st.
Proof. reflexivity. Qed.

Lemma emit_relog op lines0 st parts cv c lines :
  emit op (relog lines0 st) parts cv c lines
  = relog (lines0 ++ logged (emit op (relog [] st) parts cv c lines))
      (emit op (relog [] st) parts cv c lines).
Proof.
  unfold emit. cbn [relog queryBuilder vals logged].
  now destruct (0 <? Builder_Len parts)%nat.
Qed.

Lemma step_relog recur op lines0 st x :
  prepareFilters_step recur op (relog lines0 st) x
  = relog (lines0 ++ logged (prepareFilters_step recur op (relog [] st) x))
      (prepareFilters_step recur op (relog [] st) x).
Proof.
  destruct x as [f|mf|g|v]; cbn [prepareFilters_step relog counter].
  - destruct (negb _ && _ && _ && _); [apply emit_relog |].
    destruct (_ || _); [reflexivity | apply emit_relog].
  - destruct (_ || _); [|apply emit_relog].
    destruct (multi_values _ _ _ _ _) as [[parts cv] c']. apply emit_relog.
  - destruct (negb _); apply emit_relog.
  - apply emit_relog.
Qed.

Lemma fold_relog recur op (l : list FilterAny) :
  forall lines0 st,
    fold_left (prepareFilters_step recur op) l (relog lines0 st)
    = relog
        (lines0
         ++ logged (fold_left (prepareFilters_step recur op) l (relog [] st)))
        (fold_left (prepareFilters_step recur op) l (relog [] st)).
Proof.
  induction l as [|x l IH]; intros lines0 st.
  - cbn [fold_left relog logged]. now rewrite app_nil_r.
  - cbn [fold_left]. rewrite (step_relog recur op lines0).
    set (sx := prepareFilters_step recur op (relog [] st) x).
    assert (fold_left (prepareFilters_step recur op) l sx
            = relog
                (logged sx
                 ++ logged (fold_left (prepareFilters_step recur op) l
                              (relog [] sx)))
                (fold_left (prepareFilters_step recur op) l (relog [] sx)))
      as Hsx by (rewrite <- (relog_logged sx) at 1; apply IH).
    rewrite IH, Hsx. cbn [relog logged]. now rewrite app_assoc.
Qed.

(** C6.  A single-value filter whose comparator is [IN] or [NOT IN] is
    skipped: the loop state after it is the state before it, with one
    diagnostic line logged; so the compiled fragment, the arguments and
    the counter of a group are those of the group without the node, and
    the log has the diagnostic line in addition. *)
Theorem single_in_is_skipped (before after : list FilterAny)
    (operator : string) (f : Filter) (n : Z) :
  Filter_Comparator f = Some ComparatorIn
  \/ Filter_Comparator f = Some ComparatorNotIn ->
  let with_f :=
    prepareFilters_run
      (Build_GroupFilter (before ++ AnyFilter f :: after) operator) n in
  let without :=
    prepareFilters_run (Build_GroupFilter (before ++ after) operator) n in
  (forall st,
     step operator st (AnyFilter f)
     = {| queryBuilder := queryBuilder st; vals := vals st;
          counter := counter st;
          logged := logged st ++ [in_not_supported] |})
  /\ prepareFilters
       (Build_GroupFilter (before ++ AnyFilter f :: after) operator) n
     = prepareFilters (Build_GroupFilter (before ++ after) operator) n
  /\ queryBuilder with_f = queryBuilder without
  /\ exists l1 l2,
       logged without = l1 ++ l2
       /\ logged with_f = l1 ++ in_not_supported :: l2.
Proof.
  intros Hcmp with_f without.
  assert (forall st,
             step operator st (AnyFilter f)
             = relog (logged st ++ [in_not_supported]) st) as Hstep.
  { intros st. cbn [prepareFilters_step].
    destruct Hcmp as [-> | ->]; reflexivity. }
  split; [exact Hstep |].
  subst with_f without. unfold prepareFilters.
  rewrite !prepareFilters_run_eq.
  set (s0 := start (if n <=? 0 then 1 else n)).
  rewrite !fold_left_app. cbn [fold_left].
  set (sp := fold_left (step operator) before s0).
  set (z := fold_left (step operator) after (relog [] sp)).
  assert (fold_left (step operator) after sp = relog (logged sp ++ logged z) z)
    as -> by (rewrite <- (relog_logged sp) at 1; apply fold_relog).
  rewrite Hstep, fold_relog. fold z.
  split; [reflexivity |]. split; [reflexivity |].
  exists (logged sp), (logged z). cbn [relog logged].
  split; [reflexivity |]. now rewrite <- app_assoc.
Qed.

Lemma single_in_is_skipped_witness :
  let f := {| Filter_Key := "role"; Filter_Value := VString "admin";
              Filter_Comparator := Some ComparatorIn;
              Filter_Operator := None |} in
  let before := [single "id" None (VInt 2)] in
  let after := [single "age" (Some ComparatorGreaterThan) (VInt 18)] in
  (Filter_Comparator f = Some ComparatorIn
   \/ Filter_Comparator f = Some ComparatorNotIn)
  /\ prepareFilters (Build_GroupFilter (before ++ AnyFilter f :: after) "") 1
     = prepareFilters (Build_GroupFilter (before ++ after) "") 1.
Proof.
  intros f before after. split; [left; reflexivity |].
  apply (single_in_is_skipped before after "" f 1). left. reflexivity.
Defined.

Example single_in_example :
  let f := {| Filter_Key := "role"; Filter_Value := VString "admin";
              Filter_Comparator := Some ComparatorIn;
              Filter_Operator := None |} in
  let st :=
    prepareFilters_run
      (Build_GroupFilter
         [single "id" None (VInt 2); AnyFilter f;
          single "age" (Some ComparatorGreaterThan) (VInt 18)] "") 1 in
  returned st = ("id = $1 AND age > $2"%string, [VInt 2; VInt 18], 3)
  /\ logged st = [in_not_supported].
Proof. split; reflexivity. Qed.

(** ** The soft-delete rewrite, compiled *)

Lemma prepareSoftDelete_eq (d : string) (filters : GroupFilter) :
  d <> ""%string ->
  prepareSoftDelete (Some d) filters
  = if (0 <? length (Filters filters))%nat
    then Build_GroupFilter (Filters filters ++ [AnyGroup (tombstone d)])
           (Operator filters)
    else tombstone d.
Proof.
  intros Hd. unfold prepareSoftDelete.
  apply String.eqb_neq in Hd. now rewrite Hd.
Qed.

Lemma Builder_Len_single_lit (s : string) : Builder_Len [Lit s] = String.length s.
Proof.
  unfold Builder_Len. change (Builder_String [Lit s]) with (s +:+ "").
  now rewrite append_empty_r.
Qed.

Lemma tombstone_run (d : string) (c : Z) :
  prepareFilters_run (tombstone d) c
  = {| queryBuilder := [Lit (d +:+ " IS NULL")]; vals := [];
       counter := if c <=? 0 then 1 else c; logged := [] |}.
Proof.
  unfold tombstone. rewrite prepareFilters_run_eq.
  cbn [fold_left prepareFilters_step Filter_Comparator default].
  change (negb (String.eqb FilterSqlComparatorIsNull ComparatorIsNull) && _ && _ && _)
    with false.
  change (String.eqb FilterSqlComparatorIsNull ComparatorIn
          || String.eqb FilterSqlComparatorIsNull ComparatorNotIn) with false.
  cbv iota. unfold emit.
  rewrite Builder_Len_single_lit, length_append.
  replace (0 <? _ + _)%nat with true
    by (symmetry; apply Nat.ltb_lt; simpl; lia).
  reflexivity.
Qed.

(** C2, as the code has it.  With a tombstone column [d] set, the
    rewritten filter compiles to the fragment of the incoming group,
    followed by that group's own operator ([AND] when it has none) and
    [(d IS NULL)]; when the incoming group has filters but compiles to
    nothing the fragment is [(d IS NULL)]; when it has no filters the
    fragment is [d IS NULL].  The arguments are those of the incoming
    group. *)
Theorem soft_delete_joined_by_group_operator (d : string)
    (filters : GroupFilter) (n : Z) :
  d <> ""%string ->
  let '(fragment, args, next) := prepareFilters filters n in
  prepareFilters (prepareSoftDelete (Some d) filters) n
  = if (0 <? length (Filters filters))%nat then
      (if String.eqb fragment "" then "(" +:+ d +:+ " IS NULL)"
       else fragment +:+ " "
            +:+ (if String.eqb (Operator filters) "" then OperatorAnd
                 else Operator filters)
            +:+ " (" +:+ d +:+ " IS NULL)",
       args, if next <=? 0 then 1 else next)
    else (d +:+ " IS NULL", [], if n <=? 0 then 1 else n).
Proof.
  intros Hd. rewrite prepareSoftDelete_eq by exact Hd.
  destruct filters as [fs op]. cbn [Filters Operator].
  unfold prepareFilters, returned.
  destruct (0 <? length fs)%nat.
  - rewrite !prepareFilters_run_eq, fold_left_app.
    set (st := fold_left (step op) fs _).
    cbn [fold_left prepareFilters_step]. rewrite tombstone_run.
    cbn [queryBuilder vals counter logged app].
    change (Builder_String [Lit (d +:+ " IS NULL")])
      with ((d +:+ " IS NULL") +:+ "").
    rewrite append_empty_r.
    replace (negb (String.eqb (d +:+ " IS NULL") ""))
      with true by (now destruct d).
    rewrite counter_emit, vals_emit.
    assert ((0 <? Builder_Len [Lit "("; Lit (d +:+ " IS NULL"); Lit ")"])%nat
            = true)
      as Hlen by (apply Nat.ltb_lt, Builder_Len_lit; discriminate).
    rewrite Hlen, app_nil_r.
    f_equal. f_equal.
    unfold emit. rewrite Hlen. cbn [queryBuilder].
    rewrite <- (negb_involutive (String.eqb (Builder_String _) "")).
    rewrite eqb_empty_length.
    change (String.length (Builder_String (queryBuilder st)))
      with (Builder_Len (queryBuilder st)).
    destruct (0 <? Builder_Len (queryBuilder st))%nat eqn:E; cbn [negb].
    + rewrite !Builder_String_app.
      change (Builder_String [Lit "("; Lit (d +:+ " IS NULL"); Lit ")"])
        with ("(" +:+ (d +:+ " IS NULL") +:+ ")" +:+ "").
      change (Builder_String
                [Lit (" " +:+ (if String.eqb op "" then OperatorAnd else op)
                      +:+ " ")])
        with ((" " +:+ (if String.eqb op "" then OperatorAnd else op)
               +:+ " ") +:+ "").
      rewrite !append_assoc, !append_empty_r. reflexivity.
    + apply Nat.ltb_ge in E.
      assert (Builder_String (queryBuilder st) = ""%string) as Hs.
      { unfold Builder_Len in E.
        destruct (Builder_String (queryBuilder st)); [reflexivity |].
        simpl in E. lia. }
      rewrite Builder_String_app, Hs.
      change (Builder_String [Lit "("; Lit (d +:+ " IS NULL"); Lit ")"])
        with ("(" +:+ (d +:+ " IS NULL") +:+ ")" +:+ "").
      rewrite !append_assoc, !append_empty_r. reflexivity.
  - rewrite tombstone_run. cbn [queryBuilder vals counter].
    change (Builder_String [Lit (d +:+ " IS NULL")])
      with ((d +:+ " IS NULL") +:+ "").
    now rewrite append_empty_r.
Qed.

Lemma soft_delete_joined_by_group_operator_witness :
  "deleted_at"%string <> ""%string
  /\ prepareFilters (prepareSoftDelete (Some "deleted_at"%string) active_users) 1
     = ("status = $1 AND (deleted_at IS NULL)"%string, [VString "active"], 2).
Proof.
  split; [discriminate |].
  exact (soft_delete_joined_by_group_operator "deleted_at" active_users 1
           ltac:(discriminate)).
Defined.

(** On [status = 'active'] with the tombstone column [deleted_at] the
    join is [AND], the operator of the incoming group. *)
Lemma soft_delete_not_joined_by_OR :
  ~ joined_by_OR "deleted_at" active_users 1.
Proof. intros [H | H]; discriminate H. Qed.

(** ** The foreign-key munger *)

Lemma strings_Split_not_nil (s : string) (sep : ascii) :
  strings_Split s sep <> [].
Proof.
  destruct s as [|c rest]; cbn [strings_Split]; [discriminate |].
  destruct (Ascii.eqb c sep); [discriminate |].
  destruct (strings_Split rest sep); discriminate.
Qed.

(** Splitting around one separator. *)
Lemma strings_Split_app (a b : string) (sep : ascii) :
  strings_Split (a +:+ String sep b) sep
  = strings_Split a sep ++ strings_Split b sep.
Proof.
  induction a as [|c a IH].
  - rewrite append_empty_l. cbn [strings_Split].
    now rewrite Ascii.eqb_refl.
  - rewrite append_cons. cbn [strings_Split]. rewrite IH.
    destruct (Ascii.eqb c sep); [reflexivity |].
    pose proof (strings_Split_not_nil a sep).
    destruct (strings_Split a sep); [congruence | reflexivity].
Qed.

Lemma empty_segment_leading (t : string) :
  In ""%string (strings_Split ("_" +:+ t) "_").
Proof. now left. Qed.

Lemma empty_segment_trailing (t : string) :
  In ""%string (strings_Split (t +:+ "_") "_").
Proof.
  rewrite (strings_Split_app t "" "_"). apply in_or_app. right. now left.
Qed.

Lemma empty_segment_doubled (a b : string) :
  In ""%string (strings_Split (a +:+ "__" +:+ b) "_").
Proof.
  change (a +:+ "__" +:+ b) with (a +:+ String "_" ("_" +:+ b)).
  rewrite strings_Split_app. apply in_or_app. right. now left.
Qed.

Lemma prepareForeignKey_parts_spec up (parts : list string) :
  forall buffer,
    (In ""%string parts ->
     prepareForeignKey_parts up parts buffer = Panic slice_bounds)
    /\ (~ In ""%string parts ->
        prepareForeignKey_parts up parts buffer
        = Ok (buffer +:+ concat_strings (map (capitalize up) parts))).
Proof.
  induction parts as [|part rest IH]; intros buffer.
  - split; [intros [] |]. intros _. cbn. now rewrite append_empty_r.
  - destruct part as [|first tail]; cbn [prepareForeignKey_parts].
    + split; [reflexivity |]. intros H. exfalso. apply H. now left.
    + destruct (IH (buffer +:+ strings_ToUpper up (String first "") +:+ tail))
        as [Hpanic Hok].
      split.
      * intros [H | H]; [discriminate H | now apply Hpanic].
      * intros H. rewrite Hok by (intros H'; apply H; now right).
        cbn [map concat_strings capitalize].
        now rewrite !append_assoc.
Qed.

Lemma upper_first_ascii up (first : ascii) (tail : string) :
  is_ascii_byte first = true ->
  capitalize up (String first tail) = String (upper_byte first) tail.
Proof.
  intros H. unfold capitalize, strings_ToUpper. cbn [all_ascii].
  rewrite H. reflexivity.
Qed.

(** C10.  [prepareForeignKey] upper-cases the first byte of every
    segment between underscores and concatenates the segments; it panics
    exactly when some segment is empty, as for the empty string, a leading
    or trailing underscore, or two underscores in a row. *)
Theorem prepareForeignKey_total_iff_no_empty_segment
    (up : string -> string) (str : string) :
  (prepareForeignKey up str = Panic slice_bounds
   <-> In ""%string (strings_Split str "_"))
  /\ (prepareForeignKey up str
      = Ok (concat_strings (map (capitalize up) (strings_Split str "_")))
      <-> ~ In ""%string (strings_Split str "_"))
  /\ prepareForeignKey up "" = Panic slice_bounds
  /\ prepareForeignKey up ("_" +:+ str) = Panic slice_bounds
  /\ prepareForeignKey up (str +:+ "_") = Panic slice_bounds
  /\ (forall rest, prepareForeignKey up (str +:+ "__" +:+ rest)
                   = Panic slice_bounds)
  /\ prepareForeignKey up "user_id" = Ok "UserId"%string.
Proof.
  assert (forall s, In ""%string (strings_Split s "_") ->
                    prepareForeignKey up s = Panic slice_bounds) as Hempty.
  { intros s. unfold prepareForeignKey.
    apply (prepareForeignKey_parts_spec up (strings_Split s "_") ""). }
  unfold prepareForeignKey.
  destruct (prepareForeignKey_parts_spec up (strings_Split str "_") "")
    as [Hpanic Hok].
  rewrite append_empty_l in Hok.
  split; [|split; [|split; [reflexivity |
    split; [apply Hempty, empty_segment_leading |
    split; [apply Hempty, empty_segment_trailing |
    split; [intros rest; apply Hempty, empty_segment_doubled |
    reflexivity]]]]]].
  - split; [|exact Hpanic].
    intros E.
    destruct (In_dec String.string_dec "" (strings_Split str "_"))
      as [H | H]; [exact H |].
    rewrite (Hok H) in E. discriminate E.
  - split; [|exact Hok].
    intros E H. rewrite (Hpanic H) in E. discriminate E.
Qed.

(** ** Reasoning about what a computation issues *)

Lemma issues_only_ret {A} allowed (a : A) : issues_only allowed (ret a).
Proof.
  intros w. split; [discriminate |].
  exists []. cbn. now rewrite app_nil_r.
Qed.

Lemma issues_only_throw {A} allowed (e : error) :
  issues_only allowed (@throw A e).
Proof.
  intros w. split; [discriminate |].
  exists []. cbn. now rewrite app_nil_r.
Qed.

Lemma issues_only_bind {A B} allowed (m : M A) (k : A -> M B) :
  issues_only allowed m ->
  (forall a, issues_only allowed (k a)) ->
  issues_only allowed (bind m k).
Proof.
  intros Hm Hk w. unfold bind.
  destruct (Hm w) as [Hp (new & Hi & Hf)].
  destruct (m w) as [[a | e | msg] w1]; cbn [fst snd] in *.
  - destruct (Hk a w1) as [Hp' (new' & Hi' & Hf')].
    split; [exact Hp' |].
    exists (new ++ new'). rewrite Hi', Hi, app_assoc.
    split; [reflexivity | now apply Forall_app].
  - split; [discriminate | now exists new].
  - now destruct (Hp msg).
Qed.

Lemma issues_only_on_error {A} allowed (h : error -> error) (m : M A) :
  issues_only allowed m -> issues_only allowed (on_error h m).
Proof.
  intros Hm w. unfold on_error.
  destruct (Hm w) as [Hp (new & Hi & Hf)].
  destruct (m w) as [[a | e | msg] w1]; cbn [fst snd] in *.
  - split; [discriminate | now exists new].
  - split; [discriminate | now exists new].
  - now destruct (Hp msg).
Qed.

Lemma issues_only_log allowed (l : logline) :
  issues_only allowed (log_Println l).
Proof.
  intros w. split; [discriminate |].
  exists []. cbn. now rewrite app_nil_r.
Qed.

Lemma issues_only_sql_debug allowed env query label args :
  issues_only allowed (sql_debug env query label args).
Proof.
  unfold sql_debug. destruct (SQL_DEBUG env).
  - apply issues_only_bind; [apply issues_only_log |].
    intros _. apply issues_only_log.
  - apply issues_only_ret.
Qed.

Lemma issues_only_prepareFilters allowed filters n :
  issues_only allowed (prepareFilters_logged filters n).
Proof.
  intros w. split; [discriminate |].
  exists []. cbn. now rewrite app_nil_r.
Qed.

Lemma issues_only_for_each {A B} allowed (body : A -> M B) (xs : list A) :
  (forall x, issues_only allowed (body x)) ->
  issues_only allowed (for_each body xs).
Proof.
  intros Hb. induction xs as [|x xs IH]; cbn [for_each].
  - apply issues_only_ret.
  - apply issues_only_bind; [apply Hb |]. intros y.
    apply issues_only_bind; [exact IH |]. intros ys. apply issues_only_ret.
Qed.

Lemma issues_only_query allowed env db query args :
  allowed {| on_handle := db; sql_text := query; sql_args := args |} ->
  issues_only allowed (db_QueryContext env db query args).
Proof.
  intros Ha w. unfold db_QueryContext.
  destruct (QueryContext env w _); cbn [fst snd];
    (split; [discriminate |]);
    eexists [_]; (split; [reflexivity |]); now constructor.
Qed.

Lemma issues_only_exec allowed env db query args :
  allowed {| on_handle := db; sql_text := query; sql_args := args |} ->
  issues_only allowed (db_ExecContext env db query args).
Proof.
  intros Ha w. unfold db_ExecContext.
  destruct (ExecContext env w _); cbn [fst snd];
    (split; [discriminate |]);
    eexists [_]; (split; [reflexivity |]); now constructor.
Qed.

Lemma issues_only_bind_post {A B} allowed (R : A -> Prop)
    (m : M A) (k : A -> M B) :
  issues_only allowed m ->
  (forall w a w', m w = (Ok a, w') -> R a) ->
  (forall a, R a -> issues_only allowed (k a)) ->
  issues_only allowed (bind m k).
Proof.
  intros Hm HR Hk w. unfold bind.
  destruct (Hm w) as [Hp (new & Hi & Hf)].
  destruct (m w) as [[a | e | msg] w1] eqn:E; cbn [fst snd] in *.
  - destruct (Hk a (HR _ _ _ E) w1) as [Hp' (new' & Hi' & Hf')].
    split; [exact Hp' |].
    exists (new ++ new'). rewrite Hi', Hi, app_assoc.
    split; [reflexivity | now apply Forall_app].
  - split; [discriminate | now exists new].
  - now destruct (Hp msg).
Qed.

Lemma issues_only_weaken {A} (allowed allowed' : statement -> Prop) (m : M A) :
  (forall s, allowed s -> allowed' s) ->
  issues_only allowed m -> issues_only allowed' m.
Proof.
  intros Hw Hm w. destruct (Hm w) as [Hp (new & Hi & Hf)].
  split; [exact Hp |]. exists new. split; [exact Hi |].
  clear Hi. induction Hf; constructor; auto.
Qed.

Lemma prefix_append (p x : string) : String.prefix p (p +:+ x) = true.
Proof.
  induction p as [|c p IH]; [now destruct x |].
  rewrite append_cons. cbn [String.prefix].
  destruct (ascii_dec c c); [exact IH | congruence].
Qed.

Lemma prefix_append_r (p s t : string) :
  String.prefix p s = true -> String.prefix p (s +:+ t) = true.
Proof.
  revert s. induction p as [|c p IH]; intros s H; [now destruct (s +:+ t) |].
  destruct s as [|c' s]; [discriminate H |].
  rewrite append_cons. cbn [String.prefix] in *.
  destruct (ascii_dec c c'); [now apply IH | discriminate H].
Qed.

Lemma select_not_delete s : is_select s -> ~ is_delete s.
Proof.
  unfold is_select, is_delete. destruct (sql_text s) as [|c t]; [discriminate |].
  cbn [String.prefix]. destruct (ascii_dec "S" c) as [<- |]; [|discriminate].
  intros _. destruct (ascii_dec "D" "S"); [discriminate | discriminate].
Qed.

Lemma update_not_delete s : is_update s -> ~ is_delete s.
Proof.
  unfold is_update, is_delete. destruct (sql_text s) as [|c t]; [discriminate |].
  cbn [String.prefix]. destruct (ascii_dec "U" c) as [<- |]; [|discriminate].
  intros _. destruct (ascii_dec "D" "U"); [discriminate | discriminate].
Qed.

Section GetFacts.
Variable env : environment.
Context {T : Type} `{!Model T}.

(** Up to its statement [Get] issues nothing, and the statement is a
    SELECT. *)
Lemma Get_statement_quiet (c : Connection T) filters opts :
  issues_only (fun _ => False) (Get_statement env c filters opts).
Proof.
  unfold Get_statement.
  apply issues_only_bind; [apply issues_only_prepareFilters |].
  intros [[allFilters allVals] next].
  destruct (negb (String.eqb allFilters "")).
  - destruct opts as [o|]; [|apply issues_only_ret].
    apply issues_only_bind; [|intros q; apply issues_only_ret].
    destruct (negb (String.eqb (OrderColumn o) ""));
      [|apply issues_only_ret].
    destruct (OrderColumns c !! OrderColumn o);
      [apply issues_only_ret | apply issues_only_throw].
  - destruct opts as [o|]; [|apply issues_only_ret].
    apply issues_only_bind; [|intros q; apply issues_only_ret].
    destruct (negb (String.eqb (OrderColumn o) ""));
      [|apply issues_only_ret].
    destruct (OrderColumns c !! OrderColumn o);
      [apply issues_only_ret | apply issues_only_throw].
Qed.

Lemma Get_statement_select (c : Connection T) filters opts w query args w' :
  Get_statement env c filters opts w = (Ok (query, args), w') ->
  String.prefix "SELECT " query = true.
Proof.
  unfold Get_statement, bind, prepareFilters_logged.
  destruct (returned _) as [[allFilters allVals] next].
  set (cols := match opts with Some _ => _ | None => _ end).
  assert (String.prefix "SELECT " ("SELECT " +:+ cols +:+ " FROM " +:+ Table c)
          = true) as H0 by apply prefix_append.
  set (q0 := "SELECT " +:+ cols +:+ " FROM " +:+ Table c) in *.
  assert (exists q1 a1,
             (if negb (String.eqb allFilters "")
              then (q0 +:+ " WHERE " +:+ allFilters, allVals)
              else (q0, [])) = (q1, a1)
             /\ String.prefix "SELECT " q1 = true) as (q1 & a1 & -> & H1).
  { destruct (negb _); eexists _, _; (split; [reflexivity |]);
      [now apply prefix_append_r | exact H0]. }
  destruct opts as [o|]; [|intros [= <- <- <-]; exact H1].
  destruct (negb (String.eqb (OrderColumn o) "")).
  - destruct (OrderColumns c !! OrderColumn o); [|discriminate].
    cbn [ret]. intros [= <- <- <-].
    destruct (0 <? Limit o), (0 <? Offset o);
      repeat apply prefix_append_r; exact H1.
  - cbn [ret]. intros [= <- <- <-].
    destruct (0 <? Limit o), (0 <? Offset o);
      repeat apply prefix_append_r; exact H1.
Qed.
End GetFacts.

Section ReadFacts.
Variable env : environment.
Context {T : Type} `{!Model T}.

Lemma scanRow_quiet allowed (row : error + list value) :
  issues_only allowed (scanRow (T := T) row).
Proof.
  unfold scanRow. destruct row as [e | columns]; [apply issues_only_throw |].
  destruct (ScanFields_Scan columns);
    [apply issues_only_throw | apply issues_only_ret].
Qed.

(** Without relations to load, [Get] issues SELECT statements only and
    does not panic. *)
Lemma Get_without_relations (c : Connection T) filters opts :
  match opts with Some o => Relations o = [] | None => True end ->
  issues_only is_select (Get env c filters opts).
Proof.
  intros Hrel. unfold Get.
  apply (issues_only_bind_post _
           (fun qa => String.prefix "SELECT " (fst qa) = true)).
  - eapply issues_only_weaken; [|apply Get_statement_quiet]. intros s [].
  - intros w [q a] w' E. eapply Get_statement_select. exact E.
  - intros [query args] Hq. cbn [fst] in Hq.
    apply issues_only_bind; [apply issues_only_sql_debug |]. intros _.
    apply issues_only_bind.
    { apply issues_only_on_error, issues_only_query. exact Hq. }
    intros result.
    apply issues_only_bind.
    { apply issues_only_for_each. intros row. apply scanRow_quiet. }
    intros models.
    apply issues_only_bind.
    { destruct (rows_Err result);
        [apply issues_only_throw | apply issues_only_ret]. }
    intros _. destruct opts as [o|]; [|apply issues_only_ret].
    rewrite Hrel. cbn. apply issues_only_ret.
Qed.

Lemma GetOne_result_without_relations (c : Connection T) filters opts :
  match opts with Some o => Relations o = [] | None => True end ->
  issues_only is_select (GetOne_result env c filters opts).
Proof.
  intros Hrel w. unfold GetOne_result, GetOne.
  set (limited := match opts with
                  | Some o => set_Limit 1 o
                  | None => set_Limit 1 Options_zero
                  end).
  assert (Relations limited = []) as Hl
    by (subst limited; destruct opts; [exact Hrel | reflexivity]).
  destruct (Get_without_relations c filters (Some limited) Hl w)
    as [Hp (new & Hi & Hf)].
  destruct (Get env c filters (Some limited) w) as [[[|first rest] | e | msg] w'];
    cbn [fst snd] in *;
    try (split; [discriminate | now exists new]).
  now destruct (Hp msg).
Qed.

(** [Update] on a payload that is not nil issues an UPDATE, then at
    most a SELECT, and does not panic. *)
Lemma Update_exec_issues (c : Connection T) filters data :
  issues_only (fun s => is_update s \/ is_select s)
    (Update_exec env c filters data).
Proof.
  unfold Update_exec.
  destruct (set_parts _ 1) as [[setParts vals] items].
  apply issues_only_bind; [apply issues_only_prepareFilters |].
  intros [[allFilters allVals] next].
  assert (forall q v,
             String.prefix "UPDATE " q = true ->
             issues_only (fun s => is_update s \/ is_select s)
               (run sql_debug env q "SQL Values:" v ;;
                do _ <-
                  on_error
                    (fun err =>
                       if errors_Is_ErrNoRows err
                       then ErrNoDocumentsFound else err)
                    (db_ExecContext env (Conn c) q v) ;;
                GetOne_result env c filters None)) as Hrest.
  { intros q v Hq.
    apply issues_only_bind; [apply issues_only_sql_debug |]. intros _.
    apply issues_only_bind.
    { apply issues_only_on_error, issues_only_exec. left. exact Hq. }
    intros _. eapply issues_only_weaken;
      [|apply GetOne_result_without_relations; exact I].
    intros s Hs. now right. }
  destruct (negb (String.eqb allFilters "")); apply Hrest.
  - apply prefix_append_r, prefix_append.
  - apply prefix_append.
Qed.
End ReadFacts.

Section Claims.
Variable env : environment.
Context {T : Type} `{!Model T}.

(** C5.  When the options name an order column that is not among the
    repository's order columns, [Get] returns the invalid-order-column
    error and has issued no statement. *)
Theorem Get_rejects_unlisted_order_column (c : Connection T)
    (filters : GroupFilter) (o : Options) (w : world) :
  OrderColumn o <> ""%string ->
  OrderColumns c !! OrderColumn o = None ->
  fst (Get env c filters (Some o) w)
  = Err (Errorf ("invalid order column: " +:+ OrderColumn o))
  /\ issued (snd (Get env c filters (Some o) w)) = issued w.
Proof.
  intros Hset Hmissing.
  unfold Get, bind, Get_statement, bind, prepareFilters_logged.
  destruct (returned _) as [[allFilters allVals] next].
  apply String.eqb_neq in Hset.
  destruct (negb (String.eqb allFilters ""));
    rewrite Hset, Hmissing; cbn; split; reflexivity.
Qed.

(** With soft-delete configured, [Delete] reads the clock, calls
    [Update] with the payload [{deleted_at: now}], and returns nil
    whatever [Update] returned; the statements issued are those of
    [Update], an UPDATE and at most a SELECT, never a DELETE. *)
Lemma Delete_soft_delegates (c : Connection T) (filters : GroupFilter)
    (w : world) :
  soft_deletes c = true ->
  let updated :=
    Update env c filters
      (Some {["deleted_at"%string := VTime (time_Now env w)]}) (tick w) in
  Delete env c filters w = (Ok tt, snd (fst updated))
  /\ exists new,
       issued (snd (fst updated)) = issued w ++ new
       /\ Forall (fun s => (is_update s \/ is_select s) /\ ~ is_delete s) new.
Proof.
  intros Hsoft updated. unfold Delete. rewrite Hsoft.
  subst updated. unfold Update. cbn [gomap_delete].
  set (m := <["updated_at"%string := _]> _).
  destruct (Update_exec_issues env c (rewritten c filters) m (tick (tick w)))
    as [Hp (new & Hi & Hf)].
  destruct (Update_exec env c (rewritten c filters) m (tick (tick w)))
    as [[r | e | msg] w'] eqn:E; cbn [fst snd] in *.
  - split; [reflexivity |]. exists new. split; [exact Hi |].
    clear Hi. induction Hf as [|s l Hs Hl IH]; constructor; [|exact IH].
    split; [exact Hs |].
    destruct Hs; [now apply update_not_delete | now apply select_not_delete].
  - split; [reflexivity |]. exists new. split; [exact Hi |].
    clear Hi. induction Hf as [|s l Hs Hl IH]; constructor; [|exact IH].
    split; [exact Hs |].
    destruct Hs; [now apply update_not_delete | now apply select_not_delete].
  - now destruct (Hp msg).
Qed.
End Claims.

Section Frame.
Variable env : environment.
Context {T : Type} `{!Model T}.

Lemma Create_payload (c : Connection T) (m : gmap string value)
    (opts : option Options) (w : world) :
  snd (fst (Create env c (Some m) opts w))
  = match uuid_NewV7 env w with
    | inl _ => Some m
    | inr newUuid => Some (stamped opts newUuid (time_Now env (tick w)) m)
    end.
Proof.
  unfold Create, new_uuid, stamped.
  destruct (uuid_NewV7 env w) as [e | newUuid]; [reflexivity |].
  destruct (default true (TimestampsFields (default Options_zero opts)));
    cbv zeta;
    match goal with
    | |- context [Create_insert env c ?d ?w0] =>
        destruct (Create_insert env c d w0)
    end; reflexivity.
Qed.

Lemma Update_payload (c : Connection T) (filters : GroupFilter)
    (m : gmap string value) (w : world) :
  snd (Update env c filters (Some m) w)
  = Some (<["updated_at"%string := VTime (time_Now env w)]>
            (delete "created_at"%string (delete "id"%string m))).
Proof.
  unfold Update. cbn [gomap_delete].
  match goal with
  | |- context [Update_exec env c ?f ?d ?w0] =>
      destruct (Update_exec env c f d w0)
  end. reflexivity.
Qed.

Lemma GetOne_options (c : Connection T) (filters : GroupFilter)
    (o : Options) (w : world) :
  snd (GetOne env c filters (Some o) w) = Some (set_Limit 1 o).
Proof.
  unfold GetOne.
  destruct (Get env c filters (Some (set_Limit 1 o)) w)
    as [[[|first rest] | e | msg] w']; reflexivity.
Qed.

(** [Create] also fills in the three defaults of options that are not
    nil. *)
Lemma Create_options (c : Connection T) (data : gomap) (o : Options)
    (w : world) (newUuid : string) :
  uuid_NewV7 env w = inr newUuid ->
  snd (Create env c data (Some o) w)
  = Some {| Columns := Columns o; Limit := Limit o; Offset := Offset o;
            OrderColumn := OrderColumn o; OrderDir := OrderDir o;
            Relations := Relations o;
            PrimaryKey := Some (default "id"%string (PrimaryKey o));
            InsertPrimaryKey := Some (default true (InsertPrimaryKey o));
            TimestampsFields := Some (default true (TimestampsFields o)) |}.
Proof.
  intros Hu. unfold Create, new_uuid. rewrite Hu.
  change (default Options_zero (Some o)) with o.
  destruct data as [m|].
  - destruct (default true (TimestampsFields o)); cbv zeta;
      match goal with
      | |- context [Create_insert env c ?d ?w0] =>
          destruct (Create_insert env c d w0)
      end; reflexivity.
  - destruct (default true (InsertPrimaryKey o)); [reflexivity |].
    destruct (default true (TimestampsFields o)); [reflexivity |].
    destruct (Create_insert env c None (tick w)). reflexivity.
Qed.

(** Nil options stay nil. *)
Lemma Create_nil_options (c : Connection T) (data : gomap) (w : world) :
  snd (Create env c data None w) = None.
Proof.
  unfold Create, new_uuid.
  destruct (uuid_NewV7 env w) as [e | newUuid]; [reflexivity |].
  change (default Options_zero None) with Options_zero.
  cbn [InsertPrimaryKey TimestampsFields Options_zero default].
  destruct data as [m|]; [|reflexivity].
  cbv zeta.
  match goal with
  | |- context [Create_insert env c ?d ?w0] =>
      destruct (Create_insert env c d w0)
  end. reflexivity.
Qed.

(** C9.  [Create], [Update] and [GetOne] write through the references
    they are given.  After [Create] the caller's map holds the generated
    key under the primary-key column and the time under [created_at] and
    [updated_at] (each as the options ask, both by default; nothing when
    no UUID could be generated), and the caller's options, when not nil,
    have [PrimaryKey], [InsertPrimaryKey] and [TimestampsFields] set to
    the values in force (untouched when no UUID could be generated);
    after [Update] the map has lost [id] and [created_at] and holds the
    time under [updated_at]; after [GetOne] the caller's options have
    [Limit = 1].  Every other key of the map and every other field of the
    options is as before. *)
Theorem inputs_are_mutated_in_place (c : Connection T)
    (filters : GroupFilter) (m : gmap string value)
    (opts : option Options) (o : Options) (w : world) :
  (* Create, the payload *)
  (exists after : gmap string value,
      snd (fst (Create env c (Some m) opts w)) = Some after
      /\ (forall newUuid, uuid_NewV7 env w = inr newUuid ->
          after = stamped opts newUuid (time_Now env (tick w)) m)
      /\ (opts = None -> forall newUuid, uuid_NewV7 env w = inr newUuid ->
          after !! "id"%string = Some (VString newUuid)
          /\ after !! "created_at"%string
             = Some (VTime (time_Now env (tick w)))
          /\ after !! "updated_at"%string
             = Some (VTime (time_Now env (tick w))))
      /\ (forall k,
            k <> default "id"%string (PrimaryKey (default Options_zero opts)) ->
            k <> "created_at"%string -> k <> "updated_at"%string ->
            after !! k = m !! k))
  (* Create, the options *)
  /\ (forall data : gomap,
        snd (Create env c data None w) = None
        /\ exists after : Options,
             snd (Create env c data (Some o) w) = Some after
             /\ match uuid_NewV7 env w with
                | inl _ => after = o
                | inr _ =>
                    PrimaryKey after
                    = Some (default "id"%string (PrimaryKey o))
                    /\ InsertPrimaryKey after
                       = Some (default true (InsertPrimaryKey o))
                    /\ TimestampsFields after
                       = Some (default true (TimestampsFields o))
                end
             /\ Columns after = Columns o /\ Limit after = Limit o
             /\ Offset after = Offset o
             /\ OrderColumn after = OrderColumn o
             /\ OrderDir after = OrderDir o
             /\ Relations after = Relations o)
  (* Update *)
  /\ (exists after : gmap string value,
        snd (Update env c filters (Some m) w) = Some after
        /\ after !! "id"%string = None
        /\ after !! "created_at"%string = None
        /\ after !! "updated_at"%string = Some (VTime (time_Now env w))
        /\ (forall k,
              k <> "id"%string -> k <> "created_at"%string ->
              k <> "updated_at"%string -> after !! k = m !! k))
  (* GetOne *)
  /\ (exists after : Options,
        snd (GetOne env c filters (Some o) w) = Some after
        /\ Limit after = 1
        /\ Columns after = Columns o /\ Offset after = Offset o
        /\ OrderColumn after = OrderColumn o /\ OrderDir after = OrderDir o
        /\ Relations after = Relations o /\ PrimaryKey after = PrimaryKey o
        /\ InsertPrimaryKey after = InsertPrimaryKey o
        /\ TimestampsFields after = TimestampsFields o).
Proof.
  split; [|split; [|split]].
  - rewrite Create_payload.
    destruct (uuid_NewV7 env w) as [e | newUuid].
    + exists m. split; [reflexivity |].
      split; [discriminate |]. split; [discriminate |]. reflexivity.
    + eexists. split; [reflexivity |].
      split; [now intros ? [= <-] |]. split.
      * intros -> ? [= <-]. unfold stamped. cbn [default Options_zero
          InsertPrimaryKey TimestampsFields PrimaryKey].
        now simplify_map_eq.
      * intros k Hpk Hc Hu. unfold stamped.
        destruct (default true (TimestampsFields _)),
                 (default true (InsertPrimaryKey _));
          now simplify_map_eq.
  - intros data. split.
    + apply Create_nil_options.
    + destruct (uuid_NewV7 env w) as [e | newUuid] eqn:Hu.
      * exists o. split; [|repeat split].
        unfold Create, new_uuid. now rewrite Hu.
      * eexists. split; [exact (Create_options c data o w newUuid Hu) |].
        repeat split.
  - rewrite Update_payload. eexists. split; [reflexivity |].
    repeat split; try (now simplify_map_eq).
    intros k Hid Hc Hu. now simplify_map_eq.
  - rewrite GetOne_options. eexists. split; [reflexivity |].
    repeat split.
Qed.
End Frame.

(** C9, as worded, has [Create] leave the options of its caller alone;
    on the permissions repository it fills in the three defaults of
    [models.Options{}]. *)
Lemma Create_fills_in_the_options :
  ~ Create_leaves_the_options one_row_env permissions_repo (Some ∅)
      Options_zero empty_world.
Proof. unfold Create_leaves_the_options. vm_compute. discriminate. Qed.

(** ** Loading relations onto no parents *)

Section NoParents.
Variable env : environment.
Context {T : Type} `{!Model T}.

Lemma sql_debug_ok query label args w :
  fst (sql_debug env query label args w) = Ok tt
  /\ issued (snd (sql_debug env query label args w)) = issued w.
Proof. unfold sql_debug. now destruct (SQL_DEBUG env). Qed.

Lemma load_relations_no_parents (loaders : gmap string (RelationLoader T))
    (relations : list string) :
  (forall name loader,
      loaders !! name = Some loader -> returns_on_no_parents loader) ->
  forall w, snd (load_relations loaders relations [] w) = w.
Proof.
  intros Hl. unfold load_relations.
  induction relations as [|relation rest IH]; intros w; [reflexivity |].
  cbn [fold_each]. unfold bind at 1.
  destruct (relation_path relation) as [name childs].
  destruct (loaders !! name) as [loader|] eqn:E; [|reflexivity].
  unfold on_error. rewrite (Hl name loader E (Some childs) w).
  apply IH.
Qed.

(** C8.  Each of the three loaders returns at once, without a
    statement, when it is given no parents; and a [Get] whose primary
    query yields no rows issues that query and nothing else, whatever
    relations the options ask for. *)
Theorem Get_no_rows_no_relation_query (c : Connection T)
    (filters : GroupFilter) (opts : option Options) (w w1 : world)
    (query : string) (args : list value) (rerr : option error) :
  (forall loaders name loader,
      RelationLoaders c = Some loaders ->
      loaders !! name = Some loader -> returns_on_no_parents loader) ->
  Get_statement env c filters opts w = (Ok (query, args), w1) ->
  QueryContext env (snd (sql_debug env query "SQL Args:" args w1))
    {| on_handle := Conn c; sql_text := query; sql_args := args |}
  = inr {| rows := []; rows_Err := rerr |} ->
  issued (snd (Get env c filters opts w))
  = issued w
    ++ [{| on_handle := Conn c; sql_text := query; sql_args := args |}]
  /\ (forall C `(!Model C) `(!Container T C) (l : OnetoManyLoader C),
        returns_on_no_parents (OnetoManyLoader_Load env (P := T) l))
  /\ (forall C `(!Model C) `(!Container T C) (l : ManyToManyLoader C),
        returns_on_no_parents (ManyToManyLoader_Load env (P := T) l))
  /\ (forall C `(!Model C) `(!Container T C) (l : OnetoOneLoader C),
        returns_on_no_parents (OnetoOneLoader_Load (P := T) l)).
Proof.
  intros Hloaders Hstmt Hquery.
  split; [|repeat split].
  destruct (Get_statement_quiet env c filters opts w)
    as [_ (new & Hi & Hf)].
  rewrite Hstmt in Hi. cbn [snd] in Hi.
  destruct new as [|s new]; [|now inversion Hf]. rewrite app_nil_r in Hi.
  unfold Get. unfold bind at 1. rewrite Hstmt. unfold bind at 1.
  destruct (sql_debug_ok query "SQL Args:" args w1) as [Hok Hsame].
  destruct (sql_debug env query "SQL Args:" args w1) as [r w2].
  cbn [fst snd] in *. subst r.
  unfold bind at 1, on_error, db_QueryContext. rewrite Hquery.
  cbn [rows rows_Err for_each]. unfold bind at 1. cbn [ret].
  unfold bind at 1.
  destruct rerr as [e|]; cbn [throw ret];
    [cbn; now rewrite Hsame, Hi |].
  destruct opts as [o|]; [|cbn; now rewrite Hsame, Hi].
  destruct (0 <? length (Relations o))%nat; [|cbn; now rewrite Hsame, Hi].
  destruct (RelationLoaders c) as [loaders|] eqn:El;
    [|cbn; now rewrite Hsame, Hi].
  rewrite load_relations_no_parents
    by (intros name loader; now apply Hloaders).
  cbn. now rewrite Hsame, Hi.
Qed.
End NoParents.

(** ** The claims on the small database *)

Lemma Get_rejects_unlisted_order_column_witness :
  OrderColumn (order_by "name; DROP TABLE users") <> ""%string
  /\ OrderColumns (users_repo one_row_env)
       !! OrderColumn (order_by "name; DROP TABLE users") = None
  /\ fst (Get one_row_env (users_repo one_row_env) by_id
            (Some (order_by "name; DROP TABLE users")) empty_world)
     = Err (Errorf "invalid order column: name; DROP TABLE users")
  /\ issued (snd (Get one_row_env (users_repo one_row_env) by_id
                    (Some (order_by "name; DROP TABLE users")) empty_world))
     = [].
Proof.
  split; [discriminate |]. split; [reflexivity |].
  apply (Get_rejects_unlisted_order_column one_row_env
           (users_repo one_row_env) by_id
           (order_by "name; DROP TABLE users") empty_world).
  - discriminate.
  - reflexivity.
Defined.

Example Get_orders_by_listed_column :
  map sql_text
    (issued (snd (Get one_row_env (users_repo one_row_env) by_id
                    (Some (order_by "id")) empty_world)))
  = ["SELECT * FROM users WHERE id = $1 AND (deleted_at IS NULL) ORDER BY id DESC"%string].
Proof. vm_compute. reflexivity. Qed.

(** [Update] fails, [Delete] reports success; the one statement issued is
    the UPDATE. *)
Example Delete_soft_swallows_the_error :
  fst (fst (Update failing_env (users_repo failing_env) by_id
              (Some {["deleted_at"%string := VTime 1000]}) (tick empty_world)))
  = Err (ErrDriver "pq: connection refused")
  /\ fst (Delete failing_env (users_repo failing_env) by_id empty_world)
     = Ok tt
  /\ map sql_text
       (issued (snd (Delete failing_env (users_repo failing_env) by_id
                       empty_world)))
     = ["UPDATE users SET updated_at = $1, deleted_at = $2 WHERE id = $3 AND (deleted_at IS NULL)"%string].
Proof. vm_compute. repeat split. Qed.

Example Delete_soft_issues_update_and_select :
  map sql_text
    (issued (snd (Delete one_row_env (users_repo one_row_env) by_id
                    empty_world)))
  = ["UPDATE users SET updated_at = $1, deleted_at = $2 WHERE id = $3 AND (deleted_at IS NULL)"%string;
     "SELECT * FROM users WHERE id = $1 AND (deleted_at IS NULL) AND (deleted_at IS NULL) LIMIT 1"%string].
Proof. vm_compute. reflexivity. Qed.

Example Delete_hard_issues_delete :
  Delete one_row_env (roles_repo one_row_env) by_id empty_world
  = (Ok tt,
     {| issued := [{| on_handle := 0%nat;
                      sql_text := "DELETE FROM roles WHERE id = $1";
                      sql_args := [VInt 7] |}];
        log_output := []; clock_reads := 0 |}).
Proof. vm_compute. reflexivity. Qed.

Lemma Get_no_rows_no_relation_query_witness :
  let c := sessions_repo no_rows_env in
  let opts := Some (with_relations ["user.roles.permissions"%string]) in
  let primary :=
    {| on_handle := 0%nat; sql_text := "SELECT * FROM sessions";
       sql_args := [] |} in
  (forall loaders name loader,
      RelationLoaders c = Some loaders ->
      loaders !! name = Some loader -> returns_on_no_parents loader)
  /\ Get_statement no_rows_env c (Build_GroupFilter [] "") opts empty_world
     = (Ok ("SELECT * FROM sessions"%string, []), empty_world)
  /\ QueryContext no_rows_env empty_world primary
     = inr {| rows := []; rows_Err := None |}
  /\ issued (snd (Get no_rows_env c (Build_GroupFilter [] "") opts
                    empty_world))
     = [primary].
Proof.
  intros c opts primary.
  assert (forall loaders name loader,
             RelationLoaders c = Some loaders ->
             loaders !! name = Some loader -> returns_on_no_parents loader)
    as Hloaders.
  { intros loaders name loader [= <-] Hl.
    apply lookup_singleton_Some in Hl as [_ <-].
    intros childs w. reflexivity. }
  split; [exact Hloaders |]. split; [reflexivity |]. split; [reflexivity |].
  apply (Get_no_rows_no_relation_query no_rows_env c (Build_GroupFilter [] "")
           opts empty_world empty_world "SELECT * FROM sessions" [] None
           Hloaders eq_refl eq_refl).
Defined.

(** ** Dotted relation paths *)

Lemma strings_Split_segments (s : string) (sep : ascii) :
  Forall (fun segment => strings_Contains segment sep = false)
    (strings_Split s sep).
Proof.
  induction s as [|c rest IH]; cbn [strings_Split].
  - now constructor.
  - destruct (Ascii.eqb c sep) eqn:E.
    + constructor; [reflexivity | exact IH].
    + destruct (strings_Split rest sep) as [|segment segments].
      * constructor; [|constructor]. cbn. now rewrite E.
      * inversion IH as [|? ? Hhead Htail]; subst.
        constructor; [|exact Htail]. cbn. now rewrite E.
Qed.

(** What [Get] hands to the loader of a dotted relation is the list of
    the segments after the first, none of which has a dot. *)
Lemma relation_path_dotted (relation : string) :
  strings_Contains relation "." = true ->
  exists head tail,
    strings_Split relation "." = head :: tail
    /\ relation_path relation = (head, tail)
    /\ Relations (child_options (Some tail)) = tail
    /\ Forall (fun segment => strings_Contains segment "." = false) tail.
Proof.
  intros Hdot. unfold relation_path. rewrite Hdot.
  pose proof (strings_Split_segments relation ".") as Hseg.
  destruct (strings_Split relation ".") as [|head tail] eqn:E.
  - destruct relation as [|c rest]; [discriminate E |].
    cbn [strings_Split] in E.
    destruct (Ascii.eqb c "."); [discriminate E |].
    destruct (strings_Split rest "."); discriminate E.
  - exists head, tail. repeat split.
    + unfold child_options. now destruct tail.
    + now inversion Hseg.
Qed.

(** C1, on the code.  For the relation [user.roles.permissions] the
    loader of [user] is given the two names [roles] and [permissions],
    and hands both to the users repository as two relations of its own.
    On the README's schema the users repository loads [roles] without
    their permissions and then fails to find a relation [permissions];
    given the single path [roles.permissions] it hydrates both levels. *)
Theorem dotted_tail_is_split_for_the_child :
  relation_path "user.roles.permissions"
  = ("user"%string, ["roles"; "permissions"]%string)
  /\ Relations (child_options (Some ["roles"; "permissions"]%string))
     = ["roles"; "permissions"]%string
  /\ (let r :=
        Get one_row_env (sessions_repo one_row_env) (Build_GroupFilter [] "")
          (Some (with_relations ["user.roles.permissions"%string]))
          empty_world in
      fst r
      = Err (Errorw "failed to load relation user: "
               (Errorw "failed to load child model: "
                  (Errorf "relation loader not found for relation: permissions")))
      /\ map sql_text (issued (snd r))
         = ["SELECT * FROM sessions";
            "SELECT * FROM users WHERE id = $1 AND (deleted_at IS NULL) LIMIT 1";
            "SELECT user_id, role_id FROM roles_users WHERE user_id IN ($1)";
            "SELECT * FROM roles WHERE Id IN ($1)"]%string)
  /\ (let r :=
        Get one_row_env (users_repo one_row_env) (Build_GroupFilter [] "")
          (Some (with_relations ["roles.permissions"%string])) empty_world in
      (exists users, fst r = Ok users)
      /\ map sql_text (issued (snd r))
         = ["SELECT * FROM users WHERE deleted_at IS NULL";
            "SELECT user_id, role_id FROM roles_users WHERE user_id IN ($1)";
            "SELECT * FROM roles WHERE Id IN ($1)";
            "SELECT * FROM permissions WHERE owner_id IN ($1)"]%string).
Proof.
  split; [reflexivity |]. split; [reflexivity |]. split.
  - vm_compute. split; reflexivity.
  - vm_compute. split; [eexists; reflexivity | reflexivity].
Qed.

(** ** Raw values in [Update] *)

(** Every entry of the payload becomes [key = $i], and its value, raw or
    not, becomes a bound argument. *)
Lemma set_parts_binds_every_value (entries : list (string * value)) :
  forall items,
    let '(setParts, vals, _) := set_parts entries items in
    vals = map snd entries
    /\ Forall2
         (fun part entry => exists i, part = fst entry +:+ " = $" +:+ fmt_d i)
         setParts entries.
Proof.
  induction entries as [|[k v] rest IH]; intros items; cbn [set_parts].
  - split; [reflexivity | constructor].
  - specialize (IH (int_add items 1)).
    destruct (set_parts rest (int_add items 1)) as [[setParts vals] next].
    destruct IH as [Hv Hp]. split.
    + cbn [map snd]. now rewrite Hv.
    + constructor; [now exists items | exact Hp].
Qed.

(** C4, on the code.  [Update] treats a value wrapped as [RawSQL] like
    any other: for the payload [{position: RawSQL("position + 1"),
    name: "x"}] the SET clause has [position = $3], and the wrapped text
    travels as the third argument. *)
Theorem Update_binds_raw_values :
  let payload : gmap string value :=
    {["position"%string := VRawSQL "position + 1";
      "name"%string := VString "x"]} in
  let r := Update one_row_env (roles_repo one_row_env) by_id (Some payload)
             empty_world in
  head (issued (snd (fst r)))
  = Some {| on_handle := 0%nat;
            sql_text :=
              "UPDATE roles SET updated_at = $1, name = $2, position = $3 WHERE id = $4";
            sql_args :=
              [VTime 1000; VString "x"; VRawSQL "position + 1"; VInt 7] |}
  /\ forall (entries : list (string * value)) (items : Z),
       snd (fst (set_parts entries items)) = map snd entries.
Proof.
  split; [vm_compute; reflexivity |].
  intros entries items.
  pose proof (set_parts_binds_every_value entries items) as H.
  destruct (set_parts entries items) as [[setParts vals] next].
  exact (proj1 H).
Qed.

(** ** More runs on the small database *)

(** Scenario 1 of the specification, on a repository without
    soft-delete. *)
Example scenario_limit :
  map sql_text
    (issued (snd (Get one_row_env (roles_repo one_row_env) active_users
                    (Some (set_Limit 10 Options_zero)) empty_world)))
  = ["SELECT * FROM roles WHERE status = $1 LIMIT 10"%string].
Proof. vm_compute. reflexivity. Qed.

Example Create_issues_insert :
  let r :=
    Create one_row_env (roles_repo one_row_env)
      (Some {["name"%string := VString "example"; "age"%string := VInt 30]})
      None empty_world in
  issued (snd (fst (fst r)))
  = [{| on_handle := 0%nat;
        sql_text :=
          "INSERT INTO roles (created_at, updated_at, id, age, name) VALUES ($1, $2, $3, $4, $5) RETURNING *";
        sql_args :=
          [VTime 1001; VTime 1001;
           VString "0190163d-8694-739b-aea5-966c26f8ad91";
           VInt 30; VString "example"] |}]
  /\ map (fun k => snd (fst r) ≫= lookup k)
       ["id"; "created_at"; "updated_at"; "name"; "age"; "email"]%string
     = [Some (VString "0190163d-8694-739b-aea5-966c26f8ad91");
        Some (VTime 1001); Some (VTime 1001);
        Some (VString "example"); Some (VInt 30); None].
Proof. split; vm_compute; reflexivity. Qed.

Example Update_strips_and_stamps :
  let after :=
    snd (Update one_row_env (roles_repo one_row_env) by_id
           (Some {["id"%string := VInt 9; "created_at"%string := VTime 1;
                   "name"%string := VString "x"]}) empty_world) in
  map (fun k => after ≫= lookup k)
    ["id"; "created_at"; "updated_at"; "name"]%string
  = [None; None; Some (VTime 1000); Some (VString "x")].
Proof. vm_compute. reflexivity. Qed.

Example Count_scans_one_value :
  fst (Count one_row_env (users_repo one_row_env) active_users empty_world)
  = Ok 1
  /\ map sql_text
       (issued (snd (Count one_row_env (users_repo one_row_env) active_users
                       empty_world)))
     = ["SELECT COUNT(*) FROM users WHERE status = $1 AND (deleted_at IS NULL)"%string].
Proof. vm_compute. split; reflexivity. Qed.

(** * More properties of the driver *)

(** ** The arguments of the compiler, in tree order *)

Lemma tree_args_eq (fs : list FilterAny) (op : string) :
  tree_args (Build_GroupFilter fs op)
  = concat (map (member_args tree_args) fs).
Proof.
  cbn [tree_args]. induction fs as [|x fs IH]; [reflexivity |].
  cbn [map concat]. now rewrite IH.
Qed.

Lemma vals_step_member op st x :
  (forall g, x = AnyGroup g ->
     forall m, vals (prepareFilters_run g m) = tree_args g) ->
  vals (step op st x) = vals st ++ member_args tree_args x.
Proof.
  intros Hsub. destruct x as [f|mf|g|v]; cbn [prepareFilters_step member_args].
  - destruct (negb _ && _ && _ && _).
    + rewrite vals_emit.
      assert (0 < Builder_Len
                [Lit (Filter_Key f +:+ " " +:+
                      default "="%string (Filter_Comparator f) +:+ " ");
                 Placeholder (counter st)])%nat as Hlen.
      { apply Builder_Len_lit. repeat apply append_not_empty_r. discriminate. }
      apply Nat.ltb_lt in Hlen. now rewrite Hlen.
    + destruct (_ || _); [cbn [vals]; now rewrite app_nil_r |].
      rewrite vals_emit. destruct (0 <? _)%nat; now rewrite app_nil_r.
  - destruct (_ || _).
    + destruct (multi_values_spec (Multi_Values mf) 1
                  [Lit (Multi_Key mf +:+ " " +:+
                        default "IN"%string (Multi_Comparator mf) +:+ " (")]
                  [] (counter st)) as (tail & c' & E & _).
      rewrite E. cbv beta iota. rewrite vals_emit.
      assert (0 < Builder_Len
                (([Lit (Multi_Key mf +:+ " " +:+
                        default "IN"%string (Multi_Comparator mf) +:+ " (")]
                  ++ tail) ++ [Lit ")"]))%nat as Hlen.
      { cbn [app]. apply Builder_Len_lit.
        repeat apply append_not_empty_r. discriminate. }
      apply Nat.ltb_lt in Hlen. now rewrite Hlen.
    + rewrite vals_emit. cbn. now rewrite app_nil_r.
  - rewrite <- (Hsub g eq_refl (counter st)).
    pose proof (args_need_text_run g (counter st)) as Htext.
    set (sub := prepareFilters_run g (counter st)) in *.
    rewrite eqb_empty_length.
    change (String.length (Builder_String (queryBuilder sub)))
      with (Builder_Len (queryBuilder sub)).
    destruct (0 <? Builder_Len (queryBuilder sub))%nat eqn:E.
    + rewrite vals_emit.
      assert (0 < Builder_Len ([Lit "("] ++ queryBuilder sub ++ [Lit ")"]))%nat
        as Hlen by (apply Builder_Len_lit; discriminate).
      apply Nat.ltb_lt in Hlen. now rewrite Hlen.
    + apply Nat.ltb_ge in E. rewrite vals_emit. cbn.
      rewrite Htext by lia. now rewrite app_nil_r.
  - rewrite vals_emit. cbn. now rewrite app_nil_r.
Qed.

Lemma vals_fold_members op (l : list FilterAny) :
  (forall g, In (AnyGroup g) l ->
     forall m, vals (prepareFilters_run g m) = tree_args g) ->
  forall st,
    vals (fold_left (step op) l st)
    = vals st ++ concat (map (member_args tree_args) l).
Proof.
  induction l as [|x l IH]; intros Hsub st.
  - cbn. now rewrite app_nil_r.
  - cbn [fold_left map concat]. rewrite IH by (intros g Hg; apply Hsub; now right).
    rewrite vals_step_member by (intros g ->; apply Hsub; now left).
    now rewrite app_assoc.
Qed.

(** X1.  The arguments [prepareFilters] returns are the values of the
    tree read left to right: one per single-value filter whose comparator
    takes a value, the values of each multi-value filter with [IN] or
    [NOT IN], those of a nested group in its place; they do not depend on
    the starting index. *)
Theorem prepareFilters_args_in_tree_order (filters : GroupFilter) (n : Z) :
  snd (fst (prepareFilters filters n)) = tree_args filters.
Proof.
  unfold prepareFilters, returned. cbn [fst snd]. revert n.
  induction filters as [fs op IH] using GroupFilter_nested_ind.
  intros n. rewrite prepareFilters_run_eq, tree_args_eq.
  rewrite vals_fold_members; [reflexivity |].
  intros g Hg m. apply IH. exact Hg.
Qed.

Lemma empty_fragment_no_args (filters : GroupFilter) (n : Z) :
  fst (fst (prepareFilters filters n)) = ""%string ->
  snd (fst (prepareFilters filters n)) = [].
Proof.
  unfold prepareFilters, returned. cbn [fst snd]. intros H.
  apply args_need_text_run. unfold Builder_Len. now rewrite H.
Qed.

(** X2.  A fragment that is empty comes with no argument: what a caller
    drops when it leaves out the WHERE clause is nothing. *)
Theorem prepareFilters_empty_fragment_no_args (filters : GroupFilter) (n : Z) :
  fst (fst (prepareFilters filters n)) = ""%string ->
  snd (fst (prepareFilters filters n)) = [].
Proof.
  unfold prepareFilters, returned. cbn [fst snd]. intros Hempty.
  pose proof (args_need_text_run filters n) as Htext.
  unfold args_need_text, Builder_Len in Htext.
  apply Htext. rewrite Hempty. reflexivity.
Qed.

Lemma prepareFilters_empty_fragment_no_args_witness :
  fst (fst (prepareFilters
              (Build_GroupFilter
                 [single "role" (Some ComparatorIn) (VString "admin");
                  AnyGroup (Build_GroupFilter [] "OR")] "") 1))
  = ""%string
  /\ snd (fst (prepareFilters
                 (Build_GroupFilter
                    [single "role" (Some ComparatorIn) (VString "admin");
                     AnyGroup (Build_GroupFilter [] "OR")] "") 1))
     = [].
Proof.
  split; [reflexivity |].
  apply (prepareFilters_empty_fragment_no_args
           (Build_GroupFilter
              [single "role" (Some ComparatorIn) (VString "admin");
               AnyGroup (Build_GroupFilter [] "OR")] "") 1).
  reflexivity.
Defined.

(** ** Members the compiler passes over *)

Lemma step_passed_over op st x :
  passed_over x = true -> step op st x = st.
Proof.
  intros H. destruct x as [f|mf|g|v]; cbn [passed_over] in H;
    try discriminate H; cbn [prepareFilters_step].
  - apply negb_true_iff in H. rewrite H.
    unfold emit. cbn. rewrite app_nil_r. now destruct st.
  - unfold emit. cbn. rewrite app_nil_r. now destruct st.
Qed.

(** X3.  A member of a type the compiler does not know (a pointer to a
    filter, say) and a multi-value filter whose comparator is neither
    [IN] nor [NOT IN] are passed over: the fragment, the arguments, the
    counter and the log of the group are those of the group without the
    member. *)
Theorem unknown_members_are_passed_over (before after : list FilterAny)
    (operator : string) (x : FilterAny) (n : Z) :
  passed_over x = true ->
  prepareFilters_run (Build_GroupFilter (before ++ x :: after) operator) n
  = prepareFilters_run (Build_GroupFilter (before ++ after) operator) n.
Proof.
  intros H. rewrite !prepareFilters_run_eq, !fold_left_app.
  cbn [fold_left]. now rewrite step_passed_over.
Qed.

Lemma unknown_members_are_passed_over_witness :
  let x := AnyMultiple {| Multi_Key := "age"; Multi_Values := [VInt 18];
                          Multi_Comparator := Some ComparatorGreaterThan |} in
  passed_over x = true
  /\ prepareFilters_run
       (Build_GroupFilter ([single "id" None (VInt 2)] ++ x :: [AnyOther VNil])
          "") 1
     = prepareFilters_run
         (Build_GroupFilter ([single "id" None (VInt 2)] ++ [AnyOther VNil])
            "") 1.
Proof.
  intros x. split; [reflexivity |].
  apply (unknown_members_are_passed_over [single "id" None (VInt 2)]
           [AnyOther VNil] "" x 1).
  reflexivity.
Defined.

(** ** One dollar sign per argument *)

(** X4.  When no key, comparator or operator of the tree contains a [$],
    the text of the fragment has exactly as many [$] as there are
    arguments, whatever the starting index and however large the counter
    grows. *)
Theorem fragment_has_one_dollar_per_argument (filters : GroupFilter) (n : Z) :
  plain_text filters ->
  count_dollar (fst (fst (prepareFilters filters n)))
  = length (snd (fst (prepareFilters filters n))).
Proof.
  intros Hplain. unfold prepareFilters, returned. cbn [fst snd].
  apply (dollar_per_argument_run filters Hplain n).
Qed.

Lemma fragment_has_one_dollar_per_argument_witness :
  plain_text nested_example
  /\ count_dollar (fst (fst (prepareFilters nested_example 5)))
     = length (snd (fst (prepareFilters nested_example 5))).
Proof.
  assert (plain_text nested_example) as H by (cbn; tauto).
  split; [exact H |].
  apply (fragment_has_one_dollar_per_argument nested_example 5 H).
Defined.

(** ** Siblings compile one after the other *)

Lemma glue_empty_r op a : glue op a "" = a.
Proof. reflexivity. Qed.

Lemma glue_empty_l op b : glue op "" b = b.
Proof. unfold glue. now destruct b. Qed.

Lemma glue_not_empty_r op a b : b <> ""%string -> glue op a b <> ""%string.
Proof.
  intros Hb. unfold glue. apply String.eqb_neq in Hb as Hb'. rewrite Hb'.
  destruct (String.eqb a ""); [exact Hb |].
  repeat apply append_not_empty_r. exact Hb.
Qed.

Lemma glue_not_empty_l op a b : a <> ""%string -> glue op a b <> ""%string.
Proof.
  intros Ha. unfold glue. apply String.eqb_neq in Ha as Ha'.
  destruct (String.eqb b ""); [exact Ha |]. rewrite Ha'.
  intros E. apply append_eq_empty in E. tauto.
Qed.

Lemma glue_assoc op a b c : glue op (glue op a b) c = glue op a (glue op b c).
Proof.
  destruct (String.eqb_spec c "") as [-> | Hc]; [now rewrite !glue_empty_r |].
  destruct (String.eqb_spec b "") as [-> | Hb];
    [now rewrite glue_empty_r, glue_empty_l |].
  destruct (String.eqb_spec a "") as [-> | Ha]; [now rewrite !glue_empty_l |].
  pose proof (glue_not_empty_r op a b Hb) as Hab.
  pose proof (glue_not_empty_r op b c Hc) as Hbc.
  assert (forall x y, x <> ""%string -> y <> ""%string ->
            glue op x y
            = x +:+ " " +:+ (if String.eqb op "" then OperatorAnd else op)
              +:+ " " +:+ y) as G.
  { intros x y Hx Hy. unfold glue.
    apply String.eqb_neq in Hx, Hy. now rewrite Hx, Hy. }
  rewrite (G (glue op a b) c), (G a (glue op b c)), (G a b), (G b c)
    by assumption.
  now rewrite !append_assoc.
Qed.

Lemma text_emit op st parts cv c lines :
  Builder_String (queryBuilder (emit op st parts cv c lines))
  = glue op (Builder_String (queryBuilder st)) (Builder_String parts).
Proof.
  unfold emit, glue.
  rewrite <- (negb_involutive (String.eqb (Builder_String parts) "")).
  rewrite <- (negb_involutive
                (String.eqb (Builder_String (queryBuilder st)) "")).
  rewrite !eqb_empty_length.
  change (String.length (Builder_String parts)) with (Builder_Len parts).
  change (String.length (Builder_String (queryBuilder st)))
    with (Builder_Len (queryBuilder st)).
  destruct (0 <? Builder_Len parts)%nat; cbn [negb queryBuilder];
    [|reflexivity].
  destruct (0 <? Builder_Len (queryBuilder st))%nat eqn:E; cbn [negb].
  - rewrite !Builder_String_app.
    change (Builder_String
              [Lit (" " +:+ (if String.eqb op "" then OperatorAnd else op)
                    +:+ " ")])
      with ((" " +:+ (if String.eqb op "" then OperatorAnd else op) +:+ " ")
            +:+ "").
    now rewrite !append_assoc, !append_empty_l.
  - apply Nat.ltb_ge in E. rewrite Builder_String_app.
    unfold Builder_Len in E.
    destruct (Builder_String (queryBuilder st)); [reflexivity |].
    simpl in E. lia.
Qed.

Lemma emit_continues op st c0 parts cv c lines :
  continues op st (emit op (start c0) parts cv c lines)
    (emit op st parts cv c lines).
Proof.
  unfold continues.
  rewrite !text_emit, !vals_emit, !counter_emit, !logged_emit.
  cbn [start queryBuilder vals logged Builder_String app].
  rewrite glue_empty_l.
  destruct (0 <? Builder_Len parts)%nat; now rewrite ?app_nil_r.
Qed.

Lemma step_continues op st x :
  continues op st (step op (start (counter st)) x) (step op st x).
Proof.
  destruct x as [f|mf|g|v]; cbn [prepareFilters_step start counter].
  - destruct (negb _ && _ && _ && _); [apply emit_continues |].
    destruct (_ || _); [|apply emit_continues].
    unfold continues.
    cbn [start queryBuilder vals counter logged Builder_String app].
    rewrite glue_empty_r, app_nil_r. auto.
  - destruct (_ || _); [|apply emit_continues].
    destruct (multi_values _ _ _ _ _) as [[parts cv] c'].
    apply emit_continues.
  - destruct (negb _); apply emit_continues.
  - apply emit_continues.
Qed.

Lemma fold_continues op (l : list FilterAny) :
  forall st,
    continues op st (fold_left (step op) l (start (counter st)))
      (fold_left (step op) l st).
Proof.
  induction l as [|x l IH]; intros st.
  - unfold continues.
    cbn [fold_left start queryBuilder vals counter logged Builder_String].
    rewrite glue_empty_r, !app_nil_r. auto.
  - cbn [fold_left].
    destruct (step_continues op st x) as (Ht & Hv & Hc & Hl).
    destruct (IH (step op st x)) as (Ht1 & Hv1 & Hc1 & Hl1).
    destruct (IH (step op (start (counter st)) x)) as (Ht0 & Hv0 & Hc0 & Hl0).
    rewrite Hc in *.
    unfold continues.
    rewrite Ht1, Ht, Ht0, Hv1, Hv, Hv0, Hc1, Hc0, Hl1, Hl, Hl0.
    now rewrite glue_assoc, !app_assoc.
Qed.

(** X5.  Siblings compile in order, each from the counter the one before
    it left: the fragment of a group [a ++ b] is the fragment of [a] and
    the fragment of [b] compiled from the index [a] returned, joined by
    the operator of the group when both are non-empty (never a leading or
    trailing operator); the arguments are those of [a] followed by those
    of [b]. *)
Theorem siblings_compile_in_order (a b : list FilterAny) (operator : string)
    (n : Z) :
  let left := prepareFilters (Build_GroupFilter a operator) n in
  0 < snd left ->
  let right := prepareFilters (Build_GroupFilter b operator) (snd left) in
  prepareFilters (Build_GroupFilter (a ++ b) operator) n
  = (glue operator (fst (fst left)) (fst (fst right)),
     snd (fst left) ++ snd (fst right), snd right).
Proof.
  intros left Hpos right. subst left right.
  unfold prepareFilters, returned in *. cbn [fst snd] in *.
  rewrite (prepareFilters_run_eq b), (prepareFilters_run_eq (a ++ b)).
  rewrite fold_left_app, <- prepareFilters_run_eq.
  set (sa := prepareFilters_run (Build_GroupFilter a operator) n) in *.
  replace (counter sa <=? 0) with false by (symmetry; apply Z.leb_gt; lia).
  destruct (fold_continues operator b sa) as (Ht & Hv & Hc & _).
  now rewrite Ht, Hv, Hc.
Qed.

Lemma siblings_compile_in_order_witness :
  let a := [single "id" None (VInt 2); AnyOther VNil] in
  let b := [AnyGroup (Build_GroupFilter [] "OR");
            single "age" (Some ComparatorGreaterThan) (VInt 18)] in
  0 < snd (prepareFilters (Build_GroupFilter a "OR") 1)
  /\ prepareFilters (Build_GroupFilter (a ++ b) "OR") 1
     = ("id = $1 OR age > $2"%string, [VInt 2; VInt 18], 3).
Proof.
  intros a b. split; [reflexivity |].
  exact (siblings_compile_in_order a b "OR" 1 ltac:(reflexivity)).
Defined.

(** ** The soft-delete rewrite applied twice *)

Lemma tombstone_step op d st :
  let st' := step op st (AnyGroup (tombstone d)) in
  Builder_String (queryBuilder st')
  = glue op (Builder_String (queryBuilder st)) ("(" +:+ d +:+ " IS NULL)")
  /\ vals st' = vals st
  /\ counter st' = (if counter st <=? 0 then 1 else counter st)
  /\ logged st' = logged st.
Proof.
  cbn [prepareFilters_step]. rewrite tombstone_run.
  cbn [queryBuilder vals counter logged].
  change (Builder_String [Lit (d +:+ " IS NULL")])
    with ((d +:+ " IS NULL") +:+ "").
  rewrite append_empty_r.
  replace (negb (String.eqb (d +:+ " IS NULL") ""))
    with true by (now destruct d).
  rewrite text_emit, vals_emit, counter_emit, logged_emit.
  assert ((0 <? Builder_Len ([Lit "("] ++ [Lit (d +:+ " IS NULL")] ++ [Lit ")"]))%nat
          = true)
    as Hlen by (apply Nat.ltb_lt, Builder_Len_lit; discriminate).
  rewrite Hlen, !app_nil_r.
  change (Builder_String ([Lit "("] ++ [Lit (d +:+ " IS NULL")] ++ [Lit ")"]))
    with ("(" +:+ (d +:+ " IS NULL") +:+ ")" +:+ "").
  rewrite !append_assoc, !append_empty_r. auto.
Qed.

Lemma rewritten_once_facts (d : string) (filters : GroupFilter) (n : Z) :
  d <> ""%string ->
  let once := prepareSoftDelete (Some d) filters in
  (0 <? length (Filters once))%nat = true
  /\ Builder_String (queryBuilder (prepareFilters_run once n)) <> ""%string
  /\ 0 < counter (prepareFilters_run once n).
Proof.
  intros Hd once. subst once. rewrite prepareSoftDelete_eq by exact Hd.
  destruct filters as [fs op]. cbn [Filters Operator].
  destruct (0 <? length fs)%nat eqn:E.
  - cbn [Filters]. split.
    { apply Nat.ltb_lt. rewrite length_app. cbn. lia. }
    rewrite prepareFilters_run_eq, fold_left_app. cbn [fold_left].
    destruct (tombstone_step op d
                (fold_left (step op) fs (start (if n <=? 0 then 1 else n))))
      as (Ht & _ & Hc & _).
    rewrite Ht, Hc. split.
    + apply glue_not_empty_r. discriminate.
    + destruct (counter _ <=? 0) eqn:Ec; [lia | apply Z.leb_gt in Ec; lia].
  - rewrite tombstone_run. cbn [queryBuilder counter Filters tombstone length].
    split; [reflexivity |]. split.
    + change (Builder_String [Lit (d +:+ " IS NULL")])
        with ((d +:+ " IS NULL") +:+ "").
      rewrite append_empty_r. now destruct d.
    + destruct (n <=? 0) eqn:Ec; [lia | apply Z.leb_gt in Ec; lia].
Qed.

(** X6.  The soft-delete rewrite is not idempotent: rewriting a filter
    that is already rewritten (as [Update] does when it re-reads the row
    through [GetOne]) adds the tombstone test a second time, joined by the
    operator of the group; the arguments and the next index are
    unchanged. *)
Theorem soft_delete_rewrite_twice (d : string) (filters : GroupFilter) (n : Z) :
  d <> ""%string ->
  let once := prepareSoftDelete (Some d) filters in
  prepareFilters (prepareSoftDelete (Some d) once) n
  = (fst (fst (prepareFilters once n)) +:+ " "
     +:+ (if String.eqb (Operator once) "" then OperatorAnd else Operator once)
     +:+ " (" +:+ d +:+ " IS NULL)",
     snd (fst (prepareFilters once n)), snd (prepareFilters once n)).
Proof.
  intros Hd once.
  destruct (rewritten_once_facts d filters n Hd) as (Hlen & Htext & Hpos).
  fold once in Hlen, Htext, Hpos.
  rewrite (prepareSoftDelete_eq d once Hd), Hlen.
  destruct once as [fs op]. cbn [Filters Operator].
  unfold prepareFilters, returned. cbn [fst snd].
  rewrite (prepareFilters_run_eq (fs ++ _)), fold_left_app.
  rewrite <- prepareFilters_run_eq. cbn [fold_left].
  set (st := prepareFilters_run (Build_GroupFilter fs op) n) in *.
  destruct (tombstone_step op d st) as (Ht & Hv & Hc & _).
  rewrite Ht, Hv, Hc.
  replace (counter st <=? 0) with false by (symmetry; apply Z.leb_gt; lia).
  f_equal. f_equal. unfold glue.
  apply String.eqb_neq in Htext. rewrite Htext.
  replace (String.eqb ("(" +:+ d +:+ " IS NULL)") "") with false
    by reflexivity.
  change (" (" +:+ d +:+ " IS NULL)") with (" " +:+ "(" +:+ d +:+ " IS NULL)").
  reflexivity.
Qed.

Lemma soft_delete_rewrite_twice_witness :
  "deleted_at"%string <> ""%string
  /\ prepareFilters
       (prepareSoftDelete (Some "deleted_at"%string)
          (prepareSoftDelete (Some "deleted_at"%string) active_users)) 1
     = ("status = $1 AND (deleted_at IS NULL) AND (deleted_at IS NULL)"%string,
        [VString "active"], 2).
Proof.
  split; [discriminate |].
  exact (soft_delete_rewrite_twice "deleted_at" active_users 1
           ltac:(discriminate)).
Defined.

(** ** What the reads issue *)

Lemma quiet_run {A} (m : M A) (w : world) :
  issues_only (fun _ => False) m ->
  issued (snd (m w)) = issued w /\ forall msg, fst (m w) <> Panic msg.
Proof.
  intros H. destruct (H w) as [Hp (new & Hi & Hf)].
  split; [|exact Hp].
  destruct new as [|s new]; [now rewrite app_nil_r in Hi | now inversion Hf].
Qed.

Lemma bind_eq {A B} (m : M A) (k : A -> M B) (w : world) :
  bind m k w
  = match m w with
    | (Ok a, w') => k a w'
    | (Err e, w') => (Err e, w')
    | (Panic msg, w') => (Panic msg, w')
    end.
Proof. reflexivity. Qed.

Lemma where_clause_text (q fragment : string) :
  (if negb (String.eqb fragment "") then q +:+ " WHERE " +:+ fragment else q)
  = q +:+ (if String.eqb fragment "" then "" else " WHERE " +:+ fragment).
Proof.
  destruct (String.eqb fragment ""); cbn [negb];
    [now rewrite append_empty_r | reflexivity].
Qed.

Section ReadExtras.
Variable env : environment.
Context {T : Type} `{!Model T}.

Lemma Get_statement_error (c : Connection T) filters opts w e w' :
  Get_statement env c filters opts w = (Err e, w') ->
  exists o,
    opts = Some o /\ OrderColumn o <> ""%string
    /\ e = Errorf ("invalid order column: " +:+ OrderColumn o).
Proof.
  unfold Get_statement, bind, prepareFilters_logged.
  destruct (returned _) as [[allFilters allVals] next].
  destruct (negb (String.eqb allFilters ""));
    (destruct opts as [o|]; [|discriminate]);
    (destruct (negb (String.eqb (OrderColumn o) "")) eqn:Eo;
     [|discriminate]);
    (destruct (OrderColumns c !! OrderColumn o); [discriminate |]);
    intros [= <- <-]; exists o;
    (split; [reflexivity |]); (split; [|reflexivity]);
    intros E; rewrite E in Eo; discriminate Eo.
Qed.

Lemma Get_statement_limit (c : Connection T) filters o w q a w' :
  Get_statement env c filters (Some o) w = (Ok (q, a), w') ->
  0 < Limit o ->
  exists q0,
    q = q0 +:+ " LIMIT " +:+ fmt_d (Limit o)
        +:+ (if 0 <? Offset o then " OFFSET " +:+ fmt_d (Offset o) else "").
Proof.
  intros E Hl. apply Z.ltb_lt in Hl.
  revert E. unfold Get_statement, bind, prepareFilters_logged.
  destruct (returned _) as [[allFilters allVals] next].
  rewrite Hl.
  destruct (negb (String.eqb allFilters ""));
    (destruct (negb (String.eqb (OrderColumn o) ""));
     [destruct (OrderColumns c !! OrderColumn o); [|discriminate] |]);
    cbn [ret]; intros [= <- <- <-]; eexists;
    (destruct (0 <? Offset o);
     [rewrite append_assoc; reflexivity
     | rewrite append_empty_r; reflexivity]).
Qed.

(** Without relations to load, [Get] issues the statement it built on
    its own handle and nothing else. *)
Lemma Get_primary (c : Connection T) filters opts w :
  match opts with Some o => Relations o = [] | None => True end ->
  (forall msg, fst (Get env c filters opts w) <> Panic msg)
  /\ match Get_statement env c filters opts w with
     | (Ok (q, a), _) =>
         issued (snd (Get env c filters opts w))
         = issued w
           ++ [{| on_handle := Conn c; sql_text := q; sql_args := a |}]
     | (Err e, w1) =>
         Get env c filters opts w = (Err e, w1) /\ issued w1 = issued w
     | (Panic _, _) => False
     end.
Proof.
  intros Hrel.
  destruct (quiet_run (Get_statement env c filters opts) w
              (Get_statement_quiet env c filters opts)) as [Hi Hp].
  unfold Get. rewrite bind_eq.
  destruct (Get_statement env c filters opts w) as [[[q a] | e | msg] w1];
    cbn [fst snd] in *;
    [| split; [discriminate | now split] | now destruct (Hp msg)].
  rewrite bind_eq.
  destruct (sql_debug_ok env q "SQL Args:" a w1) as [Hok Hsame].
  destruct (sql_debug env q "SQL Args:" a w1) as [r w2].
  cbn [fst snd] in *. subst r.
  rewrite bind_eq. unfold on_error, db_QueryContext.
  destruct (QueryContext env w2 _) as [e | result].
  { cbn. rewrite Hsame, Hi. split; [discriminate | reflexivity]. }
  match goal with
  | |- context [bind (for_each ?b ?l) ?k (issue ?s ?w0)] =>
      destruct (quiet_run (bind (for_each b l) k) (issue s w0))
        as [Hi2 Hp2]
  end.
  { apply issues_only_bind.
    { apply issues_only_for_each. intros row. apply scanRow_quiet. }
    intros models. apply issues_only_bind.
    { destruct (rows_Err result);
        [apply issues_only_throw | apply issues_only_ret]. }
    intros _. destruct opts as [o|]; [|apply issues_only_ret].
    rewrite Hrel. cbn. apply issues_only_ret. }
  split; [exact Hp2 |]. rewrite Hi2. cbn. now rewrite Hsame, Hi.
Qed.

(** X7.  Without relations to load, [Get] never panics and issues at
    most one statement: none when it rejects the order column, otherwise
    exactly one SELECT, on the repository's own handle. *)
Theorem Get_without_relations_issues_one_select (c : Connection T)
    (filters : GroupFilter) (opts : option Options) (w : world) :
  match opts with Some o => Relations o = [] | None => True end ->
  (forall msg, fst (Get env c filters opts w) <> Panic msg)
  /\ ((exists column,
          fst (Get env c filters opts w)
          = Err (Errorf ("invalid order column: " +:+ column))
          /\ issued (snd (Get env c filters opts w)) = issued w)
      \/ exists s,
           issued (snd (Get env c filters opts w)) = issued w ++ [s]
           /\ on_handle s = Conn c /\ is_select s).
Proof.
  intros Hrel. destruct (Get_primary c filters opts w Hrel) as [Hp Hs].
  split; [exact Hp |].
  destruct (Get_statement env c filters opts w) as [[[q a] | e | msg] w1] eqn:E;
    [| | destruct Hs].
  - right. eexists. split; [exact Hs |]. split; [reflexivity |].
    eapply Get_statement_select. exact E.
  - left. destruct Hs as [-> Hi].
    destruct (Get_statement_error c filters opts w e w1 E) as (o & _ & _ & ->).
    exists (OrderColumn o). now split.
Qed.

Lemma Get_no_rows (c : Connection T) filters opts w :
  match opts with Some o => Relations o = [] | None => True end ->
  (forall w0 s, QueryContext env w0 s = inr {| rows := []; rows_Err := None |}) ->
  fst (Get env c filters opts w) = Ok []
  \/ exists column,
       fst (Get env c filters opts w)
       = Err (Errorf ("invalid order column: " +:+ column)).
Proof.
  intros Hrel Hq. unfold Get. rewrite bind_eq.
  destruct (Get_statement env c filters opts w) as [[[q a] | e | msg] w1] eqn:E.
  - left. rewrite bind_eq.
    destruct (sql_debug_ok env q "SQL Args:" a w1) as [Hok _].
    destruct (sql_debug env q "SQL Args:" a w1) as [r w2].
    cbn [fst] in Hok. subst r.
    rewrite bind_eq. unfold on_error, db_QueryContext. rewrite Hq.
    cbn [rows rows_Err for_each]. rewrite bind_eq. cbn [ret].
    rewrite bind_eq. cbn [ret].
    destruct opts as [o|]; [|reflexivity]. now rewrite Hrel.
  - right.
    destruct (Get_statement_error c filters opts w e w1 E) as (o & _ & _ & ->).
    now exists (OrderColumn o).
  - destruct (quiet_run (Get_statement env c filters opts) w
                (Get_statement_quiet env c filters opts)) as [_ Hp].
    rewrite E in Hp. now destruct (Hp msg).
Qed.

(** X8.  [GetOne] reads at most one row whatever limit its caller set:
    without relations to load it never panics, and the one statement it
    issues (none when the order column is rejected) ends in [LIMIT 1],
    followed only by the caller's OFFSET; when the database has no row
    for it, it returns [ErrNoDocumentsFound]. *)
Theorem GetOne_reads_one_row (c : Connection T) (filters : GroupFilter)
    (opts : option Options) (w : world) :
  match opts with Some o => Relations o = [] | None => True end ->
  let offset :=
    match opts with
    | Some o =>
        if 0 <? Offset o then " OFFSET " +:+ fmt_d (Offset o) else ""%string
    | None => ""%string
    end in
  let result := GetOne_result env c filters opts w in
  (forall msg, fst result <> Panic msg)
  /\ ((exists column,
          fst result = Err (Errorf ("invalid order column: " +:+ column))
          /\ issued (snd result) = issued w)
      \/ exists q0 args,
           issued (snd result)
           = issued w
             ++ [{| on_handle := Conn c;
                    sql_text := q0 +:+ " LIMIT 1" +:+ offset;
                    sql_args := args |}])
  /\ ((forall w0 s,
         QueryContext env w0 s = inr {| rows := []; rows_Err := None |}) ->
      fst result = Err ErrNoDocumentsFound
      \/ exists column,
           fst result = Err (Errorf ("invalid order column: " +:+ column))).
Proof.
  intros Hrel offset result. subst result.
  unfold GetOne_result, GetOne.
  set (limited := match opts with
                  | Some o => set_Limit 1 o
                  | None => set_Limit 1 Options_zero
                  end).
  assert (Relations limited = []) as Hl
    by (subst limited; destruct opts; [exact Hrel | reflexivity]).
  assert (offset
          = if 0 <? Offset limited
            then " OFFSET " +:+ fmt_d (Offset limited) else ""%string) as Eo
    by (subst offset limited; destruct opts; reflexivity).
  destruct (Get_primary c filters (Some limited) w Hl) as [Hp Hs].
  pose proof (Get_no_rows c filters (Some limited) w Hl) as Hn.
  destruct (Get_statement env c filters (Some limited) w)
    as [[[q a] | e | msg] w1] eqn:E; [| | destruct Hs].
  - assert (Limit limited = 1) as Hlim
      by (subst limited; destruct opts; reflexivity).
    destruct (Get_statement_limit c filters limited w q a w1 E)
      as (q0 & Eq); [rewrite Hlim; lia |].
    rewrite Hlim in Eq.
    change (" LIMIT " +:+ fmt_d 1 +:+ ?x) with (" LIMIT 1" +:+ x) in Eq.
    destruct (Get env c filters (Some limited) w)
      as [[[|first rest] | e | msg] w']; cbn [fst snd] in *;
      try (now destruct (Hp msg));
      (split; [discriminate |]);
      (split; [right; exists q0, a; rewrite Hs, Eq, Eo; reflexivity |]);
      intros Hq; destruct (Hn Hq) as [H1 | (column & H1)];
      try discriminate H1; try (now left);
      right; exists column; now injection H1 as ->.
  - destruct Hs as [-> Hi]. cbn [fst snd].
    destruct (Get_statement_error c filters (Some limited) w e w1 E)
      as (o & _ & _ & ->).
    split; [discriminate |]. split.
    + left. now exists (OrderColumn o).
    + intros _. right. now exists (OrderColumn o).
Qed.

(** X9.  [Count] counts what [Get] selects: both compile the same
    (soft-delete rewritten) filter from index 1 and bind the same
    arguments; [Count] issues exactly one statement, the one of [Get]
    without options with [COUNT( * )] for the column list, and never
    panics. *)
Theorem Count_counts_what_Get_selects (c : Connection T)
    (filters : GroupFilter) (w : world) :
  let fragment := fst (fst (prepareFilters (rewritten c filters) 1)) in
  let args := snd (fst (prepareFilters (rewritten c filters) 1)) in
  let clause :=
    if String.eqb fragment "" then ""%string else " WHERE " +:+ fragment in
  fst (Get_statement env c filters None w)
  = Ok ("SELECT * FROM " +:+ Table c +:+ clause, args)
  /\ issued (snd (Count env c filters w))
     = issued w
       ++ [{| on_handle := Conn c;
              sql_text := "SELECT COUNT(*) FROM " +:+ Table c +:+ clause;
              sql_args := args |}]
  /\ forall msg, fst (Count env c filters w) <> Panic msg.
Proof.
  intros fragment args clause.
  pose proof (empty_fragment_no_args (rewritten c filters) 1) as Hnil.
  fold fragment in Hnil. fold args in Hnil.
  assert ((if negb (String.eqb fragment "") then args else []) = args) as Ha.
  { destruct (String.eqb_spec fragment ""); cbn [negb]; [|reflexivity].
    symmetry. now apply Hnil. }
  split; [|split].
  - unfold Get_statement. rewrite bind_eq. unfold prepareFilters_logged.
    change (returned (prepareFilters_run (rewritten c filters) 1))
      with (prepareFilters (rewritten c filters) 1).
    destruct (prepareFilters (rewritten c filters) 1) as [[f a] next].
    cbn [fst snd] in *. subst fragment args clause.
    destruct (String.eqb f ""); cbn [negb ret fst].
    + rewrite append_empty_r. cbn in Ha. now rewrite <- Ha.
    + now rewrite append_assoc.
  - unfold Count. rewrite bind_eq. unfold prepareFilters_logged.
    change (returned (prepareFilters_run (rewritten c filters) 1))
      with (prepareFilters (rewritten c filters) 1).
    destruct (prepareFilters (rewritten c filters) 1) as [[f a] next].
    cbn [fst snd] in *. subst fragment args clause.
    assert (forall q v w0,
               issued w0 = issued w ->
               issued (snd ((run sql_debug env q "SQL Args:" v ;;
                    do row <- db_QueryRowContext env (Conn c) q v ;;
                    match row with
                    | inl err => throw err
                    | inr [VInt count] => ret count
                    | inr _ => throw (ErrDriver "sql: Scan error")
                    end) w0))
               = issued w ++ [{| on_handle := Conn c; sql_text := q;
                                 sql_args := v |}]) as Hrest.
    { intros q v w0 Hw0. rewrite bind_eq.
      destruct (sql_debug_ok env q "SQL Args:" v w0) as [Hok Hsame].
      destruct (sql_debug env q "SQL Args:" v w0) as [r w2].
      cbn [fst snd] in *. subst r.
      rewrite bind_eq. unfold db_QueryRowContext.
      destruct (QueryRowContext env w2 _) as [e | [|[] [|]]];
        cbn; now rewrite Hsame, Hw0. }
    destruct (String.eqb f ""); cbn [negb].
    + rewrite Hrest by reflexivity. rewrite append_empty_r.
      cbn in Ha. now rewrite <- Ha.
    + rewrite Hrest by reflexivity. now rewrite append_assoc.
  - intros msg. unfold Count. rewrite bind_eq. unfold prepareFilters_logged.
    destruct (returned _) as [[f a] next].
    destruct (negb (String.eqb f "")); rewrite bind_eq;
      match goal with
      | |- context [sql_debug env ?q ?l ?v ?w0] =>
          destruct (sql_debug_ok env q l v w0) as [Hok _];
          destruct (sql_debug env q l v w0) as [r w2];
          cbn [fst] in Hok; subst r
      end;
      rewrite bind_eq; unfold db_QueryRowContext;
      destruct (QueryRowContext env w2 _) as [e | [|[] [|]]];
      discriminate.
Qed.
End ReadExtras.

Lemma Get_without_relations_issues_one_select_witness :
  let r := Get one_row_env (users_repo one_row_env) by_id None empty_world in
  (forall msg, fst r <> Panic msg)
  /\ ((exists column,
          fst r = Err (Errorf ("invalid order column: " +:+ column))
          /\ issued (snd r) = issued empty_world)
      \/ exists s,
           issued (snd r) = issued empty_world ++ [s]
           /\ on_handle s = Conn (users_repo one_row_env) /\ is_select s).
Proof.
  exact (Get_without_relations_issues_one_select one_row_env
           (users_repo one_row_env) by_id None empty_world I).
Defined.

Lemma GetOne_reads_one_row_witness :
  let result :=
    GetOne_result no_rows_env (users_repo no_rows_env) by_id
      (Some (order_by "id")) empty_world in
  (forall msg, fst result <> Panic msg)
  /\ ((exists column,
          fst result = Err (Errorf ("invalid order column: " +:+ column))
          /\ issued (snd result) = issued empty_world)
      \/ exists q0 args,
           issued (snd result)
           = issued empty_world
             ++ [{| on_handle := Conn (users_repo no_rows_env);
                    sql_text := q0 +:+ " LIMIT 1" +:+ "";
                    sql_args := args |}])
  /\ ((forall w0 s,
         QueryContext no_rows_env w0 s
         = inr {| rows := []; rows_Err := None |}) ->
      fst result = Err ErrNoDocumentsFound
      \/ exists column,
           fst result = Err (Errorf ("invalid order column: " +:+ column))).
Proof.
  exact (GetOne_reads_one_row no_rows_env (users_repo no_rows_env) by_id
           (Some (order_by "id")) empty_world eq_refl).
Defined.

(** ** Relations that cannot be loaded *)

Section RelationExtras.
Variable env : environment.
Context {T : Type} `{!Model T}.

(** X10.  A repository whose loader map is nil ignores the relations
    of the options: [Get] returns what it returns without them, and no
    error is raised for names it cannot load. *)
Theorem Get_without_loaders_ignores_relations (c : Connection T)
    (filters : GroupFilter) (o : Options) (relations : list string)
    (w : world) :
  RelationLoaders c = None ->
  Get env c filters (Some (set_Relations relations o)) w
  = Get env c filters (Some o) w.
Proof.
  intros Hnil. unfold Get.
  change (Get_statement env c filters (Some (set_Relations relations o)))
    with (Get_statement env c filters (Some o)).
  rewrite !bind_eq.
  destruct (Get_statement env c filters (Some o) w)
    as [[[q a] | e | msg] w1]; try reflexivity.
  rewrite !bind_eq.
  destruct (sql_debug env q "SQL Args:" a w1) as [[[] | e | msg] w2];
    try reflexivity.
  rewrite !bind_eq.
  destruct (on_error _ _ w2) as [[result | e | msg] w3]; try reflexivity.
  rewrite !bind_eq.
  destruct (for_each _ _ w3) as [[models | e | msg] w4]; try reflexivity.
  rewrite !bind_eq.
  destruct (rows_Err result); cbn [throw ret]; [reflexivity |].
  rewrite Hnil. cbn [Relations set_Relations].
  now destruct (0 <? length relations)%nat, (0 <? length (Relations o))%nat.
Qed.

(** X11.  A relation name without a loader is reported only after the
    primary query has run and its rows are scanned: [Get] leaves the world
    as the same [Get] without relations does, statement included, and
    turns its success into the relation-loader-not-found error for the
    head of the first path; relations after it are not looked at. *)
Theorem Get_reports_unknown_relation_after_reading (c : Connection T)
    (filters : GroupFilter) (o : Options) (relation : string)
    (rest : list string) (loaders : gmap string (RelationLoader T))
    (w : world) :
  RelationLoaders c = Some loaders ->
  loaders !! fst (relation_path relation) = None ->
  Get env c filters (Some (set_Relations (relation :: rest) o)) w
  = match Get env c filters (Some (set_Relations [] o)) w with
    | (Ok _, w') =>
        (Err (Errorf ("relation loader not found for relation: "
                      +:+ fst (relation_path relation))), w')
    | r => r
    end.
Proof.
  intros Hl Hmissing. unfold Get.
  change (Get_statement env c filters
            (Some (set_Relations (relation :: rest) o)))
    with (Get_statement env c filters (Some o)).
  change (Get_statement env c filters (Some (set_Relations [] o)))
    with (Get_statement env c filters (Some o)).
  rewrite !bind_eq.
  destruct (Get_statement env c filters (Some o) w)
    as [[[q a] | e | msg] w1]; try reflexivity.
  rewrite !bind_eq.
  destruct (sql_debug env q "SQL Args:" a w1) as [[[] | e | msg] w2];
    try reflexivity.
  rewrite !bind_eq.
  destruct (on_error _ _ w2) as [[result | e | msg] w3]; try reflexivity.
  rewrite !bind_eq.
  destruct (for_each _ _ w3) as [[models | e | msg] w4]; try reflexivity.
  rewrite !bind_eq.
  destruct (rows_Err result); cbn [throw ret]; [reflexivity |].
  rewrite Hl. cbn [Relations set_Relations length Nat.ltb Nat.leb].
  unfold load_relations. cbn [fold_each]. rewrite bind_eq.
  destruct (relation_path relation) as [name childs]. cbn [fst] in *.
  match goal with
  | |- context [match ?x with Some _ => _ | None => _ end w4] =>
      replace x with (@None (RelationLoader T)) by (symmetry; exact Hmissing)
  end.
  reflexivity.
Qed.
End RelationExtras.

Lemma Get_without_loaders_ignores_relations_witness :
  RelationLoaders permissions_repo = None
  /\ Get one_row_env permissions_repo by_id
       (Some (set_Relations ["roles"%string] Options_zero)) empty_world
     = Get one_row_env permissions_repo by_id (Some Options_zero) empty_world.
Proof.
  split; [reflexivity |].
  exact (Get_without_loaders_ignores_relations one_row_env permissions_repo
           by_id Options_zero ["roles"%string] empty_world eq_refl).
Defined.

Lemma Get_reports_unknown_relation_after_reading_witness :
  exists loaders,
    RelationLoaders (roles_repo one_row_env) = Some loaders
    /\ loaders !! fst (relation_path "users.sessions") = None
    /\ Get one_row_env (roles_repo one_row_env) by_id
         (Some (set_Relations ["users.sessions"; "permissions"]%string
                  Options_zero)) empty_world
       = match Get one_row_env (roles_repo one_row_env) by_id
                 (Some (set_Relations [] Options_zero)) empty_world with
         | (Ok _, w') =>
             (Err (Errorf ("relation loader not found for relation: "
                           +:+ fst (relation_path "users.sessions"))), w')
         | r => r
         end.
Proof.
  eexists. split; [reflexivity |].
  assert (({["permissions"%string :=
               OnetoManyLoader_Load one_row_env (P := entity)
                 {| OnetoMany_Repository :=
                      as_Repository one_row_env permissions_repo;
                    OnetoMany_ParentField := "Id";
                    OnetoMany_ChildFkField := "owner_id";
                    OnetoMany_ContainerField := "Permissions" |}]}
            : gmap string (RelationLoader entity))
          !! fst (relation_path "users.sessions") = None) as Hmissing
    by reflexivity.
  split; [exact Hmissing |].
  exact (Get_reports_unknown_relation_after_reading one_row_env
           (roles_repo one_row_env) by_id Options_zero "users.sessions"
           ["permissions"%string] _ empty_world eq_refl Hmissing).
Defined.

Example unknown_relation_after_the_query :
  let r :=
    Get one_row_env (roles_repo one_row_env) by_id
      (Some (with_relations ["users.sessions"%string])) empty_world in
  fst r = Err (Errorf "relation loader not found for relation: users")
  /\ map sql_text (issued (snd r)) = ["SELECT * FROM roles WHERE id = $1"%string].
Proof. split; reflexivity. Qed.

(** ** What the writes issue *)

Lemma dense_cons n k : dense n (S k) = n :: dense (n + 1) k.
Proof.
  change (S k) with (1 + k)%nat. now rewrite dense_app, dense_one.
Qed.

Lemma insert_parts_spec (entries : list (string * value)) :
  forall n,
    int_min <= n -> n + Z.of_nat (length entries) <= int_max ->
    insert_parts entries n
    = (map fst entries, map snd entries,
       map (fun i => "$" +:+ fmt_d i) (dense n (length entries))).
Proof.
  induction entries as [|[k v] rest IH]; intros n Hmin Hmax; [reflexivity |].
  cbn [insert_parts length] in *.
  rewrite int_add_exact by (unfold int_min, int_max in *; lia).
  rewrite IH by (unfold int_min in *; lia).
  now rewrite dense_cons.
Qed.

Lemma set_parts_spec (entries : list (string * value)) :
  forall n,
    int_min <= n -> n + Z.of_nat (length entries) <= int_max ->
    set_parts entries n
    = (map (fun ki => fst ki +:+ " = $" +:+ fmt_d (snd ki))
         (combine (map fst entries) (dense n (length entries))),
       map snd entries, n + Z.of_nat (length entries)).
Proof.
  induction entries as [|[k v] rest IH]; intros n Hmin Hmax.
  - cbn. f_equal. lia.
  - cbn [set_parts length] in *.
    rewrite int_add_exact by (unfold int_min, int_max in *; lia).
    rewrite IH by (unfold int_min in *; lia).
    rewrite dense_cons. cbn [map combine fst snd]. f_equal. lia.
Qed.

Lemma combine_fst_snd {A B} (l : list (A * B)) :
  combine (map fst l) (map snd l) = l.
Proof. induction l as [|[a b] l IH]; [reflexivity |]. cbn. now rewrite IH. Qed.

Section WriteExtras.
Variable env : environment.
Context {T : Type} `{!Model T}.

Lemma range_length (m : gmap string value) :
  length (map_range env m) = size m.
Proof.
  rewrite (Permutation_length (map_range_perm env m)).
  now rewrite length_map_to_list.
Qed.

(** X12.  Without soft-delete [Delete] issues exactly one statement,
    [DELETE FROM table] with the compiled filter as its WHERE clause and
    its arguments; when the filter compiles to nothing there is no WHERE
    clause and the statement addresses every row.  A driver error is
    returned as it is, and zero rows affected is [ErrNoDocumentsFound]. *)
Theorem Delete_hard_issues_one_delete (c : Connection T)
    (filters : GroupFilter) (w : world) :
  soft_deletes c = false ->
  let fragment := fst (fst (prepareFilters filters 1)) in
  let s :=
    {| on_handle := Conn c;
       sql_text :=
         "DELETE FROM " +:+ Table c
         +:+ (if String.eqb fragment "" then ""%string
              else " WHERE " +:+ fragment);
       sql_args := snd (fst (prepareFilters filters 1)) |} in
  issued (snd (Delete env c filters w)) = issued w ++ [s]
  /\ exists w0,
       issued w0 = issued w
       /\ fst (Delete env c filters w)
          = match ExecContext env w0 s with
            | inl e => Err e
            | inr (inl e) => Err e
            | inr (inr numRows) =>
                if numRows =? 0 then Err ErrNoDocumentsFound else Ok tt
            end.
Proof.
  intros Hhard fragment s. subst fragment s.
  unfold Delete. rewrite Hhard. rewrite bind_eq.
  unfold prepareFilters_logged.
  change (returned (prepareFilters_run filters 1))
    with (prepareFilters filters 1).
  destruct (prepareFilters filters 1) as [[f a] next]. cbn [fst snd].
  rewrite where_clause_text, append_assoc.
  set (q := "DELETE FROM " +:+ Table c +:+ _).
  rewrite bind_eq.
  match goal with
  | |- context [sql_debug env q ?l a ?w0] =>
      destruct (sql_debug_ok env q l a w0) as [Hok Hsame];
      destruct (sql_debug env q l a w0) as [r w2]
  end.
  cbn [fst snd] in *. subst r.
  rewrite bind_eq. unfold db_ExecContext.
  split.
  - destruct (ExecContext env w2 _) as [e | [e | numRows]];
      [| | destruct (numRows =? 0)]; cbn; now rewrite Hsame.
  - exists w2. split; [exact Hsame |].
    destruct (ExecContext env w2 _) as [e | [e | numRows]];
      [| | destruct (numRows =? 0)]; reflexivity.
Qed.

(** The statement of [Create_insert] for a payload within the range of
    [int]. *)
Lemma Create_insert_issues (c : Connection T) (m : gmap string value)
    (w : world) :
  Z.of_nat (size m) < int_max ->
  issued (snd (Create_insert env c (Some m) w))
  = issued w
    ++ [{| on_handle := Conn c;
           sql_text :=
             "INSERT INTO " +:+ Table c +:+ " ("
             +:+ strings_Join (map fst (map_range env m)) ", "
             +:+ ") VALUES ("
             +:+ strings_Join
                   (map (fun i => "$" +:+ fmt_d i) (dense 1 (size m))) ", "
             +:+ ") RETURNING *";
           sql_args := map snd (map_range env m) |}].
Proof.
  intros Hsize. unfold Create_insert.
  rewrite insert_parts_spec
    by (rewrite ?range_length; unfold int_min, int_max in *; lia).
  rewrite range_length. rewrite bind_eq.
  match goal with
  | |- context [sql_debug env ?q ?l ?a w] =>
      destruct (sql_debug_ok env q l a w) as [Hok Hsame];
      destruct (sql_debug env q l a w) as [r w2]
  end.
  cbn [fst snd] in *. subst r.
  rewrite bind_eq. unfold db_QueryRowContext, scanRow.
  destruct (QueryRowContext env w2 _) as [e | columns];
    [cbn; now rewrite Hsame |].
  destruct (ScanFields_Scan columns); cbn; now rewrite Hsame.
Qed.

(** X13.  [Create] issues exactly one statement, an INSERT whose column
    list and argument list pair up to the entries of the payload as the
    call stamps it: every key of the stamped map is a column exactly once,
    its value is the argument at the same position, and the placeholders
    are [$1 .. $k] in that order. *)
Theorem Create_inserts_the_stamped_payload (c : Connection T)
    (m : gmap string value) (opts : option Options) (w : world)
    (newUuid : string) :
  uuid_NewV7 env w = inr newUuid ->
  let payload := stamped opts newUuid (time_Now env (tick w)) m in
  Z.of_nat (size payload) < int_max ->
  exists columns values,
    issued (snd (fst (fst (Create env c (Some m) opts w))))
    = issued w
      ++ [{| on_handle := Conn c;
             sql_text :=
               "INSERT INTO " +:+ Table c +:+ " ("
               +:+ strings_Join columns ", " +:+ ") VALUES ("
               +:+ strings_Join
                     (map (fun i => "$" +:+ fmt_d i)
                        (dense 1 (length columns))) ", "
               +:+ ") RETURNING *";
             sql_args := values |}]
    /\ length columns = length values
    /\ combine columns values ≡ₚ map_to_list payload.
Proof.
  intros Hu payload Hsize.
  exists (map fst (map_range env payload)), (map snd (map_range env payload)).
  rewrite !length_map, combine_fst_snd, range_length.
  split; [|split; [reflexivity | apply map_range_perm]].
  pose proof (Create_insert_issues c payload) as Hins.
  subst payload. unfold Create, new_uuid, stamped in *. rewrite Hu.
  destruct (default true (TimestampsFields (default Options_zero opts)));
    cbv zeta;
    match goal with
    | |- context [Create_insert env c (Some ?d) ?w0] =>
        specialize (Hins w0 Hsize);
        destruct (Create_insert env c (Some d) w0) as [r w']
    end; cbn [fst snd] in *; exact Hins.
Qed.

Lemma Update_tail_issues (c : Connection T) (filters : GroupFilter)
    (q : string) (v : list value) (w0 : world) :
  exists rest,
    issued
      (snd ((run sql_debug env q "SQL Values:" v ;;
             do _ <-
               on_error
                 (fun err =>
                    if errors_Is_ErrNoRows err then ErrNoDocumentsFound
                    else err)
                 (db_ExecContext env (Conn c) q v) ;;
             GetOne_result env c filters None) w0))
    = issued w0
      ++ {| on_handle := Conn c; sql_text := q; sql_args := v |} :: rest
    /\ Forall is_select rest.
Proof.
  rewrite bind_eq.
  destruct (sql_debug_ok env q "SQL Values:" v w0) as [Hok Hsame].
  destruct (sql_debug env q "SQL Values:" v w0) as [r w2].
  cbn [fst snd] in *. subst r.
  rewrite bind_eq. unfold on_error, db_ExecContext.
  destruct (ExecContext env w2 _) as [e | result].
  - exists []. cbn. now rewrite Hsame.
  - destruct (GetOne_result_without_relations env c filters None I
                (issue {| on_handle := Conn c; sql_text := q; sql_args := v |}
                   w2)) as [_ (new & Hi & Hf)].
    exists new. split; [|exact Hf].
    rewrite Hi. cbn [issue issued]. now rewrite Hsame, <- app_assoc.
Qed.

(** X14.  [Update] first issues an UPDATE whose SET list pairs up to
    the payload as the call leaves it: [id] and [created_at] are never
    set, [updated_at] always is; its placeholders are [$1 .. $k], and the
    filter is compiled from index [k + 1], its arguments following those
    of the SET list.  What [Update] issues after that are SELECTs. *)
Theorem Update_sets_then_filters (c : Connection T) (filters : GroupFilter)
    (m : gmap string value) (w : world) :
  let payload :=
    <["updated_at"%string := VTime (time_Now env w)]>
      (delete "created_at"%string (delete "id"%string m)) in
  Z.of_nat (size payload) < int_max ->
  let compiled :=
    prepareFilters (rewritten c filters) (1 + Z.of_nat (size payload)) in
  exists columns values rest,
    issued (snd (fst (Update env c filters (Some m) w)))
    = issued w
      ++ {| on_handle := Conn c;
            sql_text :=
              "UPDATE " +:+ Table c +:+ " SET "
              +:+ strings_Join
                    (map (fun ki => fst ki +:+ " = $" +:+ fmt_d (snd ki))
                       (combine columns (dense 1 (length columns)))) ", "
              +:+ (if String.eqb (fst (fst compiled)) "" then ""%string
                   else " WHERE " +:+ fst (fst compiled));
            sql_args := values ++ snd (fst compiled) |} :: rest
    /\ length columns = length values
    /\ combine columns values ≡ₚ map_to_list payload
    /\ ("id"%string ∉ columns) /\ ("created_at"%string ∉ columns)
    /\ ("updated_at"%string ∈ columns)
    /\ Forall is_select rest.
Proof.
  intros payload Hsize compiled.
  assert (forall k, k ∈ map fst (map_range env payload)
                    <-> exists v, payload !! k = Some v) as Hkeys.
  { intros k. rewrite (map_range_perm env payload), list_elem_of_fmap.
    split.
    - intros ([k' v] & -> & Hin). exists v. now apply elem_of_map_to_list.
    - intros (v & Hv). exists (k, v). split; [reflexivity |].
      now apply elem_of_map_to_list. }
  pose proof (empty_fragment_no_args
                (rewritten c filters) (1 + Z.of_nat (size payload))) as Hnil.
  fold compiled in Hnil.
  unfold Update. cbn [gomap_delete]. fold payload.
  unfold Update_exec.
  rewrite set_parts_spec
    by (rewrite ?range_length; unfold int_min, int_max in *; lia).
  rewrite range_length. rewrite bind_eq. unfold prepareFilters_logged.
  change (returned (prepareFilters_run (rewritten c filters)
                      (1 + Z.of_nat (size payload))))
    with compiled.
  destruct compiled as [[f a] next]. cbn [fst snd] in *.
  set (w1 := Build_world _ _ _).
  assert (issued w1 = issued w) as Hw1 by reflexivity.
  set (columns := map fst (map_range env payload)).
  set (values := map snd (map_range env payload)).
  set (setParts := strings_Join _ ", ").
  assert (length columns = size payload) as Hlen
    by (subst columns; now rewrite length_map, range_length).
  assert (exists rest,
             issued (snd (fst
               (let '(r, w2) :=
                  (let '(query, vals0) :=
                     if negb (String.eqb f "")
                     then (("UPDATE " +:+ Table c +:+ " SET " +:+ setParts)
                           +:+ " WHERE " +:+ f, values ++ a)
                     else ("UPDATE " +:+ Table c +:+ " SET " +:+ setParts,
                           values) in
                   run sql_debug env query "SQL Values:" vals0 ;;
                   do _ <-
                     on_error
                       (fun err =>
                          if errors_Is_ErrNoRows err then ErrNoDocumentsFound
                          else err)
                       (db_ExecContext env (Conn c) query vals0) ;;
                   GetOne_result env c (rewritten c filters) None) w1 in
                (r, w2, Some payload))))
             = issued w
               ++ {| on_handle := Conn c;
                     sql_text :=
                       "UPDATE " +:+ Table c +:+ " SET " +:+ setParts
                       +:+ (if String.eqb f "" then ""%string
                            else " WHERE " +:+ f);
                     sql_args := values ++ a |} :: rest
             /\ Forall is_select rest) as (rest & Hi & Hf).
  { destruct (String.eqb_spec f "") as [-> | Hne]; cbn [negb].
    - rewrite (Hnil eq_refl), app_nil_r, !append_empty_r.
      destruct (Update_tail_issues c (rewritten c filters)
                  ("UPDATE " +:+ Table c +:+ " SET " +:+ setParts) values w1)
        as (rest & Hi & Hf).
      exists rest. split; [|exact Hf].
      destruct (bind _ _ w1) as [r w2]. cbn [fst snd] in *. now rewrite Hi, Hw1.
    - destruct (Update_tail_issues c (rewritten c filters)
                  (("UPDATE " +:+ Table c +:+ " SET " +:+ setParts)
                   +:+ " WHERE " +:+ f) (values ++ a) w1)
        as (rest & Hi & Hf).
      exists rest. split; [|exact Hf].
      destruct (bind _ _ w1) as [r w2]. cbn [fst snd] in *.
      rewrite Hi, Hw1. now rewrite !append_assoc. }
  exists columns, values, rest.
  split; [rewrite Hlen; exact Hi |].
  split; [subst columns values; now rewrite !length_map |].
  split; [subst columns values; rewrite combine_fst_snd; apply map_range_perm |].
  subst columns. rewrite !Hkeys. subst payload.
  split; [|split; [|split; [|exact Hf]]].
  - intros (v & Hv). now simplify_map_eq.
  - intros (v & Hv). now simplify_map_eq.
  - eexists. now simplify_map_eq.
Qed.
(** X15.  [Update] and [Create] write into the payload map before
    they build any SQL: on a nil map [Update] panics, and so does [Create]
    unless both the primary key and the timestamps are switched off, in
    which case it issues an INSERT with no column; in the panicking cases
    no statement is issued. *)
Theorem nil_payload_panics_before_any_statement (c : Connection T)
    (filters : GroupFilter) (opts : option Options) (w : world) :
  (fst (fst (Update env c filters None w)) = Panic nil_map_write
   /\ issued (snd (fst (Update env c filters None w))) = issued w)
  /\ let o := default Options_zero opts in
     let created := fst (fst (Create env c None opts w)) in
     match uuid_NewV7 env w with
     | inl e => fst created = Err e /\ issued (snd created) = issued w
     | inr _ =>
         if default true (InsertPrimaryKey o)
            || default true (TimestampsFields o)
         then fst created = Panic nil_map_write
              /\ issued (snd created) = issued w
         else issued (snd created)
              = issued w
                ++ [{| on_handle := Conn c;
                       sql_text :=
                         "INSERT INTO " +:+ Table c
                         +:+ " () VALUES () RETURNING *";
                       sql_args := [] |}]
     end.
Proof.
  split; [split; reflexivity |].
  intros o created. subst o created. unfold Create, new_uuid.
  destruct (uuid_NewV7 env w) as [e | newUuid]; [split; reflexivity |].
  destruct (default true (InsertPrimaryKey (default Options_zero opts)));
    [split; reflexivity |].
  destruct (default true (TimestampsFields (default Options_zero opts)));
    [split; reflexivity |].
  cbn [orb]. unfold Create_insert. cbn [insert_parts strings_Join].
  rewrite bind_eq.
  match goal with
  | |- context [sql_debug env ?q ?l ?a ?w0] =>
      destruct (sql_debug_ok env q l a w0) as [Hok Hsame];
      destruct (sql_debug env q l a w0) as [r w2]
  end.
  cbn [fst snd] in *. subst r.
  rewrite bind_eq. unfold db_QueryRowContext, scanRow.
  destruct (QueryRowContext env w2 _) as [e | columns];
    [cbn; now rewrite Hsame |].
  destruct (ScanFields_Scan columns); cbn; now rewrite Hsame.
Qed.
End WriteExtras.

(** ** Deleting what is deleted already *)

Lemma where_reading_eq sql r (fs : list FilterAny) (op : string) :
  where_reading sql r (Build_GroupFilter fs op)
  = fold_left (where_step sql r (where_reading sql r) op) fs None.
Proof. reflexivity. Qed.

Lemma glue_empty op a b :
  glue op a b = ""%string <-> a = ""%string /\ b = ""%string.
Proof.
  split.
  - intros H. destruct (String.eqb_spec b "") as [-> | Hb].
    + rewrite glue_empty_r in H. now split.
    + now destruct (glue_not_empty_r op a b Hb).
  - intros [-> ->]. apply glue_empty_r.
Qed.

Lemma lit_not_empty (s : string) (b : Builder) :
  s <> ""%string -> Builder_String (Lit s :: b) <> ""%string.
Proof.
  intros Hs E.
  change (Builder_String (Lit s :: b)) with (s +:+ Builder_String b) in E.
  apply append_eq_empty in E. tauto.
Qed.

(** The reading leaves out what the compiler leaves out: a group has no
    condition exactly when it compiles to the empty fragment. *)
Lemma where_reading_none sql r (filters : GroupFilter) :
  forall n,
    where_reading sql r filters = None
    <-> Builder_String (queryBuilder (prepareFilters_run filters n))
        = ""%string.
Proof.
  induction filters as [fs op IH] using GroupFilter_nested_ind. intros n.
  rewrite where_reading_eq, prepareFilters_run_eq.
  assert (forall st sofar,
             (sofar = None <-> Builder_String (queryBuilder st) = ""%string)
             -> (fold_left (where_step sql r (where_reading sql r) op) fs
                   sofar = None
                 <-> Builder_String
                       (queryBuilder (fold_left (step op) fs st))
                     = ""%string)) as Hfold.
  { induction fs as [|x rest IHrest]; intros st sofar Hst; [exact Hst |].
    cbn [fold_left]. apply IHrest.
    { intros g Hg. apply IH. now right. }
    assert (forall parts cv c lines,
               Builder_String parts <> ""%string ->
               forall condition,
                 match sofar with
                 | None => Some condition
                 | Some before => Some (joined sql op before condition)
                 end = None
                 <-> Builder_String
                       (queryBuilder (emit op st parts cv c lines))
                     = ""%string) as Hsome.
    { intros parts cv c lines Hparts condition. rewrite text_emit, glue_empty.
      split; [now destruct sofar | now intros [_ ?]]. }
    assert (forall c lines,
               sofar = None
               <-> Builder_String (queryBuilder (emit op st [] [] c lines))
                   = ""%string) as Hnone.
    { intros c lines. rewrite text_emit.
      change (Builder_String []) with ""%string.
      now rewrite glue_empty_r. }
    unfold where_step.
    destruct x as [f | mf | g | v]; cbn [where_member prepareFilters_step].
    - destruct (String.eqb (default "="%string (Filter_Comparator f))
                  ComparatorIsNull) eqn:Enull;
        [cbn [negb andb orb] |
         destruct (String.eqb (default "="%string (Filter_Comparator f))
                     ComparatorIsNotNull) eqn:Enot; cbn [negb andb orb]].
      + apply String.eqb_eq in Enull. rewrite Enull.
        change (String.eqb ComparatorIsNull ComparatorIn
                || String.eqb ComparatorIsNull ComparatorNotIn) with false.
        cbv iota. apply Hsome, lit_not_empty, append_not_empty_r.
        discriminate.
      + apply String.eqb_eq in Enot. rewrite Enot.
        change (String.eqb ComparatorIsNotNull ComparatorIn
                || String.eqb ComparatorIsNotNull ComparatorNotIn) with false.
        change (negb (String.eqb ComparatorIsNotNull ComparatorIn)
                && negb (String.eqb ComparatorIsNotNull ComparatorNotIn))
          with true.
        cbv iota. apply Hsome, lit_not_empty, append_not_empty_r.
        discriminate.
      + destruct (String.eqb _ ComparatorIn), (String.eqb _ ComparatorNotIn);
          cbn [negb andb orb]; try exact Hst.
        apply Hsome, lit_not_empty, append_not_empty_r. discriminate.
    - destruct (_ || _); [|apply Hnone].
      destruct (multi_values _ _ _ _ _) as [[parts cv] c'].
      apply Hsome. rewrite Builder_String_app.
      apply append_not_empty_r. discriminate.
    - specialize (IH g (or_introl eq_refl) (counter st)).
      destruct (String.eqb_spec
                  (Builder_String
                     (queryBuilder (prepareFilters_run g (counter st)))) "")
        as [Hempty | Hfull]; cbn [negb].
      + rewrite (proj2 IH Hempty). apply Hnone.
      + destruct (where_reading sql r g) as [condition|] eqn:Eg;
          [|now destruct Hfull; apply IH].
        apply Hsome, lit_not_empty. discriminate.
    - apply Hnone. }
  apply Hfold. now split.
Qed.

Section SoftDeleteAgain.
Variable env : environment.
Context {T : Type} `{!Model T}.

(** The condition [(d IS NULL)] on a row. *)
Lemma tombstone_reading sql r (d : string) :
  where_reading sql r (tombstone d) = Some (is_null (r d)).
Proof.
  unfold tombstone. rewrite where_reading_eq.
  cbn [fold_left where_step where_member Filter_Comparator default
       Filter_Key].
  reflexivity.
Qed.

(** Under [AND] the test [(d IS NULL)] keeps every soft-deleted row out
    of the clause. *)
Lemma tombstoned_rows_are_kept_out sql (c : Connection T)
    (filters : GroupFilter) :
  soft_deletes c = true ->
  Operator filters = ""%string \/ Operator filters = OperatorAnd
  \/ Filters filters = [] ->
  Delete_again_changes_nothing sql c filters.
Proof.
  intros Hsoft Hop r Hr. unfold rewritten. rewrite Hsoft.
  unfold soft_deletes, tombstoned in *.
  destruct (SoftDelete c) as [d|]; [|discriminate].
  apply negb_true_iff, String.eqb_neq in Hsoft.
  rewrite prepareSoftDelete_eq by exact Hsoft.
  assert (is_null (r d) = FALSE) as Hnull by (now destruct (r d)).
  unfold selects.
  destruct filters as [fs op]. cbn [Filters Operator] in *.
  destruct (0 <? length fs)%nat eqn:Efs.
  - rewrite where_reading_eq, fold_left_app. cbn [fold_left].
    unfold where_step at 1. cbn [where_member].
    rewrite tombstone_reading, Hnull.
    destruct (fold_left _ fs None) as [before|]; [|reflexivity].
    unfold joined.
    destruct Hop as [-> | [-> | ->]]; [| |discriminate Efs].
    + cbn [String.eqb orb]. now destruct before.
    + change (String.eqb OperatorAnd "" || String.eqb OperatorAnd OperatorAnd)
        with true.
      cbv iota. now destruct before.
  - now rewrite tombstone_reading, Hnull.
Qed.

(** The first statement of [Update] when the filter compiles to a
    fragment: the SET list in the order the payload is ranged over, then
    the fragment as the WHERE clause. *)
Lemma Update_first_statement (c : Connection T) (filters : GroupFilter)
    (m : gmap string value) (w : world) :
  let payload :=
    <["updated_at"%string := VTime (time_Now env w)]>
      (delete "created_at"%string (delete "id"%string m)) in
  Z.of_nat (size payload) < int_max ->
  let compiled :=
    prepareFilters (rewritten c filters) (1 + Z.of_nat (size payload)) in
  fst (fst compiled) <> ""%string ->
  exists rest,
    issued (snd (fst (Update env c filters (Some m) w)))
    = issued w
      ++ {| on_handle := Conn c;
            sql_text :=
              ("UPDATE " +:+ Table c +:+ " SET "
               +:+ strings_Join
                     (map (fun ki => fst ki +:+ " = $" +:+ fmt_d (snd ki))
                        (combine (map fst (map_range env payload))
                           (dense 1 (size payload)))) ", ")
              +:+ " WHERE " +:+ fst (fst compiled);
            sql_args :=
              map snd (map_range env payload) ++ snd (fst compiled) |}
         :: rest
    /\ Forall is_select rest.
Proof.
  intros payload Hsize compiled Hfull.
  unfold Update. cbn [gomap_delete]. fold payload.
  unfold Update_exec.
  rewrite set_parts_spec
    by (rewrite ?range_length; unfold int_min, int_max in *; lia).
  rewrite range_length. rewrite bind_eq. unfold prepareFilters_logged.
  change (returned (prepareFilters_run (rewritten c filters)
                      (1 + Z.of_nat (size payload))))
    with compiled.
  destruct compiled as [[f a] next]. cbn [fst snd] in *.
  apply String.eqb_neq in Hfull. rewrite Hfull. cbn [negb].
  set (w1 := Build_world _ _ _).
  assert (issued w1 = issued w) as Hw1 by reflexivity.
  match goal with
  | |- context [sql_debug env ?q "SQL Values:" ?v] =>
      destruct (Update_tail_issues env c (rewritten c filters) q v w1)
        as (rest & Hi & Hf)
  end.
  exists rest. split; [|exact Hf].
  destruct (bind _ _ w1) as [o w2]. cbn [fst snd] in *. now rewrite Hi, Hw1.
Qed.

End SoftDeleteAgain.



Example Delete_again_with_OR :
  map sql_text
    (issued (snd (Delete failing_env (users_repo failing_env) either_id
                    empty_world)))
  = ["UPDATE users SET updated_at = $1, deleted_at = $2 WHERE id = $3 OR (deleted_at IS NULL)"%string].
Proof. vm_compute. reflexivity. Qed.

Lemma Delete_hard_issues_one_delete_witness :
  let skipped :=
    Build_GroupFilter [single "id" (Some ComparatorIn) (VInt 7)] "" in
  soft_deletes permissions_repo = false
  /\ issued (snd (Delete one_row_env permissions_repo skipped empty_world))
     = [{| on_handle := 0%nat; sql_text := "DELETE FROM permissions";
           sql_args := [] |}].
Proof.
  intros skipped. split; [reflexivity |].
  rewrite (proj1 (Delete_hard_issues_one_delete one_row_env permissions_repo
                    skipped empty_world eq_refl)).
  reflexivity.
Defined.

Lemma Create_inserts_the_stamped_payload_witness :
  let m : gmap string value := {["name"%string := VString "read"]} in
  let payload :=
    stamped None "0190163d-8694-739b-aea5-966c26f8ad91"
      (time_Now one_row_env (tick empty_world)) m in
  Z.of_nat (size payload) < int_max
  /\ exists columns values,
       issued (snd (fst (fst (Create one_row_env permissions_repo (Some m)
                                None empty_world))))
       = issued empty_world
         ++ [{| on_handle := Conn permissions_repo;
                sql_text :=
                  "INSERT INTO " +:+ Table permissions_repo +:+ " ("
                  +:+ strings_Join columns ", " +:+ ") VALUES ("
                  +:+ strings_Join
                        (map (fun i => "$" +:+ fmt_d i)
                           (dense 1 (length columns))) ", "
                  +:+ ") RETURNING *";
                sql_args := values |}]
       /\ length columns = length values
       /\ combine columns values ≡ₚ map_to_list payload.
Proof.
  intros m payload.
  assert (Z.of_nat (size payload) < int_max) as Hsize by (vm_compute; reflexivity).
  split; [exact Hsize |].
  exact (Create_inserts_the_stamped_payload one_row_env permissions_repo m
           None empty_world "0190163d-8694-739b-aea5-966c26f8ad91"
           eq_refl Hsize).
Defined.

Lemma Update_sets_then_filters_witness :
  let m : gmap string value :=
    {["id"%string := VInt 9; "name"%string := VString "read"]} in
  let payload :=
    <["updated_at"%string := VTime (time_Now one_row_env empty_world)]>
      (delete "created_at"%string (delete "id"%string m)) in
  Z.of_nat (size payload) < int_max
  /\ exists columns values rest,
       issued (snd (fst (Update one_row_env (users_repo one_row_env) by_id
                           (Some m) empty_world)))
       = issued empty_world
         ++ {| on_handle := Conn (users_repo one_row_env);
               sql_text :=
                 "UPDATE " +:+ Table (users_repo one_row_env) +:+ " SET "
                 +:+ strings_Join
                       (map (fun ki => fst ki +:+ " = $" +:+ fmt_d (snd ki))
                          (combine columns (dense 1 (length columns)))) ", "
                 +:+ " WHERE id = $3 AND (deleted_at IS NULL)";
               sql_args := values ++ [VInt 7] |} :: rest
       /\ length columns = length values
       /\ combine columns values ≡ₚ map_to_list payload
       /\ ("id"%string ∉ columns) /\ ("created_at"%string ∉ columns)
       /\ ("updated_at"%string ∈ columns)
       /\ Forall is_select rest.
Proof.
  intros m payload.
  assert (Z.of_nat (size payload) < int_max) as Hsize by (vm_compute; reflexivity).
  split; [exact Hsize |].
  exact (Update_sets_then_filters one_row_env (users_repo one_row_env) by_id
           m empty_world Hsize).
Defined.

(** ** The loaders *)

Lemma for_each_field_or {A} `{!Model A} (name : string) (e : error)
    (models : list A) (w : world) :
  for_each (fun model => field_or model name e) models w
  = (match fields_of name models with Some vs => Ok vs | None => Err e end, w).
Proof.
  induction models as [|model rest IH]; cbn [for_each fields_of];
    [reflexivity |].
  rewrite bind_eq. unfold field_or at 1.
  destruct (FieldByName model name); cbn [ret throw]; [|reflexivity].
  rewrite bind_eq, IH. now destruct (fields_of name rest).
Qed.

Lemma fields_of_missing {A} `{!Model A} (name : string) (models : list A) :
  Exists (fun model => FieldByName model name = None) models ->
  fields_of name models = None.
Proof.
  induction 1 as [model rest H | model rest _ IH]; cbn [fields_of].
  - now rewrite H.
  - rewrite IH. now destruct (FieldByName model name).
Qed.

Lemma fields_of_present {A} `{!Model A} (name : string) (models : list A) :
  Forall (fun model => FieldByName model name <> None) models ->
  exists vs, fields_of name models = Some vs.
Proof.
  induction 1 as [|model rest H _ (vs & IH)]; cbn [fields_of];
    [now exists [] |].
  rewrite IH. destruct (FieldByName model name) as [v|]; [|congruence].
  now exists (v :: vs).
Qed.

Lemma fold_map_exchange {A B} (g : A -> B -> A) (bs : list B) :
  forall xs : list A,
    fold_left (fun xs b => map (fun x => g x b) xs) bs xs
    = map (fun x => fold_left g bs x) xs.
Proof.
  induction bs as [|b bs IH]; intros xs; cbn [fold_left].
  - now rewrite map_id.
  - rewrite IH, map_map. reflexivity.
Qed.

Section LoaderExtras.
Variable env : environment.
Context {P C : Type} `{!Model P} `{!Model C} `{!Container P C}.

(** X16.  The 1:1 loader loads onto the first parent only: the parents
    after the first are neither read nor changed, whatever their number;
    loading onto a list is loading onto its head. *)
Theorem OnetoOne_loads_onto_the_first_parent_only (l : OnetoOneLoader C)
    (first : P) (others : list P) (childs : option (list string))
    (w : world) :
  OnetoOneLoader_Load l (first :: others) childs w
  = match OnetoOneLoader_Load l [first] childs w with
    | (Ok parents, w') => (Ok (parents ++ others), w')
    | r => r
    end.
Proof.
  unfold OnetoOneLoader_Load. rewrite !bind_eq.
  destruct (field_or first _ _ w) as [[parentId | e | msg] w1];
    try reflexivity.
  rewrite !bind_eq.
  destruct (on_error _ _ w1) as [[childModel | e | msg] w2]; try reflexivity.
  rewrite !bind_eq. unfold lift.
  now destruct (container_Set _ first childModel).
Qed.

(** X17.  The 1:N loader reads the key of every parent before it asks
    for children: when some parent lacks the parent field, it returns the
    invalid-parent-field error and leaves the world as it was, the child
    repository not asked. *)
Theorem OnetoMany_checks_every_parent_first (l : OnetoManyLoader C)
    (parents : list P) (childs : option (list string)) (w : world) :
  Exists (fun parent => FieldByName parent (OnetoMany_ParentField l) = None)
    parents ->
  OnetoManyLoader_Load env l parents childs w
  = (Err (Errorf ("invalid parent field: " +:+ OnetoMany_ParentField l)), w).
Proof.
  intros Hmissing. unfold OnetoManyLoader_Load.
  destruct parents as [|parent rest]; [inversion Hmissing |].
  cbn [length Nat.eqb]. rewrite bind_eq, for_each_field_or.
  now rewrite fields_of_missing.
Qed.

(** X18.  The N:M loader issues no statement when it cannot use what
    it was given: when some parent lacks the parent key it returns the
    invalid-parent-key error with the world as it was; when every parent
    has it but the connection is not a [*sql.DB] it returns the assertion
    error, having issued nothing. *)
Theorem ManyToMany_fails_before_any_statement (m : ManyToManyLoader C)
    (parents : list P) (childs : option (list string)) (w : world) :
  (Exists (fun parent => FieldByName parent (ManyToMany_ParentKey m) = None)
     parents ->
   ManyToManyLoader_Load env m parents childs w
   = (Err (Errorf ("invalid parent key field: " +:+ ManyToMany_ParentKey m)),
      w))
  /\ (parents <> [] ->
      Forall (fun parent => FieldByName parent (ManyToMany_ParentKey m) <> None)
        parents ->
      ManyToMany_Connection m = None ->
      fst (ManyToManyLoader_Load env m parents childs w)
      = Err (Errorf "failed to assert connection to *sql.DB")
      /\ issued (snd (ManyToManyLoader_Load env m parents childs w))
         = issued w).
Proof.
  split.
  - intros Hmissing. unfold ManyToManyLoader_Load.
    destruct parents as [|parent rest]; [inversion Hmissing |].
    cbn [length Nat.eqb]. rewrite bind_eq, for_each_field_or.
    now rewrite fields_of_missing.
  - intros Hne Hall Hconn. unfold ManyToManyLoader_Load.
    destruct parents as [|parent rest]; [congruence |].
    cbn [length Nat.eqb]. rewrite bind_eq, for_each_field_or.
    destruct (fields_of_present _ _ Hall) as (ids & ->).
    rewrite bind_eq, Hconn.
    match goal with
    | |- context [sql_debug env ?q ?l ?a w] =>
        destruct (sql_debug_ok env q l a w) as [Hok Hsame];
        destruct (sql_debug env q l a w) as [r w2]
    end.
    cbn [fst snd] in *. subst r. now split.
Qed.

Lemma go_neq_comparable (a b : value) :
  is_comparable a = true -> is_comparable b = true ->
  go_neq a b = Ok (negb (same_key a b)).
Proof.
  intros Ha Hb. unfold go_neq, same_key, go_equal.
  destruct a, b; cbn [is_comparable] in *; try reflexivity.
  subst. cbn [andb]. now destruct (String.eqb type_name type_name0).
Qed.

Lemma attach_child (l : OnetoManyLoader C) (child : C) (foreignKey : value)
    (parents : list P) (ids : list value) (w : world) :
  is_comparable foreignKey = true ->
  fields_of (OnetoMany_ParentField l) parents = Some ids ->
  Forall (fun id => is_comparable id = true) ids ->
  (forall parent c,
      exists parent',
        container_Append (OnetoMany_ContainerField l) parent c = Ok parent'
        /\ FieldByName parent' (OnetoMany_ParentField l)
           = FieldByName parent (OnetoMany_ParentField l)) ->
  let attached parent :=
    match FieldByName parent (OnetoMany_ParentField l) with
    | Some parentId =>
        if same_key foreignKey parentId
        then appended (OnetoMany_ContainerField l) parent child
        else parent
    | None => parent
    end in
  for_each
    (fun parent =>
       do parentId <-
         field_or parent (OnetoMany_ParentField l)
           (Errorf ("invalid parent field: " +:+ OnetoMany_ParentField l)) ;;
       do differ <- lift (go_neq foreignKey parentId) ;;
       if differ then ret parent
       else lift (container_Append (OnetoMany_ContainerField l) parent child))
    parents w
  = (Ok (map attached parents), w)
  /\ fields_of (OnetoMany_ParentField l) (map attached parents) = Some ids.
Proof.
  intros Hfk Hids Hcomparable Happ attached.
  revert ids Hids Hcomparable.
  induction parents as [|parent rest IH]; intros ids Hids Hcomparable;
    cbn [for_each map]; [now split |].
  cbn [fields_of] in Hids |- *.
  destruct (FieldByName parent (OnetoMany_ParentField l)) as [parentId|] eqn:Ep;
    [|discriminate].
  destruct (fields_of (OnetoMany_ParentField l) rest) as [rest_ids|] eqn:Er;
    [|discriminate].
  injection Hids as <-. inversion Hcomparable as [|? ? Hid Hrest]; subst.
  destruct (IH rest_ids eq_refl Hrest) as [IHrun IHids].
  rewrite bind_eq, bind_eq. unfold field_or at 1. rewrite Ep. cbn [ret].
  rewrite bind_eq. unfold lift at 1.
  rewrite (go_neq_comparable foreignKey parentId Hfk Hid).
  assert (FieldByName (attached parent) (OnetoMany_ParentField l)
          = Some parentId) as Hkept.
  { subst attached. cbv beta. rewrite Ep.
    destruct (same_key foreignKey parentId); [|exact Ep].
    unfold appended. destruct (Happ parent child) as (parent' & -> & ->).
    exact Ep. }
  split.
  - destruct (same_key foreignKey parentId) eqn:Es; cbn [negb].
    + destruct (Happ parent child) as (parent' & Happ' & _).
      unfold lift at 1. rewrite Happ', bind_eq, IHrun.
      subst attached. cbv beta. rewrite Ep, Es.
      unfold appended. now rewrite Happ'.
    + cbn [ret]. rewrite bind_eq, IHrun.
      subst attached. cbv beta. now rewrite Ep, Es.
  - rewrite Hkept, IHids. reflexivity.
Qed.

(** X19.  The 1:N loader is a join on the data, by Go's [==] on the
    keys: when every parent has the parent field and every child the
    (capitalised) foreign-key field, with keys of types Go can compare,
    and appending to the container succeeds without touching the parent
    field, the loader returns every parent with exactly the children
    appended whose foreign key [==] its key (same dynamic type, same
    value), in the order the child repository returned them; a child that
    matches no parent is dropped, and the world is as the child query
    left it. *)
Theorem OnetoMany_is_a_join (l : OnetoManyLoader C) (parents : list P)
    (childs : option (list string)) (w w1 : world) (ids keys : list value)
    (children : list C) (childField : string) :
  parents <> [] ->
  fields_of (OnetoMany_ParentField l) parents = Some ids ->
  Forall (fun id => is_comparable id = true) ids ->
  Repository_Get (OnetoMany_Repository l)
    (Build_GroupFilter
       [AnyMultiple {| Multi_Key := OnetoMany_ChildFkField l;
                       Multi_Values := ids;
                       Multi_Comparator := Some ComparatorIn |}] "")
    (Some (child_options childs)) w
  = (Ok children, w1) ->
  prepareForeignKey (unicode_upper env) (OnetoMany_ChildFkField l)
  = Ok childField ->
  fields_of childField children = Some keys ->
  Forall (fun key => is_comparable key = true) keys ->
  (forall parent c,
      exists parent',
        container_Append (OnetoMany_ContainerField l) parent c = Ok parent'
        /\ FieldByName parent' (OnetoMany_ParentField l)
           = FieldByName parent (OnetoMany_ParentField l)) ->
  OnetoManyLoader_Load env l parents childs w
  = (Ok (map (joined_children (OnetoMany_ParentField l) childField
                (OnetoMany_ContainerField l) children) parents), w1).
Proof.
  intros Hne Hids Hcomparable Hget Hfk Hkeys Hkeys_comparable Happ.
  unfold OnetoManyLoader_Load.
  destruct parents as [|parent0 rest0] eqn:Ep; [congruence |].
  cbn [length Nat.eqb]. rewrite <- Ep in *. clear Ep Hne.
  rewrite bind_eq, for_each_field_or, Hids.
  rewrite bind_eq. unfold on_error. rewrite Hget.
  unfold joined_children.
  rewrite <- (fold_map_exchange
                (fun parent child =>
                   match FieldByName child childField,
                         FieldByName parent (OnetoMany_ParentField l) with
                   | Some foreignKey, Some parentId =>
                       if same_key foreignKey parentId
                       then appended (OnetoMany_ContainerField l) parent child
                       else parent
                   | _, _ => parent
                   end) children parents).
  clear Hget. rewrite Hfk.
  revert keys Hkeys Hkeys_comparable parents Hids.
  induction children as [|child rest IH];
    intros keys Hkeys Hkeys_comparable parents Hids;
    cbn [fold_each fold_left]; [reflexivity |].
  cbn [fields_of] in Hkeys.
  destruct (FieldByName child childField) as [foreignKey|] eqn:Ef;
    [|discriminate].
  destruct (fields_of childField rest) as [rest_keys|] eqn:Er;
    [|discriminate].
  injection Hkeys as <-. inversion Hkeys_comparable as [|? ? Hkey Hrest]; subst.
  rewrite bind_eq, bind_eq. unfold lift at 1.
  rewrite bind_eq. unfold field_or at 1. rewrite Ef. cbn [ret].
  destruct (attach_child l child foreignKey parents ids w1 Hkey Hids
              Hcomparable Happ) as [Hrun Hkept].
  rewrite Hrun.
  rewrite (IH rest_keys eq_refl Hrest _ Hkept).
  reflexivity.
Qed.

(** X20.  A foreign-key name [prepareForeignKey] cannot capitalise (an
    empty segment between underscores) makes the 1:N loader panic as soon
    as there is a child to place, and only then: with no child the parents
    are returned as they are. *)
Theorem OnetoMany_malformed_key_panics_on_a_child (l : OnetoManyLoader C)
    (parents : list P) (childs : option (list string)) (w w1 : world)
    (ids : list value) (children : list C) :
  parents <> [] ->
  fields_of (OnetoMany_ParentField l) parents = Some ids ->
  Repository_Get (OnetoMany_Repository l)
    (Build_GroupFilter
       [AnyMultiple {| Multi_Key := OnetoMany_ChildFkField l;
                       Multi_Values := ids;
                       Multi_Comparator := Some ComparatorIn |}] "")
    (Some (child_options childs)) w
  = (Ok children, w1) ->
  In ""%string (strings_Split (OnetoMany_ChildFkField l) "_") ->
  OnetoManyLoader_Load env l parents childs w
  = (match children with
     | [] => Ok parents
     | _ :: _ => Panic slice_bounds
     end, w1).
Proof.
  intros Hne Hids Hget Hempty.
  unfold OnetoManyLoader_Load.
  destruct parents as [|parent0 rest0] eqn:Ep; [congruence |].
  cbn [length Nat.eqb]. rewrite <- Ep in *. clear Ep Hne.
  rewrite bind_eq, for_each_field_or, Hids.
  rewrite bind_eq. unfold on_error. rewrite Hget.
  destruct children as [|child rest]; cbn [fold_each]; [reflexivity |].
  rewrite bind_eq, bind_eq. unfold lift at 1, prepareForeignKey.
  now rewrite (proj1 (prepareForeignKey_parts_spec (unicode_upper env)
                        (strings_Split (OnetoMany_ChildFkField l) "_") "")
                 Hempty).
Qed.
End LoaderExtras.

Lemma OnetoMany_checks_every_parent_first_witness :
  let l := permissions_of [permission 10 1] "owner_id" in
  let parents := [role 1; Entity [] []] in
  Exists (fun parent => FieldByName parent (OnetoMany_ParentField l) = None)
    parents
  /\ OnetoManyLoader_Load one_row_env l parents None empty_world
     = (Err (Errorf "invalid parent field: Id"), empty_world).
Proof.
  intros l parents.
  assert (Exists (fun parent =>
                    FieldByName parent (OnetoMany_ParentField l) = None)
            parents) as H by (right; left; reflexivity).
  split; [exact H |].
  exact (OnetoMany_checks_every_parent_first one_row_env l parents None
           empty_world H).
Defined.

Lemma ManyToMany_fails_before_any_statement_witness :
  let m := pivot_without_handle in
  (Exists (fun parent => FieldByName parent (ManyToMany_ParentKey m) = None)
     [role 1; Entity [] []]
   /\ ManyToManyLoader_Load one_row_env m [role 1; Entity [] []] None
        empty_world
      = (Err (Errorf "invalid parent key field: Id"), empty_world))
  /\ ([role 1; role 2] <> []
      /\ Forall (fun parent =>
                   FieldByName parent (ManyToMany_ParentKey m) <> None)
           [role 1; role 2]
      /\ ManyToMany_Connection m = None
      /\ fst (ManyToManyLoader_Load one_row_env m [role 1; role 2] None
                empty_world)
         = Err (Errorf "failed to assert connection to *sql.DB")
      /\ issued (snd (ManyToManyLoader_Load one_row_env m [role 1; role 2]
                        None empty_world))
         = issued empty_world).
Proof.
  intros m.
  assert (Exists (fun parent =>
                    FieldByName parent (ManyToMany_ParentKey m) = None)
            [role 1; Entity [] []]) as H1 by (right; left; reflexivity).
  assert ([role 1; role 2] <> []) as H2 by discriminate.
  assert (Forall (fun parent =>
                    FieldByName parent (ManyToMany_ParentKey m) <> None)
            [role 1; role 2]) as H3 by (repeat constructor; discriminate).
  split.
  - split; [exact H1 |].
    exact (proj1 (ManyToMany_fails_before_any_statement one_row_env m
                    [role 1; Entity [] []] None empty_world) H1).
  - split; [exact H2 |]. split; [exact H3 |]. split; [reflexivity |].
    exact (proj2 (ManyToMany_fails_before_any_statement one_row_env m
                    [role 1; role 2] None empty_world) H2 H3 eq_refl).
Defined.

Lemma entity_append_keeps_fields (container field : string)
    (parent child : entity) :
  exists parent',
    container_Append container parent child = Ok parent'
    /\ FieldByName parent' field = FieldByName parent field.
Proof. destruct parent as [fields related]. eexists. split; reflexivity. Qed.

Lemma OnetoMany_is_a_join_witness :
  let of_another_type :=
    Entity [("Id"%string, VInt 12);
            ("OwnerId"%string, VOther "int64" true "1" "1")] [] in
  let children :=
    [permission 10 1; permission 11 2; of_another_type; permission 13 1] in
  let l := permissions_of children "owner_id" in
  OnetoManyLoader_Load one_row_env l [role 1; role 2] None empty_world
  = (Ok [Entity [("Id"%string, VInt 1); ("Name"%string, VString "role")]
           [("Permissions"%string, [permission 10 1; permission 13 1])];
         Entity [("Id"%string, VInt 2); ("Name"%string, VString "role")]
           [("Permissions"%string, [permission 11 2])]],
     empty_world).
Proof.
  intros of_another_type children l.
  refine (OnetoMany_is_a_join one_row_env l [role 1; role 2] None empty_world
            empty_world [VInt 1; VInt 2]
            [VInt 1; VInt 2; VOther "int64" true "1" "1"; VInt 1]
            children "OwnerId" _ eq_refl _ eq_refl eq_refl eq_refl _ _).
  - discriminate.
  - repeat constructor.
  - repeat constructor.
  - intros parent c. apply entity_append_keeps_fields.
Defined.

Lemma OnetoMany_malformed_key_panics_on_a_child_witness :
  let l := permissions_of [permission 10 1] "owner__id" in
  OnetoManyLoader_Load one_row_env l [role 1] None empty_world
  = (Panic slice_bounds, empty_world).
Proof.
  intros l.
  refine (OnetoMany_malformed_key_panics_on_a_child one_row_env l [role 1]
            None empty_world empty_world [VInt 1] [permission 10 1]
            _ eq_refl eq_refl _).
  - discriminate.
  - right. left. reflexivity.
Defined.

(** ** Building a repository *)

Lemma order_columns_lookup (orderColumns : list string) (column : string) :
  forall m0 : gmap string string,
    fold_left (fun (m : gmap string string) col => <[col := ""%string]> m)
      orderColumns m0 !! column
    = if decide (column ∈ orderColumns) then Some ""%string else m0 !! column.
Proof.
  induction orderColumns as [|col rest IH]; intros m0; cbn [fold_left].
  - destruct (decide (column ∈ [])) as [H | _]; [|reflexivity].
    now apply elem_of_nil in H.
  - rewrite IH.
    destruct (decide (column ∈ rest)) as [Hin | Hout].
    + destruct (decide (column ∈ col :: rest)) as [_ | H]; [reflexivity |].
      exfalso. apply H. now right.
    + destruct (decide (column = col)) as [-> | Hne].
      * rewrite lookup_insert_eq.
        destruct (decide (col ∈ col :: rest)) as [_ | H]; [reflexivity |].
        exfalso. apply H. now left.
      * rewrite lookup_insert_ne by congruence.
        destruct (decide (column ∈ col :: rest)) as [H | _]; [|reflexivity].
        apply elem_of_cons in H as [H | H]; congruence.
Qed.

Section BuildExtras.
Variable env : environment.
Context {T : Type} `{!Model T}.

Lemma Get_statement_order (c : Connection T) filters o w :
  OrderColumn o <> ""%string ->
  match OrderColumns c !! OrderColumn o with
  | None =>
      fst (Get_statement env c filters (Some o) w)
      = Err (Errorf ("invalid order column: " +:+ OrderColumn o))
  | Some _ =>
      exists query args,
        fst (Get_statement env c filters (Some o) w) = Ok (query, args)
  end.
Proof.
  intros Hset. apply String.eqb_neq in Hset.
  unfold Get_statement. rewrite bind_eq. unfold prepareFilters_logged.
  destruct (returned _) as [[allFilters allVals] next].
  destruct (negb (String.eqb allFilters "")); rewrite bind_eq, Hset;
    cbn [negb]; destruct (OrderColumns c !! OrderColumn o);
    cbn [ret throw fst]; eauto.
Qed.

(** X21.  The columns a repository accepts in ORDER BY are exactly those
    listed when it was built: [NewConnection] keeps every listed column
    (duplicates are harmless) and nothing else, so [Get], building its
    statement, rejects an order column exactly when it was not listed.
    The table is the one given and the handle the one the registry has
    under the name. *)
Theorem NewConnection_accepts_exactly_the_listed_columns
    (registry : string -> error + option DB) (connName table : string)
    (orderColumns : list string) (softDelete : option string)
    (relationer : option (gmap string (RelationLoader T)))
    (c : Connection T) :
  NewConnection registry connName table orderColumns softDelete relationer
  = Ok c ->
  (forall column,
      GetOrderColumns c !! column
      = if decide (column ∈ orderColumns) then Some ""%string else None)
  /\ (forall filters o w,
        OrderColumn o <> ""%string ->
        fst (Get_statement env c filters (Some o) w)
        = Err (Errorf ("invalid order column: " +:+ OrderColumn o))
        <-> OrderColumn o ∉ orderColumns)
  /\ GetTableName c = table
  /\ registry connName = inr (Some (GetConnection c)).
Proof.
  unfold NewConnection.
  destruct (registry connName) as [err | [rawConn|]]; try discriminate.
  intros [= <-].
  assert (forall column,
             fold_left
               (fun (m : gmap string string) col => <[col := ""%string]> m)
               orderColumns ∅ !! column
             = if decide (column ∈ orderColumns) then Some ""%string
               else None) as Hlookup.
  { intros column. rewrite order_columns_lookup.
    now rewrite lookup_empty. }
  split; [exact Hlookup |]. split; [|split; reflexivity].
  intros filters o w Hset.
  match goal with
  | |- context [Get_statement env ?c0 filters (Some o) w] => set (c := c0)
  end.
  pose proof (Get_statement_order c filters o w Hset) as Hs.
  change (OrderColumns c) with
    (fold_left (fun (m : gmap string string) col => <[col := ""%string]> m)
       orderColumns ∅) in Hs.
  rewrite Hlookup in Hs.
  destruct (decide (OrderColumn o ∈ orderColumns)) as [Hin | Hout].
  - destruct Hs as (query & args & ->). split; [discriminate | tauto].
  - rewrite Hs. tauto.
Qed.

(** X22.  [AddRelation] registers a loader under a name that is free and
    refuses a name that is taken, keeping the loader that was there; a
    nil loader map is made first; no other name and no other field of the
    repository changes; registering the same name again always fails. *)
Theorem AddRelation_registers_once (c : Connection T) (relation : string)
    (loader again : RelationLoader T) :
  let before := default ∅ (RelationLoaders c) in
  let result := fst (AddRelation c relation loader) in
  let c' := snd (AddRelation c relation loader) in
  match before !! relation with
  | Some old =>
      result
      = Err (Errorf ("relation loader already exists for relation: "
                     +:+ relation))
      /\ RelationLoaders c' = Some before
  | None =>
      result = Ok tt
      /\ RelationLoaders c' = Some (<[relation := loader]> before)
      /\ (RelationLoaders c' ≫= lookup relation) = Some loader
  end
  /\ (forall other,
        other <> relation ->
        (RelationLoaders c' ≫= lookup other) = before !! other)
  /\ Conn c' = Conn c /\ Table c' = Table c
  /\ OrderColumns c' = OrderColumns c /\ SoftDelete c' = SoftDelete c
  /\ fst (AddRelation c' relation again)
     = Err (Errorf ("relation loader already exists for relation: "
                    +:+ relation)).
Proof.
  intros before result c'. subst before result c'. unfold AddRelation.
  destruct (RelationLoaders c) as [loaders|]; cbn [default id].
  - destruct (loaders !! relation) as [old|] eqn:E;
      cbn [fst snd RelationLoaders Conn Table OrderColumns SoftDelete
           mbind option_bind].
    + rewrite E. repeat split; reflexivity.
    + rewrite lookup_insert_eq. repeat split; try reflexivity.
      intros other Hne. now rewrite lookup_insert_ne by congruence.
  - rewrite lookup_empty.
    cbn [fst snd RelationLoaders Conn Table OrderColumns SoftDelete
         mbind option_bind].
    rewrite lookup_insert_eq. repeat split; try reflexivity.
    intros other Hne. now rewrite lookup_insert_ne by congruence.
Qed.
End BuildExtras.

Lemma NewConnection_accepts_exactly_the_listed_columns_witness :
  exists c : Connection entity,
    NewConnection small_registry "main" "users" ["id"; "email"; "id"]%string
      (Some "deleted_at"%string) None
    = Ok c
    /\ (forall column,
          GetOrderColumns c !! column
          = if decide (column ∈ ["id"; "email"; "id"]%string)
            then Some ""%string else None)
    /\ (forall filters o w,
          OrderColumn o <> ""%string ->
          fst (Get_statement one_row_env c filters (Some o) w)
          = Err (Errorf ("invalid order column: " +:+ OrderColumn o))
          <-> OrderColumn o ∉ ["id"; "email"; "id"]%string)
    /\ GetTableName c = "users"%string
    /\ small_registry "main" = inr (Some (GetConnection c)).
Proof.
  eexists. split; [reflexivity |].
  exact (NewConnection_accepts_exactly_the_listed_columns one_row_env
           small_registry "main" "users" ["id"; "email"; "id"]%string
           (Some "deleted_at"%string) None _ eq_refl).
Defined.

(** ** Relation names with a dot *)

Lemma strings_Split_head_no_sep (s : string) (sep : ascii) :
  match strings_Split s sep with
  | head :: _ => strings_Contains head sep = false
  | [] => False
  end.
Proof.
  induction s as [|c rest IH]; cbn [strings_Split]; [reflexivity |].
  destruct (Ascii.eqb c sep) eqn:E; [reflexivity |].
  destruct (strings_Split rest sep) as [|seg segs]; [destruct IH |].
  cbn [strings_Contains]. now rewrite E, IH.
Qed.

Lemma relation_head_no_dot (relation : string) :
  strings_Contains (fst (relation_path relation)) "." = false.
Proof.
  unfold relation_path.
  destruct (strings_Contains relation ".") eqn:E; [|exact E].
  pose proof (strings_Split_head_no_sep relation ".") as H.
  now destruct (strings_Split relation ".").
Qed.

(** X23.  The name [Get] looks a loader up under never contains a dot
    (it is the part of the relation path before the first dot), so a
    loader registered under a name with a dot is never dispatched:
    loading any relations with it registered goes as without it. *)
Theorem dotted_loader_is_never_dispatched {T : Type}
    (loaders : gmap string (RelationLoader T)) (name : string)
    (loader : RelationLoader T) (relations : list string) (models : list T)
    (w : world) :
  strings_Contains name "." = true ->
  load_relations (<[name := loader]> loaders) relations models w
  = load_relations (delete name loaders) relations models w.
Proof.
  intros Hdot. unfold load_relations.
  revert models w. induction relations as [|relation rest IH];
    intros models w; cbn [fold_each]; [reflexivity |].
  rewrite !bind_eq.
  pose proof (relation_head_no_dot relation) as Hhead.
  destruct (relation_path relation) as [head childs]. cbn [fst] in Hhead.
  assert (head <> name) as Hne by (intros ->; congruence).
  match goal with
  | |- ?L = ?R =>
      match L with
      | context [match ?x with Some _ => _ | None => _ end w] =>
          match R with
          | context [match ?y with Some _ => _ | None => _ end w] =>
              replace x with (loaders !! head)
                by (symmetry; apply lookup_insert_ne; congruence);
              replace y with (loaders !! head)
                by (symmetry; apply lookup_delete_ne; congruence)
          end
      end
  end.
  destruct (loaders !! head) as [found|]; [|reflexivity].
  destruct (on_error _ _ w) as [[models' | e | msg] w']; try reflexivity.
  apply IH.
Qed.

Lemma dotted_loader_is_never_dispatched_witness :
  strings_Contains "roles.permissions" "." = true
  /\ load_relations
       (<["roles.permissions"%string :=
            OnetoManyLoader_Load one_row_env (P := entity)
              (permissions_of [permission 10 1] "owner_id")]> ∅)
       ["roles.permissions"%string] [role 1] empty_world
     = load_relations (delete "roles.permissions"%string ∅)
         ["roles.permissions"%string] [role 1] empty_world.
Proof.
  split; [reflexivity |].
  exact (dotted_loader_is_never_dispatched ∅ "roles.permissions" _
           ["roles.permissions"%string] [role 1] empty_world eq_refl).
Defined.

(** ** [CreateMany] *)

Lemma strings_Join_cons (t : string) (ts : list string) (sep : string) :
  strings_Join (t :: ts) sep
  = t +:+ concat_strings (map (fun x => sep +:+ x) ts).
Proof.
  revert t. induction ts as [|t' ts IH]; intros t.
  - cbn. now rewrite append_empty_r.
  - change (strings_Join (t :: t' :: ts) sep)
      with (t +:+ sep +:+ strings_Join (t' :: ts) sep).
    rewrite IH. cbn [map concat_strings]. now rewrite !append_assoc.
Qed.

Lemma row_values_spec (entries : list (string * value)) :
  forall values placeholders n,
    int_min <= n -> n + Z.of_nat (length entries) <= int_max ->
    row_values entries values placeholders n
    = (values ++ map snd entries,
       placeholders
       ++ map (fun i => "$" +:+ fmt_d i) (dense n (length entries)),
       n + Z.of_nat (length entries)).
Proof.
  induction entries as [|[k v] rest IH]; intros values placeholders n Hmin Hmax.
  - cbn. rewrite !app_nil_r. f_equal. lia.
  - cbn [row_values length] in *.
    rewrite int_add_exact by (unfold int_min, int_max in *; lia).
    rewrite IH by (unfold int_min in *; lia).
    rewrite dense_cons. cbn [map snd]. rewrite <- !app_assoc. cbn [app].
    f_equal. lia.
Qed.

Lemma gomap_range_length (orders : range_orders) (i : nat) (m : gomap) :
  length (gomap_range orders i m) = gomap_size m.
Proof.
  destruct m as [entries|]; [|reflexivity]. cbn.
  rewrite (Permutation_length (range_nth_perm orders i entries)).
  apply length_map_to_list.
Qed.

Lemma rows_values_spec (orders : range_orders) (dataList : list gomap) :
  forall i query values n,
    1 <= n ->
    n + Z.of_nat (sum_list (map gomap_size dataList)) <= int_max ->
    rows_values orders dataList (S i) query values n
    = (query
       +:+ concat_strings
             (map (fun t => ", " +:+ t) (tuples (map gomap_size dataList) n)),
       values ++ rows_args orders (S i) dataList,
       n + Z.of_nat (sum_list (map gomap_size dataList))).
Proof.
  induction dataList as [|tmpItem rest IH]; intros i query values n Hn Hmax.
  - cbn. rewrite append_empty_r, app_nil_r. f_equal. lia.
  - cbn [rows_values map sum_list sum_list_with tuples rows_args id
         concat_strings] in *.
    change (0 <? S i)%nat with true. cbv iota.
    rewrite row_values_spec
      by (rewrite ?gomap_range_length; unfold int_min, int_max in *; lia).
    rewrite gomap_range_length, IH by lia.
    cbn [app]. rewrite !append_assoc, <- app_assoc.
    f_equal. lia.
Qed.

Lemma rows_values_first (orders : range_orders) (data : gomap)
    (rest : list gomap) (query : string) :
  1 + Z.of_nat (sum_list (map gomap_size (data :: rest))) <= int_max ->
  rows_values orders (data :: rest) 0 query [] 1
  = (query
     +:+ strings_Join (tuples (map gomap_size (data :: rest)) 1) ", ",
     rows_args orders 0 (data :: rest),
     1 + Z.of_nat (sum_list (map gomap_size (data :: rest)))).
Proof.
  intros Hmax.
  cbn [rows_values map sum_list sum_list_with tuples rows_args id] in *.
  change (0 <? 0)%nat with false. cbv iota.
  rewrite row_values_spec
    by (rewrite ?gomap_range_length; unfold int_min, int_max in *; lia).
  rewrite gomap_range_length, rows_values_spec by lia.
  rewrite strings_Join_cons. cbn [app].
  rewrite !append_assoc. f_equal. lia.
Qed.

Lemma rows_args_length (orders : range_orders) (dataList : list gomap) :
  forall i,
    length (rows_args orders i dataList)
    = sum_list (map gomap_size dataList).
Proof.
  induction dataList as [|tmpItem rest IH]; intros i; [reflexivity |].
  cbn [rows_args map sum_list sum_list_with id].
  now rewrite length_app, length_map, gomap_range_length, IH.
Qed.

Section ManyExtras.
Variable env : environment.
Context {T : Type} `{!Model T}.

Lemma CreateMany_issues (orders : range_orders) (c : Connection T)
    (data : gomap) (rest : list gomap) (opts : option Options) (w : world) :
  1 + Z.of_nat (sum_list (map gomap_size (data :: rest))) <= int_max ->
  issued (snd (CreateMany env orders c (data :: rest) opts w))
  = issued w
    ++ [{| on_handle := Conn c;
           sql_text :=
             "INSERT INTO " +:+ Table c +:+ " ("
             +:+ strings_Join (map fst (gomap_range orders 0 data)) ", "
             +:+ ") VALUES "
             +:+ strings_Join (tuples (map gomap_size (data :: rest)) 1) ", "
             +:+ " RETURNING *";
           sql_args := rows_args orders 0 (data :: rest) |}]
  /\ forall msg,
       fst (CreateMany env orders c (data :: rest) opts w) <> Panic msg.
Proof.
  intros Hmax. unfold CreateMany.
  rewrite rows_values_first by exact Hmax.
  rewrite !append_assoc.
  set (q := "INSERT INTO " +:+ _).
  rewrite bind_eq.
  destruct (sql_debug_ok env q "SQL Values:"
              (rows_args orders 0 (data :: rest)) w) as [Hok Hsame].
  destruct (sql_debug env q "SQL Values:"
              (rows_args orders 0 (data :: rest)) w) as [r w2].
  cbn [fst snd] in *. subst r.
  rewrite bind_eq. unfold db_QueryContext.
  destruct (QueryContext env w2 _) as [e | result].
  { cbn. rewrite Hsame. split; [reflexivity | discriminate]. }
  destruct (quiet_run
              (for_each (fun row => scanRow (T := T) (inr row)) (rows result))
              (issue {| on_handle := Conn c; sql_text := q;
                        sql_args := rows_args orders 0 (data :: rest) |} w2))
    as [Hi Hp].
  { apply issues_only_for_each. intros row. apply scanRow_quiet. }
  split; [|exact Hp]. rewrite Hi. cbn. now rewrite Hsame.
Qed.

(** X24.  [CreateMany] issues nothing for an empty list, which it
    answers with an empty result; otherwise it issues exactly one
    statement and never panics.  The column list is that of the first map
    alone; every map contributes a tuple as wide as the map itself, the
    placeholders numbered [$1, $2, ...] through all tuples, one per
    argument. *)
Theorem CreateMany_issues_one_insert (orders : range_orders)
    (c : Connection T) (dataList : list gomap) (opts : option Options)
    (w : world) :
  1 + Z.of_nat (sum_list (map gomap_size dataList)) <= int_max ->
  match dataList with
  | [] => CreateMany env orders c dataList opts w = (Ok [], w)
  | data :: _ =>
      exists columns args,
        issued (snd (CreateMany env orders c dataList opts w))
        = issued w
          ++ [{| on_handle := Conn c;
                 sql_text :=
                   "INSERT INTO " +:+ Table c +:+ " ("
                   +:+ strings_Join columns ", " +:+ ") VALUES "
                   +:+ strings_Join (tuples (map gomap_size dataList) 1) ", "
                   +:+ " RETURNING *";
                 sql_args := args |}]
        /\ columns ≡ₚ map fst (default [] (map_to_list <$> data))
        /\ length args = sum_list (map gomap_size dataList)
        /\ forall msg,
             fst (CreateMany env orders c dataList opts w) <> Panic msg
  end.
Proof.
  intros Hmax. destruct dataList as [|data rest]; [reflexivity |].
  destruct (CreateMany_issues orders c data rest opts w Hmax) as [Hi Hp].
  exists (map fst (gomap_range orders 0 data)),
         (rows_args orders 0 (data :: rest)).
  split; [exact Hi |]. split; [|split; [apply rows_args_length | exact Hp]].
  destruct data as [entries|]; cbn; [|reflexivity].
  now rewrite (range_nth_perm orders 0 entries).
Qed.

(** X25.  [CreateMany] does not keep the arguments in the order of its
    columns: it collects the columns in one loop over the first map and
    the values in another, and Go fixes no order for either.  When the
    second loop runs opposite to the first, the arguments of a one-row
    insert are those of the column list reversed. *)
Theorem CreateMany_arguments_need_not_follow_the_columns (c : Connection T)
    (m : gmap string value) (opts : option Options) (w : world) :
  1 + Z.of_nat (size m) <= int_max ->
  let columns := map fst (map_to_list m) in
  let aligned := map snd (map_to_list m) in
  issued (snd (CreateMany env other_order c [Some m] opts w))
  = issued w
    ++ [{| on_handle := Conn c;
           sql_text :=
             "INSERT INTO " +:+ Table c +:+ " ("
             +:+ strings_Join columns ", " +:+ ") VALUES ("
             +:+ strings_Join
                   (map (fun i => "$" +:+ fmt_d i) (dense 1 (size m))) ", "
             +:+ ") RETURNING *";
           sql_args := reverse aligned |}].
Proof.
  intros Hmax columns aligned.
  assert (1 + Z.of_nat (sum_list (map gomap_size [Some m])) <= int_max)
    as Hsum by (cbn; lia).
  destruct (CreateMany_issues other_order c (Some m) [] opts w Hsum)
    as [Hi _].
  etransitivity; [exact Hi |]. subst columns aligned.
  cbn [rows_args gomap_range other_order range_nth map gomap_size tuples
       strings_Join].
  rewrite app_nil_r, fmap_reverse, !append_assoc. reflexivity.
Qed.
End ManyExtras.

Lemma CreateMany_issues_one_insert_witness :
  let dataList : list gomap :=
    [Some {["name"%string := VString "read"; "scope"%string := VString "*"]};
     Some {["name"%string := VString "write"]}] in
  1 + Z.of_nat (sum_list (map gomap_size dataList)) <= int_max
  /\ exists columns args,
       issued (snd (CreateMany one_row_env same_order permissions_repo
                      dataList None empty_world))
       = issued empty_world
         ++ [{| on_handle := Conn permissions_repo;
                sql_text :=
                  "INSERT INTO " +:+ Table permissions_repo +:+ " ("
                  +:+ strings_Join columns ", " +:+ ") VALUES "
                  +:+ "($1, $2), ($3)" +:+ " RETURNING *";
                sql_args := args |}]
       /\ columns
          ≡ₚ map fst
               (default []
                  (map_to_list
                     <$> Some ({["name"%string := VString "read";
                                 "scope"%string := VString "*"]}
                               : gmap string value)))
       /\ length args = sum_list (map gomap_size dataList)
       /\ forall msg,
            fst (CreateMany one_row_env same_order permissions_repo dataList
                   None empty_world) <> Panic msg.
Proof.
  intros dataList.
  assert (1 + Z.of_nat (sum_list (map gomap_size dataList)) <= int_max)
    as Hmax by (vm_compute; discriminate).
  split; [exact Hmax |].
  exact (CreateMany_issues_one_insert one_row_env same_order permissions_repo
           dataList None empty_world Hmax).
Defined.

Lemma CreateMany_arguments_need_not_follow_the_columns_witness :
  let m : gmap string value :=
    {["name"%string := VString "read"; "scope"%string := VString "*"]} in
  1 + Z.of_nat (size m) <= int_max
  /\ map (fun s => (sql_text s, sql_args s))
       (issued (snd (CreateMany one_row_env other_order permissions_repo
                       [Some m] None empty_world)))
     = [("INSERT INTO permissions (scope, name) VALUES ($1, $2) RETURNING *"%string,
         [VString "read"; VString "*"])].
Proof.
  intros m.
  assert (1 + Z.of_nat (size m) <= int_max) as Hmax
    by (vm_compute; discriminate).
  split; [exact Hmax |].
  rewrite (CreateMany_arguments_need_not_follow_the_columns one_row_env
             permissions_repo m None empty_world Hmax).
  reflexivity.
Defined.

(** ** The Postgres adapter *)

Lemma append_literal_not_empty (a b : string) :
  a <> ""%string -> a +:+ b <> ""%string.
Proof. intros Ha E. apply append_eq_empty in E. tauto. Qed.

(** X26.  [Connect] connects once: after it has succeeded the adapter
    holds a connection, and every later [Connect] returns nil without
    opening or pinging anything, whatever happened in between, a [Close]
    included (which leaves the adapter as it is). *)
Theorem Connect_connects_once (sql : connection.sql_package)
    (p : connection.PostgresAdapter) (w : connection.driver) :
  fst (fst (connection.Connect sql p w)) = Ok tt ->
  let p' := snd (fst (connection.Connect sql p w)) in
  connection.Conn p' <> None
  /\ forall sql' w', connection.Connect sql' p' w' = (Ok tt, p', w').
Proof.
  unfold connection.Connect.
  destruct (connection.Conn p) as [c|] eqn:Ec.
  - cbn [fst snd]. intros _. rewrite Ec. split; [discriminate |].
    reflexivity.
  - destruct (String.eqb (connection.Dsn p) ""); [discriminate |].
    destruct (connection.sql_Open sql w (connection.Dsn p)) as [e | db];
      [discriminate |].
    destruct (connection.DB_Ping sql _ db); [discriminate |].
    cbn [fst snd connection.Conn]. intros _. split; [discriminate |].
    reflexivity.
Qed.

Lemma Connect_connects_once_witness :
  let p :=
    snd (connection.SetConf connection.NewConnection "main"
           local_conf) in
  let p' :=
    snd (fst (connection.Connect reachable p idle)) in
  fst (fst (connection.Connect reachable p idle))
  = Ok tt
  /\ connection.Conn p' <> None
  /\ forall sql' w', connection.Connect sql' p' w' = (Ok tt, p', w').
Proof.
  intros p p'. split; [reflexivity |].
  exact (Connect_connects_once reachable p idle
           eq_refl).
Defined.

(** X27.  The data source name decides whether [Connect] tries at all:
    an adapter fresh from [NewConnection] fails with "DSN is not set" and
    opens nothing; after [SetConf] the name is never empty, whatever the
    configuration, so an unconnected adapter opens exactly the data source
    [SetConf] composed, once, and never reports a missing DSN. *)
Theorem Connect_needs_SetConf (sql : connection.sql_package)
    (p : connection.PostgresAdapter) (name : string)
    (conf : connection.Config) (w : connection.driver) :
  connection.Connect sql connection.NewConnection w
  = (Err (Errorf "DSN is not set"), connection.NewConnection, w)
  /\ let p1 := snd (connection.SetConf p name conf) in
     fst (connection.SetConf p name conf) = None
     /\ connection.Name p1 = name
     /\ (connection.Conn p = None ->
         connection.opened (snd (connection.Connect sql p1 w))
         = connection.opened w
           ++ ["host=" +:+ connection.Host conf
               +:+ " port=" +:+ fmt_d (connection.Port conf)
               +:+ " user=" +:+ connection.User conf
               +:+ " password=" +:+ connection.Password conf
               +:+ " dbname=" +:+ connection.Database conf
               +:+ " sslmode=disable"]
         /\ fst (fst (connection.Connect sql p1 w))
            <> Err (Errorf "DSN is not set")).
Proof.
  split; [reflexivity |].
  cbn [connection.SetConf fst snd connection.Name].
  split; [reflexivity |]. split; [reflexivity |].
  intros Hnil. unfold connection.Connect.
  cbn [connection.Conn connection.Dsn]. rewrite Hnil.
  replace (String.eqb _ "") with false by reflexivity.
  destruct (connection.sql_Open sql w _) as [e | db];
    [split; [reflexivity | discriminate] |].
  destruct (connection.DB_Ping sql _ db);
    (split; [reflexivity | discriminate]).
Qed.

Lemma Connect_needs_SetConf_witness :
  let p1 :=
    snd (connection.SetConf connection.NewConnection "main"
           local_conf) in
  connection.Conn connection.NewConnection = None
  /\ connection.opened
       (snd (connection.Connect reachable p1 idle))
     = ["host=localhost port=5432 user=app password=secret dbname=shop sslmode=disable"%string].
Proof.
  intros p1. split; [reflexivity |].
  exact (proj1 (proj2 (proj2 (proj2
           (Connect_needs_SetConf reachable
              connection.NewConnection "main" local_conf
              idle))) eq_refl)).
Defined.

(** X28.  A [Connect] that fails leaves the adapter as it was: nothing
    is stored when the data source cannot be opened or does not answer the
    ping, so the adapter stays unconnected, [Ping] reports that there is
    no active connection without pinging anything, [Close] has nothing to
    close, and a later [Connect] tries again. *)
Theorem failed_Connect_leaves_the_adapter_unconnected
    (sql : connection.sql_package) (p : connection.PostgresAdapter)
    (w : connection.driver) (e : error) :
  fst (fst (connection.Connect sql p w)) = Err e ->
  snd (fst (connection.Connect sql p w)) = p
  /\ connection.GetConnection p = None
  /\ (forall sql' w',
        connection.Ping sql' p w'
        = (Err (Errorf "no active database connection"), w')
        /\ connection.Close sql' p w' = (Ok tt, w')).
Proof.
  unfold connection.Connect, connection.Ping, connection.Close,
    connection.GetConnection.
  destruct (connection.Conn p) as [c|]; [discriminate |].
  intros H. split; [|split; [reflexivity | intros; split; reflexivity]].
  destruct (String.eqb (connection.Dsn p) ""); [reflexivity |].
  destruct (connection.sql_Open sql w (connection.Dsn p)) as [e' | db];
    [reflexivity |].
  destruct (connection.DB_Ping sql _ db); [reflexivity | discriminate H].
Qed.

Lemma failed_Connect_leaves_the_adapter_unconnected_witness :
  let p :=
    snd (connection.SetConf connection.NewConnection "main"
           local_conf) in
  fst (fst (connection.Connect unreachable p idle))
  = Err (Errorw "failed to ping database: "
           (ErrDriver "dial tcp: connection refused"))
  /\ snd (fst (connection.Connect unreachable p idle))
     = p.
Proof.
  intros p. split; [reflexivity |].
  exact (proj1 (failed_Connect_leaves_the_adapter_unconnected
                  unreachable p idle _ eq_refl)).
Defined.

(** ** Relations load one after the other *)

(** X29.  [Get] loads the relations it is asked for one after the other,
    in the order given: each loader receives the entities as the one
    before it left them, and the first one that fails (or is missing)
    ends the loading, the relations after it untouched. *)
Theorem relations_load_in_order {T : Type}
    (loaders : gmap string (RelationLoader T)) (first later : list string)
    (models : list T) (w : world) :
  load_relations loaders (first ++ later) models w
  = match load_relations loaders first models w with
    | (Ok loaded, w') => load_relations loaders later loaded w'
    | (Err e, w') => (Err e, w')
    | (Panic msg, w') => (Panic msg, w')
    end.
Proof.
  unfold load_relations. revert models w.
  induction first as [|relation rest IH]; intros models w; [reflexivity |].
  cbn [app fold_each]. rewrite !bind_eq.
  destruct (relation_path relation) as [name childs].
  destruct (loaders !! name) as [loader|]; [|reflexivity].
  destruct (on_error _ _ w) as [[loaded | e | msg] w']; try reflexivity.
  apply IH.
Qed.

(** ** The N:M loader without pivot rows *)

Section PivotExtras.
Variable env : environment.
Context {P C : Type} `{!Model P} `{!Model C} `{!Container P C}.

Lemma for_each_unchanged (m : ManyToManyLoader C) (parents : list P)
    (ids : list value) (w : world) :
  fields_of (ManyToMany_ParentKey m) parents = Some ids ->
  for_each
    (fun parent =>
       do parentKey <-
         field_or parent (ManyToMany_ParentKey m)
           (Errorf ("invalid parent key field: " +:+ ManyToMany_ParentKey m)) ;;
       match (∅ : gmap string (list C)) !! fmt_v env parentKey with
       | None => ret parent
       | Some children =>
           lift (container_SetSlice (ManyToMany_ContainerField m) parent
                   children)
       end)
    parents w
  = (Ok parents, w).
Proof.
  revert ids. induction parents as [|parent rest IH]; intros ids Hids;
    cbn [for_each]; [reflexivity |].
  cbn [fields_of] in Hids.
  destruct (FieldByName parent (ManyToMany_ParentKey m)) as [key|] eqn:Ek;
    [|discriminate].
  destruct (fields_of (ManyToMany_ParentKey m) rest) as [rest_ids|] eqn:Er;
    [|discriminate].
  rewrite bind_eq, bind_eq. unfold field_or at 1. rewrite Ek.
  cbn [ret]. rewrite lookup_empty. cbn [ret].
  now rewrite bind_eq, (IH rest_ids eq_refl).
Qed.

Lemma orphans_are_logged (m : ManyToManyLoader C) (children : list C) :
  forall (keys : list value) (w : world),
    fields_of (ManyToMany_ChildKey m) children = Some keys ->
    Forall (fun key => is_comparable key = true) keys ->
    fold_each
      (fun (final : gmap string (list C)) child =>
         do childKeyValue <-
           field_or child (ManyToMany_ChildKey m)
             (Errorf ("invalid child key field: "
                      +:+ ManyToMany_ChildKey m)) ;;
         run lift (go_hash childKeyValue) ;;
         match pivot_lookup childKeyValue [] with
         | None =>
             run log_Println
                   (PrintlnValues
                      "No parent IDs found for child key value:"
                      [childKeyValue]) ;;
             ret final
         | Some parentIdsForChild =>
             ret (fold_left
                    (fun final parentId =>
                       <[fmt_v env parentId :=
                           default [] (final !! fmt_v env parentId)
                           ++ [child]]> final)
                    parentIdsForChild final)
         end)
      children ∅ w
    = (Ok ∅,
       {| issued := issued w;
          log_output :=
            log_output w
            ++ map (fun key =>
                      PrintlnValues "No parent IDs found for child key value:"
                        [key]) keys;
          clock_reads := clock_reads w |}).
Proof.
  induction children as [|child rest IH]; intros keys w Hkeys Hcomparable.
  - injection Hkeys as <-. cbn. rewrite app_nil_r. now destruct w.
  - cbn [fields_of] in Hkeys. cbn [fold_each].
    destruct (FieldByName child (ManyToMany_ChildKey m)) as [key|] eqn:Ek;
      [|discriminate].
    destruct (fields_of (ManyToMany_ChildKey m) rest) as [rest_keys|] eqn:Er;
      [|discriminate].
    injection Hkeys as <-.
    inversion Hcomparable as [|? ? Hkey Hrest]; subst.
    rewrite bind_eq, bind_eq. unfold field_or at 1. rewrite Ek. cbn [ret].
    rewrite bind_eq. unfold lift at 1.
    assert (go_hash key = Ok tt) as ->
      by (destruct key; try reflexivity; cbn in Hkey; now subst).
    cbn [pivot_lookup]. rewrite bind_eq. cbn [log_Println ret].
    rewrite (IH rest_keys _ eq_refl Hrest).
    cbn [issued log_output clock_reads map]. now rewrite <- app_assoc.
Qed.

(** X30.  When the pivot table has no row for the parents, the N:M
    loader still asks the child repository, with the filter
    [childKey IN] over an empty list (which [prepareFilters] compiles to
    [childKey IN ()] without an argument), in the world the pivot query
    left: an error or a panic of that [Get] is the loader's; the children
    it returns have no parent to go to, each is logged, and the parents
    are returned as they were. *)
Theorem ManyToMany_without_pivot_rows (m : ManyToManyLoader C)
    (parents : list P) (childs : option (list string)) (w : world)
    (sqlConn : DB) (ids : list value) (result : rowset) :
  parents <> [] ->
  fields_of (ManyToMany_ParentKey m) parents = Some ids ->
  ManyToMany_Connection m = Some sqlConn ->
  let pivot :=
    {| on_handle := sqlConn; sql_text := pivot_query m (length ids);
       sql_args := ids |} in
  let w1 := snd (sql_debug env (sql_text pivot) "SQL Values:" ids w) in
  QueryContext env w1 pivot = inr result ->
  rows result = [] ->
  let children_of_nothing :=
    Build_GroupFilter
      [AnyMultiple {| Multi_Key := ManyToMany_ChildKey m;
                      Multi_Values := [];
                      Multi_Comparator := Some ComparatorIn |}] "" in
  match Repository_Get (ManyToMany_Repository m) children_of_nothing
          (Some (child_options childs)) (issue pivot w1) with
  | (Ok children, w3) =>
      forall keys,
        fields_of (ManyToMany_ChildKey m) children = Some keys ->
        Forall (fun key => is_comparable key = true) keys ->
        ManyToManyLoader_Load env m parents childs w
        = (Ok parents,
           {| issued := issued w3;
              log_output :=
                log_output w3
                ++ map (fun key =>
                          PrintlnValues
                            "No parent IDs found for child key value:" [key])
                     keys;
              clock_reads := clock_reads w3 |})
  | (Err e, w3) =>
      ManyToManyLoader_Load env m parents childs w
      = (Err (Errorw "failed to get child models: " e), w3)
  | (Panic msg, w3) =>
      ManyToManyLoader_Load env m parents childs w = (Panic msg, w3)
  end
  /\ forall n,
       prepareFilters children_of_nothing n
       = (ManyToMany_ChildKey m +:+ " IN ()", [], if n <=? 0 then 1 else n).
Proof.
  intros Hne Hids Hconn pivot w1 Hquery Hrows children_of_nothing. split.
  - remember (ManyToManyLoader_Load env m parents childs w) as loaded
      eqn:Hload.
    unfold ManyToManyLoader_Load in Hload.
    destruct parents as [|parent0 rest0] eqn:Ep; [congruence |].
    cbn [length Nat.eqb] in Hload. rewrite <- Ep in *. clear Ep Hne.
    rewrite bind_eq, for_each_field_or, Hids in Hload.
    rewrite bind_eq, Hconn in Hload.
    subst w1. change (sql_text pivot) with (pivot_query m (length ids)) in *.
    destruct (sql_debug_ok env (pivot_query m (length ids)) "SQL Values:" ids w)
      as [Hok _].
    destruct (sql_debug env (pivot_query m (length ids)) "SQL Values:" ids w)
      as [r w1].
    cbn [fst snd] in *. subst r.
    rewrite bind_eq in Hload. unfold on_error at 1, db_QueryContext in Hload.
    fold pivot in Hload. rewrite Hquery, Hrows in Hload.
    cbn [fold_each] in Hload.
    rewrite bind_eq in Hload. cbn [ret] in Hload.
    rewrite bind_eq in Hload. unfold on_error at 1 in Hload.
    fold children_of_nothing in Hload.
    destruct (Repository_Get (ManyToMany_Repository m) children_of_nothing
                (Some (child_options childs)) (issue pivot w1))
      as [[children | e | msg] w3]; try exact Hload.
    intros keys Hkeys Hcomparable.
    rewrite bind_eq, (orphans_are_logged m children keys w3 Hkeys Hcomparable)
      in Hload.
    now rewrite (for_each_unchanged m parents ids _ Hids) in Hload.
  - intros n. subst children_of_nothing.
    unfold prepareFilters. rewrite prepareFilters_run_eq.
    cbn [fold_left prepareFilters_step Multi_Comparator default
         Multi_Values Multi_Key multi_values].
    change (id ComparatorIn) with ComparatorIn.
    change (String.eqb ComparatorIn ComparatorIn
            || String.eqb ComparatorIn ComparatorNotIn) with true.
    cbv iota. unfold returned.
    rewrite text_emit, vals_emit, counter_emit.
    assert ((0 <? Builder_Len
                    ([Lit (ManyToMany_ChildKey m +:+ " " +:+ ComparatorIn
                           +:+ " (")] ++ [Lit ")"]))%nat = true) as Hlen.
    { apply Nat.ltb_lt. cbn [app]. apply Builder_Len_lit.
      repeat apply append_not_empty_r. discriminate. }
    rewrite Hlen. cbn [start queryBuilder vals counter Builder_String app].
    rewrite glue_empty_l.
    cbn [piece_String]. do 2 f_equal.
    rewrite !append_assoc. reflexivity.
Qed.
End PivotExtras.

Lemma ManyToMany_without_pivot_rows_witness :
  let loaded :=
    ManyToManyLoader_Load empty_pivot_env (roles_through_pivot empty_pivot_env)
      [role 1; role 2] None empty_world in
  fst loaded = Ok [role 1; role 2]
  /\ map sql_text (issued (snd loaded))
     = ["SELECT user_id, role_id FROM roles_users WHERE user_id IN ($1, $2)";
        "SELECT * FROM roles WHERE Id IN ()"]%string
  /\ log_output (snd loaded)
     = [PrintlnValues "No parent IDs found for child key value:" [VInt 7]].
Proof.
  intros loaded. subst loaded.
  rewrite (proj1 (ManyToMany_without_pivot_rows empty_pivot_env
                    (roles_through_pivot empty_pivot_env) [role 1; role 2]
                    None empty_world 0%nat [VInt 1; VInt 2]
                    {| rows := []; rows_Err := None |}
                    ltac:(discriminate) eq_refl eq_refl eq_refl eq_refl)
             [VInt 7] eq_refl ltac:(repeat constructor)).
  repeat split.
Defined.
